(** * A schema-driven storage layer over an embedded SQL engine

    Shallow embedding of [src/helpers/database.ts]: the row access layer,
    the migration engine, the model factory and the maintenance scheduler
    of class [Database], followed by the properties proved about them.

    The class talks to three collaborators that are not part of the
    repository: the embedded engine behind [this.db] (sqlite3), the file
    system ([fs/promises]) and the JavaScript runtime.  They are modelled
    as a reference environment:

    - the engine keeps an [Image] (tables in creation order, positional
      rows) and executes the statements the class builds, one constructor
      of [Stmt] per SQL text of the source.  A statement either takes
      effect as a whole or is rejected and changes nothing.  Identifiers
      between quotes are resolved exactly as written, the names that
      [reorderFields] writes without quotes are read as the engine reads
      a word or a number, values keep the storage class they were bound
      with, and numbers are integers;
    - every call into the engine or the file system first consults a fault
      oracle ([faults]), so that a failure of the environment can be
      injected at any call;
    - every call is recorded in [log], newest first, together with the
      invocations of [error_callback].  The callback is one that returns,
      as the default [() => { }] does.

    Asynchronous methods are run to completion in program order: a promise
    is a computation in the monad [M], whose outcome is a value, a raised
    exception or a promise that never settles.  Row access goes through an
    open handle.  Besides the primitive values, a column can hold the
    database itself or one of the objects every object inherits from
    [Object.prototype]; no other object or function is represented, and a
    call of a method of an instance reaches the method of its class.  The
    methods no property below depends on ([getValue], [getTableInfo],
    [commit], [rollback] and the raw query passthroughs) are left out.

    Two pieces of the callers follow the class: [prepareItem] of the
    server, which works on the model of table [items], and the request
    body that [Transporter.uploadZipArchive] streams. *)

From Stdlib Require Import ZArith.
From stdpp Require Import base option list strings gmap pretty.

Open Scope string_scope.
Open Scope list_scope.

(** ** Values and rows *)

(** The objects that reach a column: the database that owns the models
    ([dbInstance]) and what [Object.prototype] holds under a name, which is
    a function, or the prototype itself under [__proto__]. *)
Inductive Obj :=
| dbInstance
| inherited (k : string).

#[global] Instance Obj_eq_dec : EqDecision Obj.
Proof. solve_decision. Defined.

(** A JavaScript value bound to a statement, read from a row or held by an
    instance. *)
Inductive Value :=
| VUndef
| VNull
| VInt (n : Z)
| VText (s : string)
| VObject (o : Obj).

#[global] Instance Value_eq_dec : EqDecision Value.
Proof. solve_decision. Defined.

(** An object by its own properties: a row object, or an instance of a
    model. *)
Abbreviation Row := (gmap string Value).

(** A property the object holds itself, [undefined] when it holds none of
    that name. *)
Definition prop (o : Row) (k : string) : Value := default VUndef (o !! k).

(** The property names every object inherits from [Object.prototype]. *)
Definition inherited_properties : list string :=
  [ "constructor"; "__defineGetter__"; "__defineSetter__"; "hasOwnProperty";
    "__lookupGetter__"; "__lookupSetter__"; "isPrototypeOf"; "propertyIsEnumerable";
    "toString"; "valueOf"; "__proto__"; "toLocaleString" ].

(** [obj[k]] on a plain object: the property it holds itself; without one,
    what it inherits under that name; [undefined] otherwise. *)
Definition get (obj : Row) (k : string) : Value :=
  match obj !! k with
  | Some v => v
  | None => if decide (k ∈ inherited_properties) then VObject (inherited k) else VUndef
  end.

(** [String(o)]: the text an object converts to. *)
Definition object_text (o : Obj) : string :=
  match o with
  | dbInstance => "[object Object]"
  | inherited k =>
      if decide (k = "__proto__") then "[object Object]"
      else "function " +:+ (if decide (k = "constructor") then "Object" else k)
           +:+ "() { [native code] }"
  end.

(** [Object.fromEntries]: later entries win. *)
Definition fromEntries (entries : list (string * Value)) : Row :=
  foldl (fun o e => <[e.1 := e.2]> o) ∅ entries.

(** ** Schema declarations ([TableColumn], [DatabaseTables]) *)

Record TableColumn := {
  old : option string;
  name : string;
  type : string;
  pkey : bool;
  sensitive : bool;
  default_value : option Value
}.

Definition TEXT : string := "TEXT".
Definition INTEGER : string := "INTEGER".

Definition TableSchema := list TableColumn.
Definition DatabaseTables := list (string * TableSchema).

(** ** The result envelope ([ApiResponse]) *)

Record ApiResponse (R : Type) := {
  code : Z;
  status : option bool;
  changes : option nat;
  rows : option (list R);
  row : option R;
  info : option (list TableColumn)
}.

Arguments Build_ApiResponse {R}.
Arguments code {R}.
Arguments status {R}.
Arguments changes {R}.
Arguments rows {R}.
Arguments row {R}.
Arguments info {R}.

(** [{ code }], [{ code, status }] and [{ code, status, changes }]. *)
Definition resp_code {R} (c : Z) : ApiResponse R :=
  Build_ApiResponse c None None None None None.
Definition resp {R} (c : Z) (st : bool) : ApiResponse R :=
  Build_ApiResponse c (Some st) None None None None.
Definition resp_changes {R} (c : Z) (st : bool) (n : nat) : ApiResponse R :=
  Build_ApiResponse c (Some st) (Some n) None None None.

(** Truthiness of [result.status]. *)
Definition succeeded {R} (r : ApiResponse R) : bool :=
  bool_decide (status r = Some true).

(** Truthiness of an optional string ([undefined] and the empty string are falsy). *)
Definition truthy (s : option string) : option string :=
  match s with
  | Some "" => None
  | _ => s
  end.

(** ** The engine: physical storage *)

Record Table := {
  columns : list (string * string);
  records : list (list Value)
}.

Definition Image := list (string * Table).

Fixpoint lookup_table (t : string) (img : Image) : option Table :=
  match img with
  | [] => None
  | (n, tb) :: rest => if decide (n = t) then Some tb else lookup_table t rest
  end.

Fixpoint replace_table (t : string) (tb' : Table) (img : Image) : Image :=
  match img with
  | [] => []
  | (n, tb) :: rest =>
      if decide (n = t) then (n, tb') :: rest else (n, tb) :: replace_table t tb' rest
  end.

Fixpoint remove_table (t : string) (img : Image) : Image :=
  match img with
  | [] => []
  | (n, tb) :: rest => if decide (n = t) then rest else (n, tb) :: remove_table t rest
  end.

Fixpoint retitle_table (t t' : string) (img : Image) : Image :=
  match img with
  | [] => []
  | (n, tb) :: rest =>
      if decide (n = t) then (t', tb) :: rest else (n, tb) :: retitle_table t t' rest
  end.

Definition column_names (tb : Table) : list string := (columns tb).*1.

Fixpoint index_of (f : string) (names : list string) : option nat :=
  match names with
  | [] => None
  | n :: rest => if decide (n = f) then Some 0 else S <$> index_of f rest
  end.

Definition cell (r : list Value) (i : nat) : Value := default VNull (r !! i).

(** A bound parameter: [undefined] is stored as NULL, an object as the
    text it converts to. *)
Definition sql_value (v : Value) : Value :=
  match v with
  | VUndef => VNull
  | VObject o => VText (object_text o)
  | _ => v
  end.

(** Comparison of two stored values; NULL compares with nothing.  Values
    keep the storage class they were bound with. *)
Definition sql_compare (a b : Value) : option comparison :=
  match sql_value a, sql_value b with
  | VInt x, VInt y => Some (x ?= y)%Z
  | VText x, VText y => Some (String.compare x y)
  | VInt _, VText _ => Some Lt
  | VText _, VInt _ => Some Gt
  | _, _ => None
  end.

(** The comparison operators the reference engine parses; any other
    operator text makes the statement fail. *)
Definition sql_operator (op : string) : option (comparison -> bool) :=
  if decide (op = "=") then Some (fun c => bool_decide (c = Eq))
  else if decide (op = "<>") then Some (fun c => bool_decide (c <> Eq))
  else if decide (op = "<") then Some (fun c => bool_decide (c = Lt))
  else if decide (op = ">") then Some (fun c => bool_decide (c = Gt))
  else if decide (op = "<=") then Some (fun c => bool_decide (c <> Gt))
  else if decide (op = ">=") then Some (fun c => bool_decide (c <> Lt))
  else None.

Definition sql_holds (f : comparison -> bool) (a b : Value) : bool :=
  match sql_compare a b with
  | Some c => f c
  | None => false
  end.

(** [`${equality ? equality : '='}`] *)
Definition operator_text (equality : option string) : string :=
  match truthy equality with
  | Some op => op
  | None => "="
  end.

(** [LIMIT n] is emitted when [limit >= 0]. *)
Definition limit_rows {A} (limit : option Z) (l : list A) : list A :=
  match limit with
  | Some n => if decide (0 <= n)%Z then take (Z.to_nat n) l else l
  | None => l
  end.

(** The row object of a positional row. *)
Definition row_object (tb : Table) (r : list Value) : Row :=
  fromEntries (zip (column_names tb) r).

(** The positions of the first [limit] rows that satisfy the predicate. *)
Fixpoint matching_from (p : list Value -> bool) (k : nat) (rs : list (list Value)) : list nat :=
  match rs with
  | [] => []
  | r :: rest => if p r then k :: matching_from p (S k) rest else matching_from p (S k) rest
  end.

Fixpoint remove_at (k : nat) (hits : list nat) (rs : list (list Value)) : list (list Value) :=
  match rs with
  | [] => []
  | r :: rest =>
      if decide (k ∈ hits) then remove_at (S k) hits rest else r :: remove_at (S k) hits rest
  end.

(** ** The statements built by the class *)

Inductive Stmt :=
| SVacuum
| SCreateTable (table : string) (fdefinitions : list (string * string))
| SDropTable (table : string)
| STableInfo (table : string)
| SMasterNames
| SMasterHas (table : string)
| SRenameTable (old_table new_table : string)
| SAddColumn (table field type : string)
| SUpdateAll (table field : string) (v : Value)
| SDropColumn (table field : string)
| SRenameColumn (table old_field new_field : string)
| SCopyInto (temp : string) (select_list : list string) (table : string)
| SInsert (table : string) (args : list Value)
| SUpdateWhere (table field : string) (v : Value) (search_field : string) (search_value : Value)
| SProbe (table field op : string) (v : Value)
| SSelect (table : string) (where_ : option (string * string * Value)) (limit : option Z)
| SDeleteWhere (table field op : string) (v : Value) (limit : option Z)
| SInsertSelect (to_table from_table field op : string) (v : Value) (limit : option Z).

Inductive Reply :=
| RChanges (n : nat)
| RRows (rs : list Row)
| RInfo (fs : list TableColumn)
| RNames (ns : list string).

(** [SCopyInto] stands for [INSERT INTO "temp" SELECT f1, f2, ... FROM
    "table"]: the names of the select list are written without quotes.
    Every other statement writes its identifiers between double quotes. *)

(** A statement that modifies storage when it succeeds. *)
Definition is_write (st : Stmt) : bool :=
  match st with
  | STableInfo _ | SMasterNames | SMasterHas _ | SProbe _ _ _ _ | SSelect _ _ _ => false
  | _ => true
  end.

(** A row of [PRAGMA table_info], read through the properties [name] and [type]. *)
Definition info_row (c : string * string) : TableColumn :=
  {| old := None; name := c.1; type := c.2; pkey := false; sensitive := false;
     default_value := None |}.

(** *** Names written without quotes

    The engine takes a word of letters, digits, [_] and [$] that starts with
    a letter or [_] for the name of a column, unless it is one of its
    keywords, which are recognised in either case; bytes from 128 on count
    as letters.  A string of digits is a number.  The reference engine
    rejects a statement with any other text in its select list. *)

Definition is_digit (c : Ascii.ascii) : bool :=
  let n := Ascii.N_of_ascii c in (48 <=? n)%N && (n <=? 57)%N.

Definition is_upper (c : Ascii.ascii) : bool :=
  let n := Ascii.N_of_ascii c in (65 <=? n)%N && (n <=? 90)%N.

Definition is_lower (c : Ascii.ascii) : bool :=
  let n := Ascii.N_of_ascii c in (97 <=? n)%N && (n <=? 122)%N.

Definition starts_word (c : Ascii.ascii) : bool :=
  let n := Ascii.N_of_ascii c in
  is_upper c || is_lower c || (n =? 95)%N || (128 <=? n)%N.

Definition continues_word (c : Ascii.ascii) : bool :=
  starts_word c || is_digit c || (Ascii.N_of_ascii c =? 36)%N.

Fixpoint all_chars (p : Ascii.ascii -> bool) (s : string) : bool :=
  match s with
  | EmptyString => true
  | String c rest => p c && all_chars p rest
  end.

Definition lower_case (c : Ascii.ascii) : Ascii.ascii :=
  if is_upper c then Ascii.ascii_of_N (Ascii.N_of_ascii c + 32) else c.

Fixpoint lower_cased (s : string) : string :=
  match s with
  | EmptyString => EmptyString
  | String c rest => String (lower_case c) (lower_cased rest)
  end.

Definition keywords : list string :=
  [ "abort"; "action"; "add"; "after"; "all"; "alter"; "always"; "analyze"; "and"; "as";
    "asc"; "attach"; "autoincrement"; "before"; "begin"; "between"; "by"; "cascade";
    "case"; "cast"; "check"; "collate"; "column"; "commit"; "conflict"; "constraint";
    "create"; "cross"; "current"; "current_date"; "current_time"; "current_timestamp";
    "database"; "default"; "deferrable"; "deferred"; "delete"; "desc"; "detach";
    "distinct"; "do"; "drop"; "each"; "else"; "end"; "escape"; "except"; "exclude";
    "exclusive"; "exists"; "explain"; "fail"; "filter"; "first"; "following"; "for";
    "foreign"; "from"; "full"; "generated"; "glob"; "group"; "groups"; "having"; "if";
    "ignore"; "immediate"; "in"; "index"; "indexed"; "initially"; "inner"; "insert";
    "instead"; "intersect"; "into"; "is"; "isnull"; "join"; "key"; "last"; "left";
    "like"; "limit"; "match"; "materialized"; "natural"; "no"; "not"; "nothing";
    "notnull"; "null"; "nulls"; "of"; "offset"; "on"; "or"; "order"; "others"; "outer";
    "over"; "partition"; "plan"; "pragma"; "preceding"; "primary"; "query"; "raise";
    "range"; "recursive"; "references"; "regexp"; "reindex"; "release"; "rename";
    "replace"; "restrict"; "returning"; "right"; "rollback"; "row"; "rows";
    "savepoint"; "select"; "set"; "table"; "temp"; "temporary"; "then"; "ties"; "to";
    "transaction"; "trigger"; "unbounded"; "union"; "unique"; "update"; "using";
    "vacuum"; "values"; "view"; "virtual"; "when"; "where"; "window"; "with";
    "within"; "without" ].

(** A name that the engine reads, when it is written without quotes, as
    the column of that name. *)
Definition bare_name (n : string) : bool :=
  match n with
  | EmptyString => false
  | String c rest =>
      starts_word c && all_chars continues_word rest
      && negb (bool_decide (lower_cased n ∈ keywords))
  end.

Fixpoint digits_value (s : string) (acc : Z) : option Z :=
  match s with
  | EmptyString => Some acc
  | String c rest =>
      if is_digit c
      then digits_value rest (10 * acc + Z.of_N (Ascii.N_of_ascii c - 48))%Z
      else None
  end.

(** A term of a select list. *)
Inductive Term :=
| TColumn (n : string)
| TInteger (z : Z).

(** How the engine reads a name written without quotes. *)
Definition unquoted (n : string) : option Term :=
  if bare_name n then Some (TColumn n)
  else match n with
       | EmptyString => None
       | String _ _ => TInteger <$> digits_value n 0
       end.

(** The value of a term in a row of the table it is selected from. *)
Definition term_value (src : list string) (t : Term) : option (list Value -> Value) :=
  match t with
  | TColumn n => i ← index_of n src; Some (fun r => cell r i)
  | TInteger z => Some (fun _ => VInt z)
  end.

Definition where_filter (tb : Table) (field op : string) (v : Value)
  : option (list Value -> bool) :=
  i ← index_of field (column_names tb);
  f ← sql_operator op;
  Some (fun r => sql_holds f (cell r i) v).

Definition with_table (t : string) (img : Image) (k : Table -> option (Table * Reply))
  : option (Image * Reply) :=
  tb ← lookup_table t img;
  out ← k tb;
  Some (replace_table t out.1 img, out.2).

(** The effect of one statement on storage, [None] when the engine rejects
    it.  A rejected statement leaves storage as it was. *)
Definition exec (st : Stmt) (img : Image) : option (Image * Reply) :=
  match st with
  | SVacuum => Some (img, RChanges 0)
  | SCreateTable t defs =>
      match lookup_table t img with
      | Some _ => None
      | None =>
          if bool_decide (defs <> [] ∧ NoDup defs.*1)
          then Some (img ++ [(t, {| columns := defs; records := [] |})], RChanges 0)
          else None
      end
  | SDropTable t =>
      match lookup_table t img with
      | Some _ => Some (remove_table t img, RChanges 0)
      | None => None
      end
  | STableInfo t =>
      Some (img, RInfo (match lookup_table t img with
                        | Some tb => info_row <$> columns tb
                        | None => []
                        end))
  | SMasterNames => Some (img, RNames img.*1)
  | SMasterHas t =>
      Some (img, RNames (match lookup_table t img with Some _ => [t] | None => [] end))
  | SRenameTable t t' =>
      match lookup_table t img, lookup_table t' img with
      | Some _, None => Some (retitle_table t t' img, RChanges 0)
      | _, _ => None
      end
  | SAddColumn t f ty =>
      with_table t img (fun tb =>
        if decide (f ∈ column_names tb) then None
        else Some ({| columns := columns tb ++ [(f, ty)];
                      records := (fun r => r ++ [VNull]) <$> records tb |}, RChanges 0))
  | SUpdateAll t f v =>
      with_table t img (fun tb =>
        i ← index_of f (column_names tb);
        Some ({| columns := columns tb;
                 records := (fun r => <[i := sql_value v]> r) <$> records tb |},
              RChanges (length (records tb))))
  | SDropColumn t f =>
      with_table t img (fun tb =>
        i ← index_of f (column_names tb);
        if decide (length (columns tb) <= 1) then None
        else Some ({| columns := delete i (columns tb);
                      records := (fun r => delete i r) <$> records tb |}, RChanges 0))
  | SRenameColumn t f f' =>
      with_table t img (fun tb =>
        i ← index_of f (column_names tb);
        if decide (f' ∈ column_names tb) then None
        else Some ({| columns := alter (fun c => (f', c.2)) i (columns tb);
                      records := records tb |}, RChanges 0))
  | SCopyInto temp select_list t =>
      src ← lookup_table t img;
      with_table temp img (fun dst =>
        terms ← mapM unquoted select_list;
        values ← mapM (term_value (column_names src)) terms;
        if decide (length select_list = length (columns dst))
        then Some ({| columns := columns dst;
                      records := records dst
                                 ++ ((fun r => (fun value => value r) <$> values)
                                     <$> records src) |},
                   RChanges (length (records src)))
        else None)
  | SInsert t args =>
      with_table t img (fun tb =>
        if decide (length args = length (columns tb))
        then Some ({| columns := columns tb;
                      records := records tb ++ [sql_value <$> args] |}, RChanges 1)
        else None)
  | SUpdateWhere t f v sf sv =>
      with_table t img (fun tb =>
        i ← index_of f (column_names tb);
        p ← where_filter tb sf "=" sv;
        Some ({| columns := columns tb;
                 records := (fun r => if (p : list Value -> bool) r
                                     then <[i := sql_value v]> r else r) <$> records tb |},
              RChanges (length (List.filter p (records tb)))))
  | SProbe t f op v =>
      tb ← lookup_table t img;
      i ← index_of f (column_names tb);
      p ← where_filter tb f op v;
      Some (img, RRows ((fun r => ({[ f := cell r i ]} : Row))
                         <$> take 1 (List.filter p (records tb))))
  | SSelect t where_ limit =>
      tb ← lookup_table t img;
      p ← match where_ with
          | None => Some (fun _ => true)
          | Some (f, op, v) => where_filter tb f op v
          end;
      Some (img, RRows (row_object tb <$> limit_rows limit (List.filter p (records tb))))
  | SDeleteWhere t f op v limit =>
      with_table t img (fun tb =>
        p ← where_filter tb f op v;
        let hits := limit_rows limit (matching_from p 0 (records tb)) in
        Some ({| columns := columns tb; records := remove_at 0 hits (records tb) |},
              RChanges (length hits)))
  | SInsertSelect to_table from_table f op v limit =>
      src ← lookup_table from_table img;
      p ← where_filter src f op v;
      with_table to_table img (fun dst =>
        let moved := limit_rows limit (List.filter p (records src)) in
        if decide (length (columns src) = length (columns dst))
        then Some ({| columns := columns dst; records := records dst ++ moved |},
                   RChanges (length moved))
        else None)
  end.

(** ** The environment behind the handle *)

(** A directory, by its path or as [path.dirname(file)]. *)
Inductive Dir :=
| DirNamed (path : string)
| DirOf (file : string).

(** What the class did to its environment; [ok] is false when the call
    raised or answered with an error. *)
Inductive Event :=
| EvExec (st : Stmt) (ok : bool)
| EvOpenHandle (file : string) (ok : bool)
| EvCloseHandle (ok : bool)
| EvMkdir (dir : Dir)
| EvUnlink (file : string) (ok : bool)
| EvCopyFile (src dst : string) (ok : bool)
| EvError (location : string).

(** The storage behind the handle, the other files (a backup holds the
    image it was copied from), the oracles for failures and random numbers,
    and the log. *)
Record Sys := {
  image : Image;
  files : gmap string Image;
  faults : list bool;
  rands : list N;
  log : list Event
}.

Definition next_fault (s : Sys) : bool := hd false (faults s).

(** One external call: the oracle entry is consumed and the event is logged. *)
Definition step (s : Sys) (img : Image) (fs : gmap string Image) (ev : Event) : Sys :=
  {| image := img; files := fs; faults := tl (faults s); rands := rands s;
     log := ev :: log s |}.

(** ** Promises *)

Inductive Outcome (A : Type) :=
| Ret (a : A)
| Throw (message : string)
| Pending.

Arguments Ret {A}.
Arguments Throw {A}.
Arguments Pending {A}.

(** A computation over a state [S]: [Sys] for the methods that only use
    the handle, the whole façade state for the lifecycle methods. *)
Definition Prog (S A : Type) : Type := S -> Outcome A * S.

Definition M (A : Type) : Type := Prog Sys A.

Definition ret {S A} (a : A) : Prog S A := fun s => (Ret a, s).

Definition bind {S A B} (c : Prog S A) (k : A -> Prog S B) : Prog S B :=
  fun s =>
    match c s with
    | (Ret a, s') => k a s'
    | (Throw m, s') => (Throw m, s')
    | (Pending, s') => (Pending, s')
    end.

(** [throw new Error(message)] inside an async method: the promise rejects. *)
Definition throw {S A} (message : string) : Prog S A := fun s => (Throw message, s).

(** An exception inside a promise executor or an engine callback: [resolve]
    is never called. *)
Definition pending {S A} : Prog S A := fun s => (Pending, s).

Notation "'let*' x := c 'in' k" := (bind c (fun x => k))
  (at level 10, x name, c at level 100, k at level 200).

(** [this.error_callback(location, err)] with a callback that returns. *)
Definition error_callback (location : string) : M unit :=
  fun s => (Ret tt, {| image := image s; files := files s; faults := faults s;
                       rands := rands s; log := EvError location :: log s |}).

(** A statement handed to the engine: [None] is the callback's [err]. *)
Definition call (st : Stmt) : M (option Reply) :=
  fun s =>
    if next_fault s then (Ret None, step s (image s) (files s) (EvExec st false))
    else match exec st (image s) with
         | Some (img, r) => (Ret (Some r), step s img (files s) (EvExec st true))
         | None => (Ret None, step s (image s) (files s) (EvExec st false))
         end.

(** [this.db.run]: the callback reads [this.changes]. *)
Definition db_run (st : Stmt) : M (option nat) :=
  let* r := call st in
  ret (match r with
       | Some (RChanges n) => Some n
       | Some _ => Some 0
       | None => None
       end).

(** [this.db.get]: the first row, if any. *)
Definition db_get (st : Stmt) : M (option (option Row)) :=
  let* r := call st in
  ret (match r with
       | Some (RRows rs) => Some (head rs)
       | Some _ => Some None
       | None => None
       end).

(** [this.db.all] *)
Definition db_all (st : Stmt) : M (option (list Row)) :=
  let* r := call st in
  ret (match r with
       | Some (RRows rs) => Some rs
       | Some _ => Some []
       | None => None
       end).

(** [this.db.all] on [PRAGMA table_info]. *)
Definition db_all_info (st : Stmt) : M (option (list TableColumn)) :=
  let* r := call st in
  ret (match r with
       | Some (RInfo fs) => Some fs
       | Some _ => Some []
       | None => None
       end).

(** [this.db.all] and [this.db.get] on [sqlite_master]: the [name] of each row. *)
Definition db_all_names (st : Stmt) : M (option (list string)) :=
  let* r := call st in
  ret (match r with
       | Some (RNames ns) => Some ns
       | Some _ => Some []
       | None => None
       end).

Definition db_get_name (st : Stmt) : M (option (option string)) :=
  let* r := call st in
  ret (match r with
       | Some (RNames ns) => Some (head ns)
       | Some _ => Some None
       | None => None
       end).

(** [Math.floor(Math.random() * Number.MAX_SAFE_INTEGER)] *)
Definition random_id : M N :=
  fun s => (Ret (hd 0%N (rands s)),
            {| image := image s; files := files s; faults := faults s;
               rands := tl (rands s); log := log s |}).

(** ** The fields of [Database] fixed by the constructor *)

Record Database := {
  filename : string;
  directory : string;
  delete_unused : bool;
  reorder : bool;
  tables : DatabaseTables;
  backup_filename : string;
  backup_interval : Z;
  backup_enabled : bool;
  vacuum_interval : Z;
  vacuum_enabled : bool
}.

(** ** Row access layer and migration engine *)

Definition tableExists (table : string) : M (ApiResponse Row) :=
  let* r := db_get_name (SMasterHas table) in
  match r with
  | None => let* _ := error_callback "tableExists" in ret (resp 500 false)
  | Some db_table => ret (resp 200 (match db_table with Some _ => true | None => false end))
  end.

Definition getTables : M (ApiResponse string) :=
  let* r := db_all_names SMasterNames in
  match r with
  | None =>
      let* _ := error_callback "getTables" in
      ret (Build_ApiResponse 500%Z (Some false) None (Some []) None None)
  | Some names => ret (Build_ApiResponse 200%Z (Some true) None (Some names) None None)
  end.

Definition fieldExists (table field : string) : M (ApiResponse Row) :=
  let* r := db_all_info (STableInfo table) in
  match r with
  | None => let* _ := error_callback "fieldExists" in ret (resp 500 false)
  | Some table_fields =>
      ret (resp 200 (bool_decide (Exists (fun e => name e = field) table_fields)))
  end.

Definition renameField (table old_field new_field : string) : M (ApiResponse Row) :=
  let* result1 := fieldExists table old_field in
  if negb (succeeded result1)
  then ret (resp (if decide (code result1 = 200%Z) then 404 else 500) false)
  else
    let* result2 := fieldExists table new_field in
    if bool_decide (code result2 <> 200%Z) || succeeded result2
    then ret (resp (if decide (code result1 = 200%Z) then 409 else 500) false)
    else
      let* r := db_run (SRenameColumn table old_field new_field) in
      match r with
      | None => let* _ := error_callback "renameField" in ret (resp 500 false)
      | Some _ => ret (resp 200 true)
      end.

Definition renameTable (old_table new_table : string) : M (ApiResponse Row) :=
  let* result1 := tableExists old_table in
  if negb (succeeded result1)
  then ret (resp (if decide (code result1 = 200%Z) then 404 else 500) false)
  else
    let* result2 := tableExists new_table in
    if bool_decide (code result2 <> 200%Z) || succeeded result2
    then ret (resp (if decide (code result1 = 200%Z) then 409 else 500) false)
    else
      let* r := db_run (SRenameTable old_table new_table) in
      match r with
      | None => let* _ := error_callback "renameTable" in ret (resp 500 false)
      | Some _ => ret (resp 200 true)
      end.

(** [default_value == null] *)
Definition nullish (v : option Value) : bool :=
  match v with
  | None | Some VUndef | Some VNull => true
  | _ => false
  end.

Definition addField (table field type : string) (default_value : option Value)
  : M (ApiResponse Row) :=
  let* r := db_run (SAddColumn table field type) in
  let* result :=
    match r with
    | None => let* _ := error_callback "addField" in ret (resp 500 false)
    | Some _ => ret (resp 200 true)
    end in
  if nullish default_value || bool_decide (code result <> 200%Z) then ret result
  else
    let* r := db_run (SUpdateAll table field (default VNull default_value)) in
    match r with
    | None => let* _ := error_callback "addField" in ret (resp 500 false)
    | Some _ => ret (resp 200 true)
    end.

Definition deleteField (table field : string) : M (ApiResponse Row) :=
  let* r := db_run (SDropColumn table field) in
  match r with
  | None => let* _ := error_callback "deleteField" in ret (resp 500 false)
  | Some _ => ret (resp 200 true)
  end.

(** A promise settles once: the first [resolve] wins, later ones are ignored. *)
Definition settle {A} (resolved : option A) (r : A) : option A :=
  match resolved with
  | Some _ => resolved
  | None => Some r
  end.

(** The loops of [addFields].  A failing step calls [resolve(result)] and
    the loop goes on; the model runs the rest of the executor before the
    awaiting caller continues. *)
Fixpoint rename_fields (table : string) (fields : list TableColumn)
    (resolved : option (ApiResponse Row)) : M (option (ApiResponse Row)) :=
  match fields with
  | [] => ret resolved
  | field :: rest =>
      match truthy (old field) with
      | None => rename_fields table rest resolved
      | Some old_field =>
          let* result := renameField table old_field (name field) in
          rename_fields table rest
            (if decide (code result = 500%Z) then settle resolved result else resolved)
      end
  end.

Fixpoint add_missing (table : string) (missing_fields : list TableColumn)
    (resolved : option (ApiResponse Row)) : M (option (ApiResponse Row)) :=
  match missing_fields with
  | [] => ret resolved
  | field :: rest =>
      let* result := addField table (name field) (type field) (default_value field) in
      add_missing table rest
        (if decide (code result <> 200%Z) then settle resolved result else resolved)
  end.

Fixpoint delete_unused_fields (table : string) (unused_fields : list string)
    (resolved : option (ApiResponse Row)) : M (option (ApiResponse Row)) :=
  match unused_fields with
  | [] => ret resolved
  | field :: rest =>
      let* result := deleteField table field in
      delete_unused_fields table rest
        (if decide (code result <> 200%Z) then settle resolved result else resolved)
  end.

Definition addFields (table : string) (fields : list TableColumn) (delete_unused : bool)
  : M (ApiResponse Row) :=
  let* resolved := rename_fields table fields None in
  let* r := db_all_info (STableInfo table) in
  match r with
  | None =>
      let* _ := error_callback "addFields" in
      ret (default (resp 500 false) resolved)
  | Some table_fields =>
      let add_fields := name <$> fields in
      let db_fields := name <$> table_fields in
      let missing_fields := filter (fun e => name e ∉ db_fields) fields in
      let unused_fields := filter (fun e => e ∉ add_fields) db_fields in
      let* resolved :=
        (if bool_decide (length missing_fields <> 0)
         then add_missing table missing_fields resolved
         else ret resolved) in
      let* resolved :=
        (if delete_unused && bool_decide (length unused_fields <> 0)
         then delete_unused_fields table unused_fields resolved
         else ret resolved) in
      ret (default (resp 200 true) resolved)
  end.

Definition createTable (this : Database) (table : string) (fields : list TableColumn)
  : M (ApiResponse Row) :=
  let* result := tableExists table in
  if bool_decide (code result <> 200%Z) then ret (resp_code 500)
  else if succeeded result then addFields table fields (delete_unused this)
  else
    let fdefinitions := (fun field => (name field, type field)) <$> fields in
    let* r := db_run (SCreateTable table fdefinitions) in
    match r with
    | None => let* _ := error_callback "createTable" in ret (resp 500 false)
    | Some _ => ret (resp 200 true)
    end.

Definition deleteTable (table : string) : M (ApiResponse Row) :=
  let* result := tableExists table in
  if bool_decide (code result <> 200%Z) then ret (resp 500 false)
  else if negb (succeeded result) then ret (resp 404 false)
  else
    let* r := db_get (SDropTable table) in
    match r with
    | None => let* _ := error_callback "deleteTable" in ret (resp 500 false)
    | Some _ => ret (resp 200 true)
    end.

(** [fields.every((e, i) => table_fields[i].name == e.name)]: reading
    [name] past the end of [table_fields] raises, hence [None]. *)
Fixpoint every_match (fields table_fields : list TableColumn) : option bool :=
  match fields, table_fields with
  | [], _ => Some true
  | _ :: _, [] => None
  | e :: fields', f :: table_fields' =>
      if decide (name f = name e) then every_match fields' table_fields' else Some false
  end.

(** [findIndex] followed by [splice(index, 1)[0]]. *)
Fixpoint splice_first (n : string) (table_fields : list TableColumn)
  : option (TableColumn * list TableColumn) :=
  match table_fields with
  | [] => None
  | f :: rest =>
      if decide (name f = n) then Some (f, rest)
      else '(g, rest') ← splice_first n rest; Some (g, f :: rest')
  end.

(** The [map] over [fields] in [reorderFields]: the physical column of each
    declared one ([null] when there is none), and what is left of
    [table_fields]. *)
Fixpoint splice_fields (fields table_fields : list TableColumn)
  : list (option TableColumn) * list TableColumn :=
  match fields with
  | [] => ([], table_fields)
  | e :: rest =>
      match splice_first (name e) table_fields with
      | Some (f, table_fields') =>
          let '(picked, leftover) := splice_fields rest table_fields' in
          (Some f :: picked, leftover)
      | None =>
          let '(picked, leftover) := splice_fields rest table_fields in
          (None :: picked, leftover)
      end
  end.

Definition reorderFields (this : Database) (table : string) (fields : list TableColumn)
  : M (ApiResponse Row) :=
  let* r := db_all_info (STableInfo table) in
  match r with
  | None => let* _ := error_callback "reorderFields" in ret (resp 500 false)
  | Some table_fields =>
      match every_match fields table_fields with
      | None => pending
      | Some true => ret (resp 200 false)
      | Some false =>
          let* rand_id := random_id in
          let temp := "temp_" +:+ pretty rand_id in
          let '(picked, leftover) := splice_fields fields table_fields in
          let* _ := deleteTable temp in
          match mapM id (picked ++ (Some <$> leftover)) with
          | None =>
              (* [db_fields] holds a [null]: [createTable] raises inside its
                 executor as soon as it reads a field, after its call of
                 [tableExists]. *)
              let* result := tableExists temp in
              if bool_decide (code result <> 200%Z) then ret (resp_code 500) else pending
          | Some db_fields =>
              let* result := createTable this temp db_fields in
              if bool_decide (code result <> 200%Z) then ret result
              else
                let* r := db_run (SCopyInto temp (name <$> db_fields) table) in
                let* result :=
                  match r with
                  | None => let* _ := error_callback "reorderFields" in ret (resp_code 500)
                  | Some _ => ret (resp_code (R := Row) 200)
                  end in
                if bool_decide (code result <> 200%Z) then ret (resp (code result) false)
                else
                  let* result := deleteTable table in
                  if bool_decide (code result <> 200%Z) then ret (resp (code result) false)
                  else
                    let* result := renameTable temp table in
                    if bool_decide (code result <> 200%Z) then ret (resp (code result) false)
                    else ret (resp 200 true)
          end
      end
  end.

Definition addValues (table : string) (args : list Value) : M (ApiResponse Row) :=
  let* r := db_run (SInsert table args) in
  match r with
  | None => let* _ := error_callback "addValues" in ret (resp_code 500)
  | Some _ => ret (resp_changes 200 true 1)
  end.

Definition setValue (table field : string) (value : Value) (search_field : string)
    (search_value : Value) : M (ApiResponse Row) :=
  let* r := db_run (SUpdateWhere table field value search_field search_value) in
  match r with
  | None => let* _ := error_callback "setValue" in ret (resp_changes 500 false 0)
  | Some changes => ret (resp_changes 200 (bool_decide (0 < changes)) changes)
  end.

Definition valueExists (table field : string) (value : Value) (equality : option string)
  : M (ApiResponse Row) :=
  let* r := db_get (SProbe table field (operator_text equality) value) in
  match r with
  | None => let* _ := error_callback "valueExists" in ret (resp 500 false)
  | Some row => ret (resp 200 (match row with Some _ => true | None => false end))
  end.

Definition getRows (table field : string) (value : Value) (equality : option string)
    (limit : option Z) : M (ApiResponse Row) :=
  let whereClause :=
    if decide (equality = Some "*") then None
    else Some (field, operator_text equality, value) in
  let* r := db_all (SSelect table whereClause limit) in
  match r with
  | None =>
      let* _ := error_callback "getRows" in
      ret (Build_ApiResponse 500%Z None None None None None)
  | Some rows => ret (Build_ApiResponse 200%Z None None (Some rows) None None)
  end.

Definition getRow (table field : string) (value : Value) (equality : option string)
  : M (ApiResponse Row) :=
  let* result := getRows table field value equality (Some 1%Z) in
  ret (Build_ApiResponse (code result) None None None (rows result ≫= head) None).

Definition deleteRows (table field : string) (value : Value) (equality : option string)
    (limit : option Z) : M (ApiResponse Row) :=
  let* r := db_run (SDeleteWhere table field (operator_text equality) value limit) in
  match r with
  | None => let* _ := error_callback "deleteRows" in ret (resp_changes 500 false 0)
  | Some changes => ret (resp_changes 200 (bool_decide (0 < changes)) changes)
  end.

Definition deleteRow (table field : string) (value : Value) (equality : option string)
  : M (ApiResponse Row) :=
  deleteRows table field value equality (Some 1%Z).

Definition moveRows (from_table to_table field : string) (value : Value)
    (equality : option string) (limit : option Z) : M (ApiResponse Row) :=
  let* r := db_run (SInsertSelect to_table from_table field (operator_text equality) value limit) in
  let* result :=
    match r with
    | None => let* _ := error_callback "moveRows" in ret (resp_changes 500 false 0)
    | Some changes => ret (resp_changes 200 (bool_decide (0 < changes)) changes)
    end in
  if bool_decide (code result <> 200%Z) then ret result
  else deleteRows from_table field value equality limit.

(** ** Model factory ([_generateModels]) *)

Record ModelClass := {
  tableName : string;
  schema : TableSchema
}.

(** [schema.find(col => col.pkey)?.name] *)
Definition primaryKey (m : ModelClass) : option string :=
  name <$> List.find pkey (schema m).

Definition no_primary_key_message (action table : string) : string :=
  "Cannot " +:+ action +:+ ": No primary key (pkey: true) defined for table '"
  +:+ table +:+ "'.".

Definition no_primary_key {A} (action table : string) : M A :=
  throw (no_primary_key_message action table).

(** The property that keeps the value a column had at construction or at
    the last successful save. *)
Definition original (column : string) : string := "_original_" +:+ column.

(** The constructor's [schema.forEach((column, index) => ...)]. *)
Fixpoint assign_columns (columns : TableSchema) (index : nat) (args : list Value)
    (this : Row) : Row :=
  match columns with
  | [] => this
  | column :: rest =>
      let arg := default VUndef (args !! index) in
      assign_columns rest (S index) args
        (<[name column := arg]> (<[original (name column) := arg]> this))
  end.

(** [new BaseModel(...args)] and [create(...args)]: the constructor
    stores the database under [_db] and then assigns the columns, on the
    same object. *)
Definition create (m : ModelClass) (args : list Value) : Row :=
  assign_columns (schema m) 0 args {[ "_db" := VObject dbInstance ]}.

Definition fromObject (m : ModelClass) (obj : Row) : Row :=
  create m ((fun col => get obj (name col)) <$> schema m).

Definition toObject (m : ModelClass) (this : Row) (sensitive_too : bool) : Row :=
  fromEntries ((fun col => (name col, prop this (name col)))
               <$> filter (fun col => sensitive_too || negb (sensitive col)) (schema m)).

(** [update.forEach(col => this[`_original_${col.name}`] = this[col.name])] *)
Definition refresh (update : list TableColumn) (this : Row) : Row :=
  foldl (fun this col => <[original (name col) := prop this (name col)]> this) this update.

(** The [TypeError] of [this._db.method(...)] when [this._db] holds [v]
    and not the database. *)
Definition not_the_database (v : Value) (method : string) : string :=
  match v with
  | VUndef => "Cannot read properties of undefined (reading '" +:+ method +:+ "')"
  | VNull => "Cannot read properties of null (reading '" +:+ method +:+ "')"
  | _ => "this._db." +:+ method +:+ " is not a function"
  end.

(** [this._db.method(...)]: the call reaches the database as long as the
    instance holds it under [_db]. *)
Definition via_db {A} (this : Row) (method : string) (c : M A) : M A :=
  match prop this "_db" with
  | VObject dbInstance => c
  | v => throw (not_the_database v method)
  end.

(** [update.map(col => this._db.setValue(...))] awaited by [Promise.all]. *)
Fixpoint set_values (table : string) (update : list TableColumn) (this : Row)
    (primaryKeyColumn : string) (pkValue : Value) : M (list (ApiResponse Row)) :=
  match update with
  | [] => ret []
  | col :: rest =>
      let* res := via_db this "setValue"
                    (setValue table (name col) (prop this (name col)) primaryKeyColumn
                       pkValue) in
      let* others := set_values table rest this primaryKeyColumn pkValue in
      ret (res :: others)
  end.

Section Instances.

(** The runtime's conversion of a string to a number, where the result is
    an integer; it decides [!=] between a number and a string. *)
Variable ToNumber : string -> option Z.

(** [a == b]: two objects are equal when they are the same object; an
    object is compared with a string or a number through the text it
    converts to. *)
Definition loose_eq (a b : Value) : bool :=
  match a, b with
  | VUndef, VUndef | VUndef, VNull | VNull, VUndef | VNull, VNull => true
  | VInt x, VInt y => bool_decide (x = y)
  | VText x, VText y => bool_decide (x = y)
  | VInt x, VText y => bool_decide (ToNumber y = Some x)
  | VText x, VInt y => bool_decide (ToNumber x = Some y)
  | VObject x, VObject y => bool_decide (x = y)
  | VObject x, VText y => bool_decide (object_text x = y)
  | VText x, VObject y => bool_decide (x = object_text y)
  | VObject x, VInt y => bool_decide (ToNumber (object_text x) = Some y)
  | VInt x, VObject y => bool_decide (ToNumber (object_text y) = Some x)
  | _, _ => false
  end.

(** The columns [save] writes on an existing row. *)
Definition changed (m : ModelClass) (this : Row) : list TableColumn :=
  filter (fun col => loose_eq (prop this (name col)) (prop this (original (name col))) = false)
    (filter (fun col => pkey col = false) (schema m)).

(** [save()]: the response, and the instance as the call leaves it. *)
Definition save (m : ModelClass) (this : Row) : M (ApiResponse Row * Row) :=
  match truthy (primaryKey m) with
  | None => no_primary_key "save" (tableName m)
  | Some primaryKeyColumn =>
      let pkValue := prop this primaryKeyColumn in
      let update := changed m this in
      let* existsResult := via_db this "valueExists"
                             (valueExists (tableName m) primaryKeyColumn pkValue None) in
      if negb (succeeded existsResult)
      then
        let* result := via_db this "addValues"
                         (addValues (tableName m)
                            ((fun col => prop this (name col)) <$> schema m)) in
        ret (result, if succeeded result then refresh update this else this)
      else
        let* results := set_values (tableName m) update this primaryKeyColumn pkValue in
        let result := forallb succeeded results in
        ret (resp_changes (if result then 200 else 500) result (if result then 1 else 0),
             if result then refresh update this else this)
  end.

Definition delete_instance (m : ModelClass) (this : Row) : M (ApiResponse Row) :=
  match truthy (primaryKey m) with
  | None => no_primary_key "delete" (tableName m)
  | Some primaryKeyColumn =>
      via_db this "deleteRow"
        (deleteRow (tableName m) primaryKeyColumn (prop this primaryKeyColumn) None)
  end.

Definition move_instance (m : ModelClass) (this : Row) (to_model : ModelClass)
  : M (ApiResponse Row) :=
  match truthy (primaryKey m) with
  | None => no_primary_key "move" (tableName m)
  | Some primaryKeyColumn =>
      via_db this "moveRows"
        (moveRows (tableName m) (tableName to_model) primaryKeyColumn
           (prop this primaryKeyColumn) None None)
  end.

(** [convert(to_model)]: the new instance, or [null]. *)
Definition convert (m : ModelClass) (this : Row) (to_model : ModelClass) : M (option Row) :=
  match truthy (primaryKey m) with
  | None => no_primary_key "convert" (tableName m)
  | Some _ =>
      let data := toObject m this true in
      let newInstance := fromObject to_model data in
      let* saved := save to_model newInstance in
      let '(saveResult, newInstance) := saved in
      if negb (succeeded saveResult) then ret None
      else
        let* _ := delete_instance m this in
        ret (Some newInstance)
  end.

End Instances.

Definition find (m : ModelClass) (pkey_value : Value) : M (option Row) :=
  match truthy (primaryKey m) with
  | None => no_primary_key "find" (tableName m)
  | Some primaryKeyColumn =>
      let* result := getRow (tableName m) primaryKeyColumn pkey_value None in
      match row result with
      | Some r => ret (Some (fromObject m r))
      | None => ret None
      end
  end.

Definition delete_static (m : ModelClass) (pkey_value : Value) : M (ApiResponse Row) :=
  match truthy (primaryKey m) with
  | None => no_primary_key "find" (tableName m)
  | Some primaryKeyColumn => deleteRow (tableName m) primaryKeyColumn pkey_value None
  end.

Definition all (m : ModelClass) : M (list Row) :=
  let* result := getRows (tableName m) "null" VNull (Some "*") None in
  ret (fromObject m <$> default [] (rows result)).

Definition setValue_static (m : ModelClass) (field : string) (value pkeyValue : Value)
  : M (ApiResponse Row) :=
  match truthy (primaryKey m) with
  | None => no_primary_key "setValue" (tableName m)
  | Some primaryKeyColumn => setValue (tableName m) field value primaryKeyColumn pkeyValue
  end.

(** The actions of [columnsObject[column.name]]. *)
Definition column_setValue (m : ModelClass) (column : TableColumn) (pkeyValue value : Value)
  : M (ApiResponse Row) :=
  match truthy (primaryKey m) with
  | None => no_primary_key "setValue" (tableName m)
  | Some primaryKeyColumn =>
      setValue (tableName m) (name column) value primaryKeyColumn pkeyValue
  end.

Definition column_fetch (m : ModelClass) (column : TableColumn) (value : Value)
    (equality : option string) : M (list Row) :=
  let* result := getRows (tableName m) (name column) value equality None in
  ret (fromObject m <$> default [] (rows result)).

Definition column_move (m : ModelClass) (column : TableColumn) (to_model : ModelClass)
    (value : Value) (equality : option string) : M (ApiResponse Row) :=
  moveRows (tableName m) (tableName to_model) (name column) value equality None.

Definition column_updateValues (m : ModelClass) (column : TableColumn) (new_value : Value)
    (where_column : TableColumn) (where_value : Value) : M (ApiResponse Row) :=
  setValue (tableName m) (name column) new_value (name where_column) where_value.

(** ** The methods as they are called *)

(** What a call hands to its caller at once: a promise, or an exception
    raised in the caller before there is a promise. *)
Inductive Call (A : Type) :=
| Promise (settles : M A)
| Raised (message : string).

Arguments Promise {A}.
Arguments Raised {A}.

(** A method declared [async]: whatever happens in its body, the call
    hands back a promise; an exception raised in the body rejects it. *)
Definition async {A} (body : M A) : Call A := Promise body.

(** The operations that identify a row by its key are all declared
    [async]: the static ones, the per-column [setValue], and the methods of
    an instance. *)
Definition Model_find (m : ModelClass) (pkey_value : Value) : Call (option Row) :=
  async (find m pkey_value).

Definition Model_delete (m : ModelClass) (pkey_value : Value) : Call (ApiResponse Row) :=
  async (delete_static m pkey_value).

Definition Model_setValue (m : ModelClass) (field : string) (value pkeyValue : Value)
  : Call (ApiResponse Row) :=
  async (setValue_static m field value pkeyValue).

Definition columns_setValue (m : ModelClass) (column : TableColumn) (pkeyValue value : Value)
  : Call (ApiResponse Row) :=
  async (column_setValue m column pkeyValue value).

Definition instance_save (ToNumber : string -> option Z) (m : ModelClass) (this : Row)
  : Call (ApiResponse Row * Row) :=
  async (save ToNumber m this).

Definition instance_delete (m : ModelClass) (this : Row) : Call (ApiResponse Row) :=
  async (delete_instance m this).

Definition instance_move (m : ModelClass) (this : Row) (to_model : ModelClass)
  : Call (ApiResponse Row) :=
  async (move_instance m this to_model).

Definition instance_convert (ToNumber : string -> option Z) (m : ModelClass) (this : Row)
    (to_model : ModelClass) : Call (option Row) :=
  async (convert ToNumber m this to_model).

(** ** File system and handle *)

(** [try { await fsp.mkdir(dir, { recursive: true }); } catch (e) {}] *)
Definition fs_mkdir (dir : Dir) : M unit :=
  fun s => (Ret tt, step s (image s) (files s) (EvMkdir dir)).

(** [fsp.unlink(file)]: [false] when it raises; removing a file that does
    not exist raises. *)
Definition fs_unlink (file : string) : M bool :=
  fun s =>
    if next_fault s || bool_decide (files s !! file = None)
    then (Ret false, step s (image s) (files s) (EvUnlink file false))
    else (Ret true, step s (image s) (delete file (files s)) (EvUnlink file true)).

(** [fsp.copyFile(src, dst)]: [false] when it raises.  The storage file
    [this.filename] holds the image the engine works on. *)
Definition fs_copyFile (this : Database) (src dst : string) : M bool :=
  fun s =>
    let content := if decide (src = filename this) then Some (image s) else files s !! src in
    match next_fault s, content with
    | false, Some img =>
        (Ret true, step s (image s) (<[dst := img]> (files s)) (EvCopyFile src dst true))
    | _, _ => (Ret false, step s (image s) (files s) (EvCopyFile src dst false))
    end.

(** [new sqlite3.Database(filename, OPEN_READWRITE | OPEN_CREATE, callback)] *)
Definition open_handle (file : string) : M bool :=
  fun s =>
    let ok := negb (next_fault s) in
    (Ret ok, step s (image s) (files s) (EvOpenHandle file ok)).

(** [this.db.close(callback)] *)
Definition close_handle : M bool :=
  fun s =>
    let ok := negb (next_fault s) in
    (Ret ok, step s (image s) (files s) (EvCloseHandle ok)).

(** ** Façade: lifecycle and maintenance *)

(** The fields of [Database] that change after construction, and the
    environment behind [this.db]. *)
Record State := {
  ready : bool;
  busy : bool;
  backup_timer : option Z;
  vacuum_timer : option Z;
  env : Sys
}.

Definition F (A : Type) : Type := Prog State A.

Definition lift {A} (c : M A) : F A :=
  fun st =>
    let '(o, s) := c (env st) in
    (o, {| ready := ready st; busy := busy st; backup_timer := backup_timer st;
           vacuum_timer := vacuum_timer st; env := s |}).

Definition set_ready (b : bool) : F unit :=
  fun st => (Ret tt, {| ready := b; busy := busy st; backup_timer := backup_timer st;
                        vacuum_timer := vacuum_timer st; env := env st |}).

Definition set_busy (b : bool) : F unit :=
  fun st => (Ret tt, {| ready := ready st; busy := b; backup_timer := backup_timer st;
                        vacuum_timer := vacuum_timer st; env := env st |}).

(** [setInterval] and [clearInterval] on the two timers: the interval of a
    running timer, [None] otherwise. *)
Definition set_backup_timer (t : option Z) : F unit :=
  fun st => (Ret tt, {| ready := ready st; busy := busy st; backup_timer := t;
                        vacuum_timer := vacuum_timer st; env := env st |}).

Definition set_vacuum_timer (t : option Z) : F unit :=
  fun st => (Ret tt, {| ready := ready st; busy := busy st; backup_timer := backup_timer st;
                        vacuum_timer := t; env := env st |}).

Definition is_busy : F bool := fun st => (Ret (busy st), st).

(** The body of an engine callback: an exception there settles nothing. *)
Definition in_callback {S A} (c : Prog S A) : Prog S A :=
  fun s =>
    match c s with
    | (Throw _, s') => (Pending, s')
    | r => r
    end.

(** [this.tables[table]] is truthy: for a declared table, and for the
    names every object inherits. *)
Definition declared (this : Database) (table : string) : bool :=
  bool_decide (table ∈ (tables this).*1 ∨ table ∈ inherited_properties).

(** [for (const table in this.tables)] *)
Fixpoint migrate_tables (this : Database) (ts : DatabaseTables) : M unit :=
  match ts with
  | [] => ret tt
  | (table, fields) :: rest =>
      let* _ := createTable this table fields in
      let* _ := (if reorder this
                 then let* _ := reorderFields this table fields in ret tt
                 else ret tt) in
      migrate_tables this rest
  end.

(** [for (const table of (await this.getTables()).rows)] *)
Fixpoint prune_tables (this : Database) (listed : list string) : M unit :=
  match listed with
  | [] => ret tt
  | table :: rest =>
      let* _ := (if delete_unused this && negb (declared this table)
                 then let* _ := deleteTable table in ret tt
                 else ret tt) in
      prune_tables this rest
  end.

Definition migrate (this : Database) : M unit :=
  let* _ := migrate_tables this (tables this) in
  let* listed := getTables in
  prune_tables this (default [] (rows listed)).

Definition open (this : Database) : F (ApiResponse Row) :=
  let* _ := lift (fs_mkdir (DirNamed (directory this))) in
  let* opened := lift (open_handle (filename this)) in
  if negb opened
  then let* _ := lift (error_callback "open") in ret (resp 500 false)
  else
    let* _ := in_callback (lift (migrate this)) in
    let* _ := set_ready true in
    let* _ := (if backup_enabled this
               then set_backup_timer (Some (backup_interval this)) else ret tt) in
    let* _ := (if vacuum_enabled this
               then set_vacuum_timer (Some (vacuum_interval this)) else ret tt) in
    ret (resp 200 true).

Definition backup (this : Database) (filename_arg : option string) : F (ApiResponse Row) :=
  let* b := is_busy in
  if b then ret (resp 429 false)
  else
    let file := default (backup_filename this) (truthy filename_arg) in
    let* _ := lift (fs_mkdir (DirOf file)) in
    let* removed := lift (fs_unlink file) in
    if negb removed then ret (resp (-4082) false)
    else
      let* _ := set_busy true in
      let* copied := lift (fs_copyFile this (filename this) file) in
      if negb copied then ret (resp 500 false)
      else
        let* _ := set_busy false in
        ret (resp 200 true).

Definition vacuum : F (ApiResponse Row) :=
  let* b := is_busy in
  if b then ret (resp 429 false)
  else
    let* _ := set_busy true in
    let* r := lift (db_run SVacuum) in
    let* result :=
      match r with
      | None => let* _ := lift (error_callback "vacuum") in ret (resp 500 false)
      | Some _ => ret (resp 200 true)
      end in
    let* _ := set_busy false in
    ret result.

Definition close (this : Database) : F (ApiResponse Row) :=
  let* _ := set_backup_timer None in
  let* _ := set_vacuum_timer None in
  let* _ := backup this (Some (backup_filename this)) in
  let* closed := lift close_handle in
  if negb closed
  then let* _ := lift (error_callback "close") in ret (resp 500 false)
  else ret (resp 200 true).

(* ================================================================= *)
(** * Vocabulary of the properties *)

(** ** Runs on concrete inputs

    Equality of answers and environments is decidable, so that a run on a
    concrete input is settled by evaluation. *)

#[global] Instance TableColumn_eq_dec : EqDecision TableColumn.
Proof. solve_decision. Defined.
#[global] Instance ApiResponse_eq_dec {R} `{EqDecision R} : EqDecision (ApiResponse R).
Proof. solve_decision. Defined.
#[global] Instance Table_eq_dec : EqDecision Table.
Proof. solve_decision. Defined.
#[global] Instance Stmt_eq_dec : EqDecision Stmt.
Proof. solve_decision. Defined.
#[global] Instance Dir_eq_dec : EqDecision Dir.
Proof. solve_decision. Defined.
#[global] Instance Event_eq_dec : EqDecision Event.
Proof. solve_decision. Defined.
#[global] Instance Sys_eq_dec : EqDecision Sys.
Proof. solve_decision. Defined.
#[global] Instance Outcome_eq_dec {A} `{EqDecision A} : EqDecision (Outcome A).
Proof. solve_decision. Defined.
#[global] Instance State_eq_dec : EqDecision State.
Proof. solve_decision. Defined.

Ltac by_running := apply (bool_decide_unpack _); vm_compute; exact I.

(** ** Outcomes *)

(** The promise settles with a value, whatever the environment does. *)
Definition returns {S A} (c : Prog S A) : Prop :=
  forall s, exists a s', c s = (Ret a, s').

(** The call hands back a promise, and the promise rejects with [message]
    without touching the environment. *)
Definition rejects_untouched {A} (c : Call A) (message : string) : Prop :=
  exists promise, c = Promise promise /\ forall s, promise s = (Throw message, s).

(** The promise never rejects. *)
Definition never_throws {S A} (c : Prog S A) : Prop :=
  forall s m s', c s <> (Throw m, s').

(** The handle opens: the environment does not fail the call that opens
    it, which is the second external call of [open], after [mkdir]. *)
Definition handle_opens (st : State) : bool := negb (hd false (tl (faults (env st)))).

(** The oracle injects no failure from here on. *)
Definition no_faults (s : Sys) : bool := forallb negb (faults s).

(** The statement of a logged call, when it is one that modifies storage. *)
Definition issued (e : Event) : option Stmt :=
  match e with
  | EvExec st _ => if is_write st then Some st else None
  | _ => None
  end.

(** The modifying statements among the events [evs] (newest first), in the
    order they were handed to the engine. *)
Definition writes (evs : list Event) : list Stmt := reverse (omap issued evs).

(** [c] answers [a] with [Q a], and all it does to the environment is
    reading: storage, files and random source are as before, and no logged
    statement is a modifying one. *)
Definition reads_only {A} (c : M A) (s : Sys) (Q : A -> Prop) : Prop :=
  exists a s',
    c s = (Ret a, s') /\ Q a
    /\ image s' = image s /\ files s' = files s /\ rands s' = rands s
    /\ no_faults s' = true
    /\ exists evs, log s' = evs ++ log s /\ writes evs = [].

(** ** Rows *)

(** The rows of [table] whose [field] equals [v]. *)
Definition rows_where (img : Image) (table field : string) (v : Value) : list (list Value) :=
  match lookup_table table img with
  | Some tb =>
      match index_of field (column_names tb) with
      | Some i =>
          List.filter (fun r => sql_holds (fun c => bool_decide (c = Eq)) (cell r i) v)
            (records tb)
      | None => []
      end
  | None => []
  end.

(** The existence probe of [save] is executed by the engine and finds a row. *)
Definition probe_finds (s : Sys) (table field : string) (v : Value) : bool :=
  negb (next_fault s) && bool_decide (rows_where (image s) table field v <> []).

(** ** Instances *)

(** No column is named like the snapshot property of a column. *)
Definition well_named (sch : TableSchema) : Prop :=
  Forall (fun c => Forall (fun c' => name c <> original (name c')) sch) sch.

#[global] Instance well_named_dec sch : Decision (well_named sch).
Proof. unfold well_named. apply _. Defined.

(** The column value and its snapshot are the same value. *)
Definition in_sync (this : Row) (n : string) : Prop :=
  prop this n = prop this (original n).

(** The names an instance does not hold as a plain property of a column:
    [_db], where the constructor keeps the database; [__proto__], which an
    assignment does not define; and the methods of the class, which a
    column of the same name would hide. *)
Definition reserved : list string :=
  [ "_db"; "__proto__"; "save"; "delete"; "move"; "convert"; "toObject" ].

(** No column is named like one of them. *)
Definition plain (sch : TableSchema) : Prop :=
  Forall (fun c => name c ∉ reserved) sch.

#[global] Instance plain_dec sch : Decision (plain sch).
Proof. unfold plain. apply _. Defined.

(** An instance of the model, as the constructor builds it and assignments
    to its columns leave it: it holds the database, and a value and a
    snapshot of its own for every column. *)
Definition instance_of (m : ModelClass) (this : Row) : Prop :=
  this !! "_db" = Some (VObject dbInstance)
  /\ Forall (fun col => is_Some (this !! name col)
                        /\ is_Some (this !! original (name col))) (schema m).

#[global] Instance instance_of_dec m this : Decision (instance_of m this).
Proof. unfold instance_of. apply _. Defined.

(** ** Conformant storage *)

(** What [PRAGMA table_info] answers. *)
Definition table_info (table : string) (img : Image) : list TableColumn :=
  match lookup_table table img with
  | Some tb => info_row <$> columns tb
  | None => []
  end.

(** A physical table that needs no change to match its declaration: it has
    every declared column; when dropping is on, no other column; when
    reordering is on, the declared columns in declared order at the front. *)
Definition table_conformant (this : Database) (fields : TableSchema) (tb : Table) : bool :=
  bool_decide (Forall (fun f => name f ∈ column_names tb) fields)
  && (negb (delete_unused this)
      || bool_decide (Forall (fun n => n ∈ name <$> fields) (column_names tb)))
  && (negb (reorder this)
      || bool_decide ((name <$> fields) `prefix_of` column_names tb)).

(** Storage already migrated to the schema of [this]: every declared table
    exists and conforms, and, when dropping is on, every table is declared. *)
Definition conformant (this : Database) (img : Image) : bool :=
  forallb (fun d => match lookup_table d.1 img with
                    | Some tb => table_conformant this d.2 tb
                    | None => false
                    end) (tables this)
  && (negb (delete_unused this) || forallb (declared this) img.*1).

(** The table [CREATE TABLE] makes for a declaration. *)
Definition created_table (fields : TableSchema) : Table :=
  {| columns := (fun field => (name field, type field)) <$> fields; records := [] |}.

(** The storage made by creating the declared tables in order. *)
Definition created (ts : DatabaseTables) : Image :=
  (fun d => (d.1, created_table d.2)) <$> ts.

(** Every declared table has columns, and no name is declared twice. *)
Definition well_declared (ts : DatabaseTables) : Prop :=
  NoDup ts.*1 /\ Forall (fun d => d.2 <> [] /\ NoDup (name <$> d.2)) ts.

(* ================================================================= *)
(** * Running examples *)

(** ** The schema of [config.DATABASE_TABLES] *)

Definition column (n ty : string) (pk : bool) : TableColumn :=
  {| old := None; name := n; type := ty; pkey := pk; sensitive := false;
     default_value := None |}.

Definition items_schema : TableSchema :=
  [ column "id" TEXT true; column "steamd_id" TEXT false;
    column "download_url" TEXT false; column "size" INTEGER false ].

Definition items : ModelClass := {| tableName := "items"; schema := items_schema |}.

(** The database as the server constructs it. *)
Definition demo_db : Database :=
  {| filename := "../database/database.db"; directory := "../database";
     delete_unused := true; reorder := true; tables := [("items", items_schema)];
     backup_filename := "../database/database.db.bak";
     backup_interval := 3600000; backup_enabled := true;
     vacuum_interval := 604800000; vacuum_enabled := false |}.

(** The same without reordering and pruning, and with both timers enabled. *)
Definition plain_db : Database :=
  {| filename := filename demo_db; directory := directory demo_db;
     delete_unused := false; reorder := false; tables := tables demo_db;
     backup_filename := backup_filename demo_db;
     backup_interval := backup_interval demo_db; backup_enabled := true;
     vacuum_interval := vacuum_interval demo_db; vacuum_enabled := true |}.

Definition sys_of (img : Image) (fs : gmap string Image) (oracle : list bool) : Sys :=
  {| image := img; files := fs; faults := oracle; rands := []; log := [] |}.

(** The mutable fields as the constructor leaves them. *)
Definition constructed (s : Sys) : State :=
  {| ready := false; busy := false; backup_timer := None; vacuum_timer := None; env := s |}.

Definition items_table (rs : list (list Value)) : Table :=
  {| columns := [("id", TEXT); ("steamd_id", TEXT); ("download_url", TEXT); ("size", INTEGER)];
     records := rs |}.

Definition item_a : list Value := [VText "a"; VText "1"; VText "http://x"; VInt 10].

(** ** Maintenance *)

(** A database that was never backed up. *)
Definition first_backup : State :=
  constructed (sys_of [("items", items_table [item_a])] ∅ []).

(** A stale backup exists; the third external call, [copyFile], fails. *)
Definition failing_copy : State :=
  constructed (sys_of [("items", items_table [])]
                 {[ "../database/database.db.bak" := [] ]} [false; false; true]).

(** ** Opening *)

(** Empty storage on which the fourth external call, [CREATE TABLE], fails. *)
Definition create_fails : State :=
  constructed (sys_of [] ∅ [false; false; false; true]).

(** The items schema after a column was renamed from [link]. *)
Definition renamed_schema : TableSchema :=
  [ column "id" TEXT true; column "steamd_id" TEXT false;
    {| old := Some "link"; name := "download_url"; type := TEXT; pkey := false;
       sensitive := false; default_value := None |};
    column "size" INTEGER false ].

Definition renamed_db : Database :=
  {| filename := filename demo_db; directory := directory demo_db;
     delete_unused := true; reorder := true; tables := [("items", renamed_schema)];
     backup_filename := backup_filename demo_db;
     backup_interval := backup_interval demo_db; backup_enabled := true;
     vacuum_interval := vacuum_interval demo_db; vacuum_enabled := false |}.

(** Storage written under an older schema: columns in another order, the
    old column name, a column and a table that are no longer declared. *)
Definition legacy : Image :=
  [ ("items", {| columns := [("size", INTEGER); ("junk", TEXT); ("link", TEXT); ("id", TEXT)];
                 records := [[VInt 10; VText "j"; VText "http://x"; VText "a"]] |});
    ("stale", {| columns := [("k", TEXT)]; records := [] |}) ].

Definition legacy_state : State :=
  constructed {| image := legacy; files := ∅; faults := []; rands := [42%N]; log := [] |}.

(** The state the first [open] leaves. *)
Definition migrated : State := (open renamed_db legacy_state).2.

(** ** Models *)

(** A table declared without a primary key. *)
Definition notes_schema : TableSchema :=
  [ column "body" TEXT false; column "stamp" INTEGER false ].

Definition notes : ModelClass := {| tableName := "notes"; schema := notes_schema |}.

(** A second table, with a column that declares a default value. *)
Definition archive_schema : TableSchema :=
  [ column "id" TEXT true; column "size" INTEGER false;
    {| old := None; name := "note"; type := TEXT; pkey := false; sensitive := false;
       default_value := Some (VText "n/a") |} ].

Definition archive : ModelClass := {| tableName := "archive"; schema := archive_schema |}.

(** Storage holding item "a" and an empty archive. *)
Definition two_tables : Image :=
  [ ("items", items_table [item_a]);
    ("archive", {| columns := [("id", TEXT); ("size", INTEGER); ("note", TEXT)];
                   records := [] |}) ].

(** Storage in which the archive already holds a row under the key of
    item "a". *)
Definition archived : Image :=
  [ ("items", items_table [item_a]);
    ("archive", {| columns := [("id", TEXT); ("size", INTEGER); ("note", TEXT)];
                   records := [[VText "a"; VInt 99; VText "old"]] |}) ].

(** Item "a" as loaded, with its download URL changed afterwards. *)
Definition edited_item : Row :=
  <["download_url" := VText "http://y"]> (create items item_a).

(** A table with a column flagged sensitive. *)
Definition token_column : TableColumn :=
  {| old := None; name := "token"; type := TEXT; pkey := false; sensitive := true;
     default_value := None |}.

Definition accounts_schema : TableSchema := [ column "id" TEXT true; token_column ].

Definition accounts : ModelClass := {| tableName := "accounts"; schema := accounts_schema |}.

(** A table whose sensitive column is named like a property that every
    object inherits. *)
Definition hidden_column : TableColumn :=
  {| old := None; name := "toString"; type := TEXT; pkey := false; sensitive := true;
     default_value := None |}.

Definition secrets_schema : TableSchema := [ column "id" TEXT true; hidden_column ].

Definition secrets : ModelClass := {| tableName := "secrets"; schema := secrets_schema |}.

(** A table with a column named like the property in which an instance
    keeps its database. *)
Definition vault_schema : TableSchema := [ column "id" TEXT true; column "_db" TEXT false ].

Definition vault : ModelClass := {| tableName := "vault"; schema := vault_schema |}.

Definition empty_vault : Image :=
  [ ("vault", {| columns := [("id", TEXT); ("_db", TEXT)]; records := [] |}) ].

(** ** Stored rows *)

(** The value is NULL or of the storage class its column declares; the
    engine stores such a value as it was bound. *)
Definition fits (ty : string) (v : Value) : bool :=
  match v with
  | VObject _ => false
  | _ =>
      match sql_value v with
      | VInt _ => bool_decide (ty = INTEGER)
      | VText _ => bool_decide (ty = TEXT)
      | _ => true
      end
  end.

(** The value is of the storage class of column [field] of the table. *)
Definition fits_column (tb : Table) (field : string) (v : Value) : bool :=
  forallb (fun c => negb (bool_decide (c.1 = field)) || fits c.2 v) (columns tb).

(** The instance holds, for every declared column, a value its column can
    store as bound. *)
Definition storable (sch : TableSchema) (this : Row) : bool :=
  forallb (fun col => fits (type col) (prop this (name col))) sch.

(** Distinct column names, and one value per column in every row. *)
Definition well_formed (tb : Table) : Prop :=
  NoDup (column_names tb)
  /\ Forall (fun r => length r = length (columns tb)) (records tb).

(** [ALTER TABLE ... ADD COLUMN] *)
Definition is_add_column (st : Stmt) : bool :=
  match st with
  | SAddColumn _ _ _ => true
  | _ => false
  end.

(** ** Tables after migration *)

(** A table extended by the declared columns it lacks, in declared order,
    each row with the default values of the new columns. *)
Definition extended (fields : TableSchema) (tb : Table) : Table :=
  let missing := filter (fun e => name e ∉ column_names tb) fields in
  {| columns := columns tb ++ ((fun f => (name f, type f)) <$> missing);
     records := (fun r => r ++ ((fun f => sql_value (default VNull (default_value f)))
                                <$> missing)) <$> records tb |}.

(** ** The server's [prepareItem]

    The caller of the model of table [items].  The server's
    [error_callback] ends the process; the methods below are followed on
    runs where the engine answers every statement, so that it is never
    invoked. *)

(** [config.MAX_FILE_SIZE] *)
Definition MAX_FILE_SIZE : Z := 1000 * 1024 * 1024.

(** A number inside a template string. *)
Definition number_text (n : option Z) : string :=
  match n with
  | Some z => pretty z
  | None => "undefined"
  end.

(** What the world outside the database does during one call: the error
    [SteamUtils.downloadItems] rejects with, if it does; the size of
    [workshop/<steamId>.zip] once it has settled, [None] when there is no
    such file; and the answer of [Transporter.uploadZipArchive]. *)
Record Outside := {
  download_error : option string;
  archive_after : option Z;
  upload_answer : option string
}.

Inductive Action :=
| ADownload (steamId : string)
| AUpload (size : Z)
| AUnlink.

(** [config.BUSY], the database behind [db], the archive in [workshop/]
    (its size, when the file exists) and what was done outside the
    database, newest first. *)
Record Server := {
  BUSY : bool;
  storage : Sys;
  zip_file : option Z;
  actions : list Action
}.

Definition set_BUSY (b : bool) : Prog Server unit :=
  fun sv => (Ret tt, {| BUSY := b; storage := storage sv; zip_file := zip_file sv;
                        actions := actions sv |}).

Definition on_storage {A} (c : M A) : Prog Server A :=
  fun sv =>
    let '(o, s) := c (storage sv) in
    (o, {| BUSY := BUSY sv; storage := s; zip_file := zip_file sv; actions := actions sv |}).

(** [SteamUtils.downloadItems(steamId, 'workshop', { do_zip: true, ... })] *)
Definition downloadItems (out : Outside) (steamId : string) : Prog Server unit :=
  fun sv =>
    (match download_error out with
     | Some message => Throw message
     | None => Ret tt
     end,
     {| BUSY := BUSY sv; storage := storage sv; zip_file := archive_after out;
        actions := ADownload steamId :: actions sv |}).

(** [fs.existsSync] and [fs.statSync(...).size] on the archive. *)
Definition existsSync : Prog Server bool :=
  fun sv => (Ret (match zip_file sv with Some _ => true | None => false end), sv).

Definition statSync_size : Prog Server Z :=
  fun sv =>
    match zip_file sv with
    | Some size => (Ret size, sv)
    | None => (Throw "ENOENT", sv)
    end.

(** [Transporter.uploadZipArchive]: the URL, or [null]; it never rejects. *)
Definition uploadZipArchive (out : Outside) (size : Z) : Prog Server (option string) :=
  fun sv => (Ret (upload_answer out),
             {| BUSY := BUSY sv; storage := storage sv; zip_file := zip_file sv;
                actions := AUpload size :: actions sv |}).

(** [fs.unlinkSync] on the archive: it raises when there is no file. *)
Definition unlinkSync : Prog Server unit :=
  fun sv =>
    match zip_file sv with
    | Some _ => (Ret tt, {| BUSY := BUSY sv; storage := storage sv; zip_file := None;
                           actions := AUnlink :: actions sv |})
    | None => (Throw "ENOENT", sv)
    end.

(** [try { ... } catch (err) { ... }] *)
Definition try_catch {S A} (c : Prog S A) (handler : string -> Prog S A) : Prog S A :=
  fun s =>
    match c s with
    | (Throw message, s') => handler message s'
    | r => r
    end.

Definition prepareItem (ToNumber : string -> option Z) (out : Outside) (steamId : string)
    (time_updated : option Z) (force : bool) : Prog Server bool :=
  try_catch
    (let* _ := set_BUSY true in
     let fid := steamId +:+ "_" +:+ number_text time_updated in
     let* _ := (if force
                then let* _ := on_storage (delete_static items (VText fid)) in ret tt
                else ret tt) in
     let* found := on_storage (find items (VText fid)) in
     match found with
     | Some _ => let* _ := set_BUSY false in ret true
     | None =>
         let* _ := downloadItems out steamId in
         let* present := existsSync in
         if negb present then throw "No zip file found when uploading."
         else
           let* fileSize := statSync_size in
           if bool_decide (MAX_FILE_SIZE <= fileSize)%Z
           then throw "Workshop item too big for upload."
           else
             let* url := uploadZipArchive out fileSize in
             let* _ := unlinkSync in
             match truthy url with
             | None => let* _ := set_BUSY false in ret false
             | Some url =>
                 let* _ := on_storage
                             (save ToNumber items
                                (create items [VText fid; VText steamId; VText url;
                                               VInt fileSize])) in
                 let* _ := set_BUSY false in
                 ret true
             end
     end)
    (fun _ =>
       let* _ := try_catch unlinkSync (fun _ => ret tt) in
       let* _ := set_BUSY false in
       ret false).

(** ** The upload body ([Transporter.uploadZipArchive])

    Buffers are strings of bytes; [TextEncoder] leaves a string of bytes
    as it is. *)

Definition CRLF : string :=
  String (Ascii.ascii_of_nat 13) (String (Ascii.ascii_of_nat 10) "").

Definition quoted (s : string) : string :=
  String (Ascii.ascii_of_nat 34) (s +:+ String (Ascii.ascii_of_nat 34) "").

(** [`----SteamWorkshopBoundaryBoundary${Date.now()}`] *)
Definition boundary (now : Z) : string := "----SteamWorkshopBoundaryBoundary" +:+ pretty now.

Definition field_header (now : Z) (field : string) : string :=
  "--" +:+ boundary now +:+ CRLF
  +:+ "Content-Disposition: form-data; name=" +:+ quoted field +:+ CRLF +:+ CRLF.

Definition reqtypePartHeader (now : Z) : string := field_header now "reqtype".
Definition reqtypePartValue : string := "fileupload" +:+ CRLF.
Definition timePartHeader (now : Z) : string := field_header now "time".
Definition timePartValue : string := "72h" +:+ CRLF.

Definition filePartHeader (now : Z) (filename : string) : string :=
  "--" +:+ boundary now +:+ CRLF
  +:+ "Content-Disposition: form-data; name=" +:+ quoted "fileToUpload"
  +:+ "; filename=" +:+ quoted filename +:+ CRLF
  +:+ "Content-Type: application/octet-stream" +:+ CRLF +:+ CRLF.

Definition filePartFooter : string := CRLF.
Definition finalBoundary (now : Z) : string := "--" +:+ boundary now +:+ "--" +:+ CRLF.

(** [for await (const chunk of fileStream)]: the buffers yielded and the
    totals handed to [onProgress], from [uploadedBytes] on. *)
Fixpoint forward_chunks (chunks : list string) (uploadedBytes : nat)
  : list string * list nat :=
  match chunks with
  | [] => ([], [])
  | chunk :: rest =>
      let uploadedBytes := uploadedBytes + String.length chunk in
      let '(yielded, reported) := forward_chunks rest uploadedBytes in
      (chunk :: yielded, uploadedBytes :: reported)
  end.

(** What the generator yields for a file stream that delivers [chunks],
    and what [onProgress] is called with, when it is given. *)
Definition createMultipartBodyGenerator (now : Z) (filename : string) (chunks : list string)
    (onProgress : bool) : list string * list nat :=
  let '(yielded, reported) := forward_chunks chunks 0 in
  ([ reqtypePartHeader now; reqtypePartValue; timePartHeader now; timePartValue;
     filePartHeader now filename ]
   ++ yielded ++ [ filePartFooter; finalBoundary now ],
   if onProgress then reported else []).

(** The bytes of a list of buffers. *)
Definition bytes_of (buffers : list string) : string := foldr String.append "" buffers.

(** ** Further examples *)

Definition item_b : list Value := [VText "b"; VText "2"; VText "http://z"; VInt 5].

(** Two items, and an empty table of the same shape to move them to. *)
Definition with_trash : Image :=
  [ ("items", items_table [item_a; item_b]); ("trash", items_table []) ].

(** The declared order of two of the columns [legacy] stores. *)
Definition key_first : TableSchema := [ column "id" TEXT true; column "size" INTEGER false ].

(** A column added with a default value. *)
Definition rating_column : TableColumn :=
  {| old := None; name := "rating"; type := INTEGER; pkey := false; sensitive := false;
     default_value := Some (VInt 0) |}.

(** Conforming storage with two tables that are not declared, one of them
    named like a property every object inherits. *)
Definition with_strays : Image :=
  [ ("items", items_table [item_a]);
    ("stale", {| columns := [("k", TEXT)]; records := [] |});
    ("toString", {| columns := [("k", TEXT)]; records := [] |}) ].

(** The server at rest, with an empty table of items. *)
Definition idle_server : Server :=
  {| BUSY := false; storage := sys_of [("items", items_table [])] ∅ [];
     zip_file := None; actions := [] |}.

(** A download that leaves an archive of 2048 bytes, which is uploaded. *)
Definition fetched : Outside :=
  {| download_error := None; archive_after := Some 2048%Z;
     upload_answer := Some "https://litter.catbox.moe/abc.zip" |}.

(* ================================================================= *)
(** * Properties *)

(** ** Maintenance scheduler *)

Lemma bind_unfold {S A B} (c : Prog S A) (k : A -> Prog S B) s :
  bind c k s = match c s with
               | (Ret a, s') => k a s'
               | (Throw m, s') => (Throw m, s')
               | (Pending, s') => (Pending, s')
               end.
Proof. reflexivity. Qed.

(** C5.  While the busy signal is set, [backup] answers [{ code: 429,
    status: false }] and changes nothing: the state it returns is the state
    it was given, so no directory is created, no file is removed or copied,
    nothing is logged, and the signal stays set. *)
Theorem backup_while_busy (this : Database) (filename_arg : option string) (st : State) :
  busy st = true ->
  backup this filename_arg st = (Ret (resp 429 false), st).
Proof.
  intros Hbusy. unfold backup. rewrite bind_unfold. unfold is_busy.
  rewrite Hbusy. reflexivity.
Qed.

Lemma backup_while_busy_witness :
  let st := {| ready := true; busy := true; backup_timer := Some 3600000%Z;
               vacuum_timer := None; env := sys_of [] ∅ [] |} in
  busy st = true /\ backup demo_db None st = (Ret (resp 429 false), st).
Proof.
  split; [reflexivity|]. apply backup_while_busy. reflexivity.
Defined.

(** The three ways a [backup] that passes the busy check ends: the stale
    file could not be removed, the copy failed, or the snapshot was taken. *)
Lemma backup_cases (this : Database) (filename_arg : option string) (st : State) :
  busy st = false ->
  let file := default (backup_filename this) (truthy filename_arg) in
  exists r st',
    backup this filename_arg st = (Ret r, st')
    /\ ((r = resp (-4082) false /\ busy st' = false /\ files (env st') = files (env st))
        \/ (r = resp 500 false /\ busy st' = true)
        \/ (r = resp 200 true /\ busy st' = false
            /\ files (env st') !! file = Some (image (env st)))).
Proof.
  intros Hbusy file.
  unfold backup, bind, is_busy, lift, fs_mkdir, fs_unlink, fs_copyFile, set_busy, ret.
  rewrite Hbusy. fold file. cbn.
  destruct (next_fault _ || bool_decide (files (env st) !! file = None)); cbn.
  - do 2 eexists. split; [reflexivity|]. left. auto.
  - rewrite decide_True by reflexivity.
    destruct (next_fault _); cbn.
    + do 2 eexists. split; [reflexivity|]. right; left. auto.
    + do 2 eexists. split; [reflexivity|]. right; right. cbn.
      split; [reflexivity|]. split; [reflexivity|]. apply lookup_insert_eq.
Qed.

(** When nothing is stored at the destination, [unlink] raises and [backup]
    returns from the [catch] clause: no snapshot is written. *)
Lemma backup_nothing_to_remove (this : Database) (filename_arg : option string) (st : State) :
  busy st = false ->
  files (env st) !! default (backup_filename this) (truthy filename_arg) = None ->
  exists st',
    backup this filename_arg st = (Ret (resp (-4082) false), st')
    /\ files (env st') = files (env st) /\ busy st' = false.
Proof.
  intros Hbusy Hnone.
  unfold backup, bind, is_busy, lift, fs_mkdir, fs_unlink, ret.
  rewrite Hbusy. cbn. rewrite Hnone.
  rewrite bool_decide_eq_true_2 by reflexivity. rewrite orb_true_r. cbn.
  eexists. split; [reflexivity|]. auto.
Qed.

(** C3 (the code departs from the claim).  A first [backup], with nothing
    stored at the destination yet: the answer is the sentinel [-4082], and
    the call ends there; the log shows the directory creation and the failed
    removal only, and the destination still holds no file. *)
Theorem backup_first_run_copies_nothing :
  exists st',
    backup demo_db None first_backup = (Ret (resp (-4082) false), st')
    /\ files (env st') !! backup_filename demo_db = None
    /\ log (env st') = [ EvUnlink (backup_filename demo_db) false;
                         EvMkdir (DirOf (backup_filename demo_db)) ].
Proof. eexists. vm_compute. repeat split. Qed.

(** C4 (the code departs from the claim).  A [backup] whose copy fails
    returns [{ code: 500, status: false }] with the busy signal still set;
    from then on [backup] and [vacuum] are both rejected as busy. *)
Theorem backup_failed_copy_keeps_signal :
  exists st',
    backup demo_db None failing_copy = (Ret (resp 500 false), st')
    /\ busy st' = true
    /\ backup demo_db None st' = (Ret (resp 429 false), st')
    /\ vacuum st' = (Ret (resp 429 false), st').
Proof. eexists. vm_compute. repeat split. Qed.

(** [vacuum], the sibling guarded by the same signal, releases it whether
    the engine fails or not. *)
Lemma vacuum_releases_signal (st : State) :
  busy st = false ->
  exists r st', vacuum st = (Ret r, st') /\ busy st' = false.
Proof.
  intros Hbusy.
  unfold vacuum, is_busy, lift, set_busy, db_run, call, error_callback, ret, bind.
  rewrite Hbusy. cbn.
  destruct (next_fault (env st)); cbn; do 2 eexists; split; reflexivity.
Qed.

(** ** Totality of the row access layer and of the migration steps *)

Lemma returns_ret {S A} (a : A) : returns (S := S) (ret a).
Proof. intros s. by exists a, s. Qed.

Lemma returns_bind {S A B} (c : Prog S A) (k : A -> Prog S B) :
  returns c -> (forall a, returns (k a)) -> returns (bind c k).
Proof.
  intros Hc Hk s. destruct (Hc s) as (a & s' & E).
  destruct (Hk a s') as (b & s'' & E'). exists b, s''.
  unfold bind. by rewrite E.
Qed.

Lemma call_returns st : returns (call st).
Proof.
  intros s. unfold call. destruct (next_fault s); [eauto|].
  destruct (exec st (image s)) as [[img r]|]; eauto.
Qed.

Lemma error_callback_returns location : returns (error_callback location).
Proof. intros s. unfold error_callback. eauto. Qed.

Lemma random_id_returns : returns random_id.
Proof. intros s. unfold random_id. eauto. Qed.

Create HintDb returns.
#[local] Hint Resolve returns_ret call_returns error_callback_returns random_id_returns : returns.

Ltac returns_step :=
  match goal with
  | |- returns (bind _ _) => apply returns_bind; [|intros ?]
  | |- returns (match ?x with _ => _ end) => destruct x
  | |- returns (let '(_, _) := ?x in _) => destruct x
  | |- returns _ => solve [auto with returns]
  end.
Ltac returns := repeat returns_step.

Lemma db_run_returns st : returns (db_run st).
Proof. unfold db_run. returns. Qed.
Lemma db_get_returns st : returns (db_get st).
Proof. unfold db_get. returns. Qed.
Lemma db_all_returns st : returns (db_all st).
Proof. unfold db_all. returns. Qed.
Lemma db_all_info_returns st : returns (db_all_info st).
Proof. unfold db_all_info. returns. Qed.
Lemma db_all_names_returns st : returns (db_all_names st).
Proof. unfold db_all_names. returns. Qed.
Lemma db_get_name_returns st : returns (db_get_name st).
Proof. unfold db_get_name. returns. Qed.
#[local] Hint Resolve db_run_returns db_get_returns db_all_returns db_all_info_returns
  db_all_names_returns db_get_name_returns : returns.

Lemma tableExists_returns t : returns (tableExists t).
Proof. unfold tableExists. returns. Qed.
Lemma getTables_returns : returns getTables.
Proof. unfold getTables. returns. Qed.
Lemma fieldExists_returns t f : returns (fieldExists t f).
Proof. unfold fieldExists. returns. Qed.
#[local] Hint Resolve tableExists_returns getTables_returns fieldExists_returns : returns.
Lemma renameField_returns t f f' : returns (renameField t f f').
Proof. unfold renameField. returns. Qed.
Lemma renameTable_returns t t' : returns (renameTable t t').
Proof. unfold renameTable. returns. Qed.
Lemma addField_returns t f ty d : returns (addField t f ty d).
Proof. unfold addField. returns. Qed.
Lemma deleteField_returns t f : returns (deleteField t f).
Proof. unfold deleteField. returns. Qed.
#[local] Hint Resolve renameField_returns renameTable_returns addField_returns
  deleteField_returns : returns.
Lemma rename_fields_returns t fs r : returns (rename_fields t fs r).
Proof. revert r. induction fs as [|f fs IH]; intros r; cbn; returns. Qed.
Lemma add_missing_returns t fs r : returns (add_missing t fs r).
Proof. revert r. induction fs as [|f fs IH]; intros r; cbn; returns. Qed.
Lemma delete_unused_fields_returns t fs r : returns (delete_unused_fields t fs r).
Proof. revert r. induction fs as [|f fs IH]; intros r; cbn; returns. Qed.
#[local] Hint Resolve rename_fields_returns add_missing_returns
  delete_unused_fields_returns : returns.
Lemma addFields_returns t fs d : returns (addFields t fs d).
Proof. unfold addFields. returns. Qed.
#[local] Hint Resolve addFields_returns : returns.
Lemma createTable_returns this t fs : returns (createTable this t fs).
Proof. unfold createTable. returns. Qed.
Lemma deleteTable_returns t : returns (deleteTable t).
Proof. unfold deleteTable. returns. Qed.
#[local] Hint Resolve createTable_returns deleteTable_returns : returns.
Lemma getRows_returns t f v e l : returns (getRows t f v e l).
Proof. unfold getRows. returns. Qed.
#[local] Hint Resolve getRows_returns : returns.
Lemma all_returns m : returns (all m).
Proof. unfold all. returns. Qed.
Lemma column_fetch_returns m c v e : returns (column_fetch m c v e).
Proof. unfold column_fetch. returns. Qed.

Lemma returns_never_throws {S A} (c : Prog S A) : returns c -> never_throws c.
Proof. intros Hc s m s' E. destruct (Hc s) as (a & s'' & E'). congruence. Qed.

Lemma pending_never_throws {S A} : never_throws (S := S) (A := A) pending.
Proof. intros s m s'. unfold pending. congruence. Qed.

Lemma never_throws_bind {S A B} (c : Prog S A) (k : A -> Prog S B) :
  never_throws c -> (forall a, never_throws (k a)) -> never_throws (bind c k).
Proof.
  intros Hc Hk s m s'. unfold bind.
  destruct (c s) as [[a|m'|] s1] eqn:E.
  - apply Hk.
  - exfalso. eapply Hc, E.
  - congruence.
Qed.

Ltac never_throws_step :=
  match goal with
  | |- never_throws (bind _ _) => apply never_throws_bind; [|intros ?]
  | |- never_throws pending => apply pending_never_throws
  | |- never_throws (match ?x with _ => _ end) => destruct x
  | |- never_throws _ => solve [apply returns_never_throws; auto with returns]
  end.

Lemma reorderFields_never_throws this t fs : never_throws (reorderFields this t fs).
Proof. unfold reorderFields. repeat never_throws_step. Qed.

Lemma migrate_tables_never_throws this ts : never_throws (migrate_tables this ts).
Proof.
  induction ts as [|[t fs] ts IH]; cbn; repeat never_throws_step;
    auto using reorderFields_never_throws.
Qed.

Lemma prune_tables_returns this l : returns (prune_tables this l).
Proof. induction l as [|t l IH]; cbn; returns. Qed.
#[local] Hint Resolve prune_tables_returns : returns.

Lemma migrate_never_throws this : never_throws (migrate this).
Proof.
  unfold migrate. apply never_throws_bind; [apply migrate_tables_never_throws|].
  intros _. apply returns_never_throws. returns.
Qed.

Lemma migrate_tables_returns this ts :
  reorder this = false -> returns (migrate_tables this ts).
Proof. intros Hr. induction ts as [|[t fs] ts IH]; cbn; rewrite ?Hr; returns. Qed.

Lemma migrate_returns this : reorder this = false -> returns (migrate this).
Proof.
  intros Hr. unfold migrate. apply returns_bind; [by apply migrate_tables_returns|].
  intros _. returns.
Qed.

(** ** Opening *)

(** C1 (amended).  [open] does not look at the results of the migration
    steps; the error callback is one that returns.  When the handle cannot
    be opened, [open] answers [{ code: 500, status: false }], the failure
    is reported to the callback as one of [open], and [ready] and both
    timers are untouched.  When the handle opens and [open] completes, the
    database is marked ready, the enabled timers are started and the
    answer is [{ code: 200, status: true }], whatever the steps returned.
    [open] can fail to complete only when the handle opens and reordering
    is enabled, and then [ready] and the timers are untouched.  The promise
    never rejects. *)
Theorem open_ignores_step_results (this : Database) (st : State) :
  match open this st with
  | (Ret r, st') =>
      if handle_opens st
      then r = resp 200 true /\ ready st' = true
           /\ backup_timer st'
              = (if backup_enabled this then Some (backup_interval this) else backup_timer st)
           /\ vacuum_timer st'
              = (if vacuum_enabled this then Some (vacuum_interval this) else vacuum_timer st)
      else r = resp 500 false /\ ready st' = ready st
           /\ backup_timer st' = backup_timer st /\ vacuum_timer st' = vacuum_timer st
           /\ log (env st')
              = EvError "open" :: EvOpenHandle (filename this) false
                :: EvMkdir (DirNamed (directory this)) :: log (env st)
  | (Throw _, _) => False
  | (Pending, st') =>
      handle_opens st = true /\ reorder this = true /\ ready st' = ready st
      /\ backup_timer st' = backup_timer st /\ vacuum_timer st' = vacuum_timer st
  end.
Proof.
  unfold open, lift, fs_mkdir, open_handle, error_callback, in_callback, set_ready,
    set_backup_timer, set_vacuum_timer, ret, bind, handle_opens, next_fault. cbn.
  destruct (hd false (tl (faults (env st)))) eqn:Hopen; cbn.
  { auto. }
  match goal with
  | |- context [migrate this ?s] => destruct (migrate this s) as [[[]|m|] s2] eqn:E
  end; cbn.
  - destruct (backup_enabled this), (vacuum_enabled this); cbn; auto.
  - exfalso. eapply migrate_never_throws, E.
  - split; [done|]. split; [|auto]. destruct (reorder this) eqn:Hr; [reflexivity|].
    match type of E with
    | migrate this ?s = _ => destruct (migrate_returns this Hr s) as (a & s' & E')
    end.
    congruence.
Qed.

(** C1 (as stated) fails.  [CREATE TABLE "items"] is rejected by the
    engine, the failure reaches [error_callback], the table does not exist
    afterwards, and [open] still marks the database ready, starts both
    timers and reports success. *)
Lemma open_ready_after_failed_step :
  exists st',
    open plain_db create_fails = (Ret (resp 200 true), st')
    /\ ready st' = true
    /\ backup_timer st' = Some 3600000%Z
    /\ vacuum_timer st' = Some 604800000%Z
    /\ image (env st') = []
    /\ log (env st')
       = [ EvExec SMasterNames true;
           EvError "createTable";
           EvExec (SCreateTable "items"
                     [("id", TEXT); ("steamd_id", TEXT); ("download_url", TEXT);
                      ("size", INTEGER)]) false;
           EvExec (SMasterHas "items") true;
           EvOpenHandle (filename plain_db) true;
           EvMkdir (DirNamed (directory plain_db)) ].
Proof. eexists. vm_compute. repeat split. Qed.

(** ** Updates through [setValue] *)

Lemma sql_operator_eq : sql_operator "=" = Some (fun c => bool_decide (c = Eq)).
Proof. reflexivity. Qed.

Lemma update_changes table field value sf sv img img' n :
  exec (SUpdateWhere table field value sf sv) img = Some (img', RChanges n) ->
  n = length (rows_where img table sf sv).
Proof.
  unfold exec, with_table, rows_where, where_filter. intros H.
  destruct (lookup_table table img) as [tb|]; [|discriminate]. cbn in H.
  destruct (index_of field (column_names tb)) as [i|]; [|discriminate]. cbn in H.
  destruct (index_of sf (column_names tb)) as [j|]; [|discriminate].
  rewrite sql_operator_eq in H. cbn in H. congruence.
Qed.

Lemma update_reply table field value sf sv img out :
  exec (SUpdateWhere table field value sf sv) img = Some out ->
  exists n, out.2 = RChanges n.
Proof.
  unfold exec, with_table, where_filter. intros H.
  destruct (lookup_table table img) as [tb|]; [|discriminate]. cbn in H.
  destruct (index_of field (column_names tb)) as [i|]; [|discriminate]. cbn in H.
  destruct (index_of sf (column_names tb)) as [j|]; [|discriminate].
  rewrite sql_operator_eq in H. cbn in H. injection H as <-. eauto.
Qed.

(** An update that the engine executes answers with code 200, the number
    of rows its predicate matched, and whether that number is positive. *)
Lemma setValue_run table field value sf sv s :
  next_fault s = false ->
  is_Some (exec (SUpdateWhere table field value sf sv) (image s)) ->
  let n := length (rows_where (image s) table sf sv) in
  (setValue table field value sf sv s).1 = Ret (resp_changes 200 (bool_decide (0 < n)) n).
Proof.
  intros Hf [[img' r] He] n.
  destruct (update_reply _ _ _ _ _ _ _ He) as [k Hk]. cbn in Hk. subst r.
  pose proof (update_changes _ _ _ _ _ _ _ _ He) as ->.
  unfold setValue, db_run, call, ret, bind. rewrite Hf, He. reflexivity.
Qed.

(** C10.  An update whose predicate matches no row and whose statement the
    engine executes without error answers [{ code: 200, status: false,
    changes: 0 }]: the code is the one of a successful update, not 404.
    The same holds for the callers that hand the answer through:
    [Model.setValue], the per-column [setValue] and [updateValues]. *)
Theorem setValue_no_match table field value sf sv s :
  next_fault s = false ->
  is_Some (exec (SUpdateWhere table field value sf sv) (image s)) ->
  rows_where (image s) table sf sv = [] ->
  (setValue table field value sf sv s).1 = Ret (resp_changes 200 false 0)
  /\ (forall m, tableName m = table -> truthy (primaryKey m) = Some sf ->
        (setValue_static m field value sv s).1 = Ret (resp_changes 200 false 0))
  /\ (forall m column, tableName m = table -> name column = field ->
        truthy (primaryKey m) = Some sf ->
        (column_setValue m column sv value s).1 = Ret (resp_changes 200 false 0))
  /\ (forall m column where_column, tableName m = table -> name column = field ->
        name where_column = sf ->
        (column_updateValues m column value where_column sv s).1
        = Ret (resp_changes 200 false 0)).
Proof.
  intros Hf He Hnone.
  pose proof (setValue_run _ _ _ _ _ _ Hf He) as Hrun. rewrite Hnone in Hrun. cbn in Hrun.
  split; [exact Hrun|]. split; [|split].
  - intros m <- Hpk. unfold setValue_static. rewrite Hpk. exact Hrun.
  - intros m column <- <- Hpk. unfold column_setValue. rewrite Hpk. exact Hrun.
  - intros m column where_column <- <- <-. exact Hrun.
Qed.

Lemma setValue_no_match_witness :
  let s := sys_of [("items", items_table [[VText "a"; VText "1"; VText "http://x"; VInt 10]])]
             ∅ [] in
  next_fault s = false
  /\ is_Some (exec (SUpdateWhere "items" "download_url" (VText "http://y") "id" (VText "b"))
                (image s))
  /\ rows_where (image s) "items" "id" (VText "b") = []
  /\ (setValue "items" "download_url" (VText "http://y") "id" (VText "b") s).1
     = Ret (resp_changes 200 false 0).
Proof.
  assert (Hexec : is_Some (exec (SUpdateWhere "items" "download_url" (VText "http://y")
                                   "id" (VText "b"))
                             [("items", items_table [[VText "a"; VText "1"; VText "http://x";
                                                      VInt 10]])])).
  { vm_compute. eauto. }
  split; [reflexivity|]. split; [exact Hexec|]. split; [reflexivity|].
  exact (proj1 (setValue_no_match "items" "download_url" (VText "http://y") "id" (VText "b")
                  (sys_of [("items", items_table [[VText "a"; VText "1"; VText "http://x";
                                                   VInt 10]])] ∅ [])
                  eq_refl Hexec eq_refl)).
Defined.

(** ** Models of tables without a primary key *)

Lemma assign_columns_keeps cols index args (this : Row) k :
  is_Some (this !! k) -> is_Some (assign_columns cols index args this !! k).
Proof.
  revert index this. induction cols as [|c cols IH]; intros index this Hk; cbn; [done|].
  apply IH. rewrite !lookup_insert. repeat case_decide; eauto.
Qed.

Lemma assign_columns_defines cols index args (this : Row) col :
  col ∈ cols -> is_Some (assign_columns cols index args this !! name col).
Proof.
  revert index this. induction cols as [|c cols IH]; intros index this Hin; cbn.
  - by apply elem_of_nil in Hin.
  - apply elem_of_cons in Hin as [->|Hin]; [|by apply IH].
    apply assign_columns_keeps. rewrite lookup_insert_eq. eauto.
Qed.

(** [getRows] hands its query to the engine, and reports to the callback
    when the engine does not answer. *)
Lemma getRows_log table field value equality limit s :
  let whereClause := if decide (equality = Some "*") then None
                     else Some (field, operator_text equality, value) in
  exists r s' ok,
    getRows table field value equality limit s = (Ret r, s')
    /\ log s' = (if negb ok then [EvError "getRows"] else [])
                ++ EvExec (SSelect table whereClause limit) ok :: log s.
Proof.
  intros whereClause. unfold getRows, db_all, call, error_callback, ret, bind.
  fold whereClause.
  destruct (next_fault s); cbn [fst snd].
  { do 2 eexists. by exists false. }
  destruct (exec (SSelect table whereClause limit) (image s)) as [[img reply]|].
  - destruct reply; do 2 eexists; by exists true.
  - do 2 eexists. by exists false.
Qed.




(** ** Instances: construction, snapshot and [save] *)

Lemma well_named_elim sch c c' :
  well_named sch -> c ∈ sch -> c' ∈ sch -> name c <> original (name c').
Proof.
  unfold well_named. rewrite Forall_forall. intros H Hc Hc'.
  specialize (H c Hc). rewrite Forall_forall in H. by apply H.
Qed.

Lemma original_inj a b : original a = original b -> a = b.
Proof. unfold original. cbn. intros H. by simplify_eq. Qed.

Lemma prop_insert (this : Row) k k' v :
  prop (<[k := v]> this) k' = if decide (k = k') then v else prop this k'.
Proof. unfold prop. rewrite lookup_insert. by case_decide. Qed.

Lemma assign_columns_other cols index args (this : Row) k :
  (forall c, c ∈ cols -> k <> name c /\ k <> original (name c)) ->
  assign_columns cols index args this !! k = this !! k.
Proof.
  revert index this. induction cols as [|c0 cols IH]; intros index this Hk; cbn; [done|].
  rewrite IH by (intros c Hc; apply Hk; by right).
  destruct (Hk c0) as [H1 H2]; [by left|].
  by rewrite !lookup_insert_ne.
Qed.

Lemma assign_columns_in_sync cols :
  forall done index args this,
    well_named (done ++ cols) ->
    (forall c, c ∈ done -> in_sync this (name c)) ->
    forall c, c ∈ done ++ cols -> in_sync (assign_columns cols index args this) (name c).
Proof.
  induction cols as [|c0 cols IH]; intros done index args this Hwn Hdone c Hc; cbn.
  - rewrite app_nil_r in Hc. by apply Hdone.
  - apply (IH (done ++ [c0])).
    + by rewrite <- app_assoc.
    + clear c Hc. intros c Hc. unfold in_sync. rewrite !prop_insert.
      assert (Hc0 : c0 ∈ done ++ c0 :: cols) by (apply elem_of_app; right; by left).
      destruct (decide (name c0 = name c)) as [Heq|Hne].
      * rewrite decide_False; [by rewrite Heq, decide_True|].
        rewrite <- Heq. intros E. symmetry in E. by eapply (well_named_elim _ c0 c0).
      * assert (Hc' : c ∈ done ++ c0 :: cols).
        { apply elem_of_app in Hc as [Hc|Hc]; apply elem_of_app; [by left|].
          apply list_elem_of_singleton in Hc as ->. right; by left. }
        apply elem_of_app in Hc as [Hc|Hc];
          [|apply list_elem_of_singleton in Hc; by subst].
        rewrite (decide_False (P := original (name c0) = name c))
          by (intros E; by eapply (well_named_elim _ c c0)).
        rewrite (decide_False (P := name c0 = original (name c)))
          by (by eapply (well_named_elim _ c0 c)).
        rewrite (decide_False (P := original (name c0) = original (name c)))
          by (intros E; by apply original_inj in E).
        by apply Hdone.
    + rewrite <- app_assoc. exact Hc.
Qed.

Lemma create_in_sync m args c :
  well_named (schema m) -> c ∈ schema m -> in_sync (create m args) (name c).
Proof.
  intros Hwn Hc. unfold create.
  apply (assign_columns_in_sync (schema m) [] 0 args); [done| |done].
  intros c' Hc'. by apply elem_of_nil in Hc'.
Qed.

Lemma loose_eq_refl ToNumber v : loose_eq ToNumber v v = true.
Proof. destruct v; cbn; try done; by apply bool_decide_eq_true_2. Qed.

Lemma changed_create ToNumber m args :
  well_named (schema m) -> changed ToNumber m (create m args) = [].
Proof.
  intros Hwn. unfold changed. apply elem_of_nil_inv. intros c Hc.
  apply list_elem_of_filter in Hc as [Hdiff Hc].
  apply list_elem_of_filter in Hc as [_ Hc].
  rewrite <- (create_in_sync m args c Hwn Hc), loose_eq_refl in Hdiff. discriminate.
Qed.

Lemma refresh_cons c0 upd (this : Row) :
  refresh (c0 :: upd) this
  = refresh upd (<[original (name c0) := prop this (name c0)]> this).
Proof. reflexivity. Qed.

Lemma refresh_other upd (this : Row) k :
  (forall c, c ∈ upd -> k <> original (name c)) -> refresh upd this !! k = this !! k.
Proof.
  revert this. induction upd as [|c0 upd IH]; intros this Hk; [done|].
  rewrite refresh_cons, IH by (intros c Hc; apply Hk; by right).
  apply lookup_insert_ne. intros E. eapply Hk; [by left|done].
Qed.

Lemma refresh_original upd (this : Row) c :
  c ∈ upd ->
  (forall c1 c2, c1 ∈ upd -> c2 ∈ upd -> name c1 <> original (name c2)) ->
  refresh upd this !! original (name c) = Some (prop this (name c)).
Proof.
  revert this c. induction upd as [|c0 upd IH]; intros this c Hc Hwn.
  - by apply elem_of_nil in Hc.
  - rewrite refresh_cons.
    destruct (decide (name c ∈ name <$> upd)) as [Hin|Hnin].
    + apply list_elem_of_fmap in Hin as (c1 & Hname & Hc1).
      rewrite Hname, (IH _ c1 Hc1) by (intros; apply Hwn; by right).
      rewrite prop_insert, decide_False; [done|].
      intros E. eapply (Hwn c1 c0); [by right|by left|done].
    + apply elem_of_cons in Hc as [->|Hc];
        [|destruct Hnin; by apply list_elem_of_fmap_2].
      rewrite refresh_other; [apply lookup_insert_eq|].
      intros c' Hc' E%original_inj. apply Hnin. rewrite E. by apply list_elem_of_fmap_2.
Qed.

Lemma changed_elem ToNumber m this c :
  c ∈ changed ToNumber m this
  <-> c ∈ schema m /\ pkey c = false
      /\ loose_eq ToNumber (prop this (name c)) (prop this (original (name c))) = false.
Proof. unfold changed. rewrite !list_elem_of_filter. tauto. Qed.

Lemma refresh_changed_columns ToNumber m this c :
  well_named (schema m) -> c ∈ schema m ->
  prop (refresh (changed ToNumber m this) this) (name c) = prop this (name c).
Proof.
  intros Hwn Hc. unfold prop. rewrite refresh_other; [done|].
  intros c' Hc'%changed_elem. apply (well_named_elim _ c c' Hwn Hc). tauto.
Qed.

Lemma refresh_changed_in_sync ToNumber m this :
  well_named (schema m) ->
  changed ToNumber m (refresh (changed ToNumber m this) this) = [].
Proof.
  intros Hwn. apply elem_of_nil_inv. intros c Hc.
  apply changed_elem in Hc as (Hc & Hpk & Hdiff).
  rewrite (refresh_changed_columns _ _ _ _ Hwn Hc) in Hdiff.
  destruct (decide (name c ∈ name <$> changed ToNumber m this)) as [Hin|Hnin].
  - apply list_elem_of_fmap in Hin as (c1 & Hname & Hc1).
    unfold prop at 2 in Hdiff. rewrite Hname, refresh_original in Hdiff; [|done|].
    + cbn in Hdiff. rewrite <- Hname, loose_eq_refl in Hdiff. discriminate.
    + intros c2 c3 Hc2%changed_elem Hc3%changed_elem.
      apply (well_named_elim _ c2 c3 Hwn); tauto.
  - unfold prop at 2 in Hdiff. rewrite refresh_other in Hdiff.
    + apply Hnin. apply list_elem_of_fmap_2. apply changed_elem. done.
    + intros c' Hc' E%original_inj. apply Hnin. rewrite E. by apply list_elem_of_fmap_2.
Qed.

Lemma via_db_holds {A} (this : Row) (method : string) (c : M A) :
  this !! "_db" = Some (VObject dbInstance) -> via_db this method c = c.
Proof. intros H. unfold via_db, prop. by rewrite H. Qed.

Lemma original_not_db n : "_db" <> original n.
Proof. unfold original. cbn. intros H. by simplify_eq. Qed.

Lemma create_holds_database m args :
  "_db" ∉ name <$> schema m -> create m args !! "_db" = Some (VObject dbInstance).
Proof.
  intros Hn. unfold create. rewrite assign_columns_other; [apply lookup_singleton_eq|].
  intros c Hc. split; [|apply original_not_db].
  intros E. apply Hn. rewrite E. by apply list_elem_of_fmap_2.
Qed.

Lemma plain_not_reserved sch k : plain sch -> k ∈ reserved -> k ∉ name <$> sch.
Proof.
  intros Hp Hk (c & -> & Hc)%list_elem_of_fmap.
  exact (proj1 (Forall_forall _ _) Hp c Hc Hk).
Qed.

Lemma assign_columns_snapshot cols index args (this : Row) col :
  col ∈ cols -> is_Some (assign_columns cols index args this !! original (name col)).
Proof.
  revert index this. induction cols as [|c cols IH]; intros index this Hin; cbn.
  - by apply elem_of_nil in Hin.
  - apply elem_of_cons in Hin as [->|Hin]; [|by apply IH].
    apply assign_columns_keeps. rewrite lookup_insert. repeat case_decide; eauto.
    rewrite lookup_insert_eq. eauto.
Qed.

(** What the constructor builds is an instance of the model. *)
Lemma create_instance_of m args : plain (schema m) -> instance_of m (create m args).
Proof.
  intros Hp. split.
  - apply create_holds_database. apply plain_not_reserved; [done|]. by left.
  - apply Forall_forall. intros col Hc. unfold create. split.
    + by apply assign_columns_defines.
    + by apply assign_columns_snapshot.
Qed.

Lemma writes_app evs2 evs1 : writes (evs2 ++ evs1) = writes evs1 ++ writes evs2.
Proof. unfold writes. by rewrite omap_app, reverse_app. Qed.

Lemma valueExists_spec table field v s :
  exists ex s1 evs,
    valueExists table field v None s = (Ret ex, s1)
    /\ log s1 = evs ++ log s /\ writes evs = [] /\ image s1 = image s
    /\ succeeded ex = probe_finds s table field v.
Proof.
  unfold valueExists, db_get, call, error_callback, ret, bind, probe_finds, rows_where.
  cbn [operator_text truthy].
  destruct (next_fault s) eqn:Hf; cbn.
  { do 2 eexists. exists [EvError "valueExists"; EvExec (SProbe table field "=" v) false].
    repeat split. }
  unfold where_filter. rewrite sql_operator_eq.
  destruct (lookup_table table (image s)) as [tb|]; cbn;
    [|do 2 eexists; exists [EvError "valueExists"; EvExec (SProbe table field "=" v) false];
      repeat split].
  destruct (index_of field (column_names tb)) as [i|]; cbn;
    [|do 2 eexists; exists [EvError "valueExists"; EvExec (SProbe table field "=" v) false];
      repeat split].
  do 2 eexists. exists [EvExec (SProbe table field "=" v) true].
  repeat split.
  destruct (List.filter _ (records tb)) as [|r rs]; cbn; [reflexivity|].
  reflexivity.
Qed.

Lemma addValues_spec table args s :
  exists r s2 evs,
    addValues table args s = (Ret r, s2)
    /\ log s2 = evs ++ log s /\ writes evs = [SInsert table args]
    /\ ((r = resp_code 500 /\ image s2 = image s) \/ r = resp_changes 200 true 1).
Proof.
  unfold addValues, db_run, call, error_callback, ret, bind.
  destruct (next_fault s); cbn.
  { do 2 eexists. exists [EvError "addValues"; EvExec (SInsert table args) false].
    repeat (split; [reflexivity|]). left. done. }
  destruct (with_table _ _ _) as [[img reply]|]; cbn.
  - destruct reply; do 2 eexists; exists [EvExec (SInsert table args) true];
      repeat (split; [reflexivity|]); by right.
  - do 2 eexists. exists [EvError "addValues"; EvExec (SInsert table args) false].
    repeat (split; [reflexivity|]). left. done.
Qed.

Lemma setValue_log table field value sf sv s :
  exists r s' evs,
    setValue table field value sf sv s = (Ret r, s')
    /\ log s' = evs ++ log s /\ writes evs = [SUpdateWhere table field value sf sv].
Proof.
  unfold setValue, db_run, call, error_callback, ret, bind.
  destruct (next_fault s); cbn.
  { do 2 eexists. exists [EvError "setValue"; EvExec (SUpdateWhere table field value sf sv) false].
    repeat split. }
  destruct (with_table _ _ _) as [[img reply]|]; cbn.
  - destruct reply; do 2 eexists; exists [EvExec (SUpdateWhere table field value sf sv) true];
      repeat split.
  - do 2 eexists. exists [EvError "setValue"; EvExec (SUpdateWhere table field value sf sv) false].
    repeat split.
Qed.

Lemma set_values_spec table update this pk pkValue s :
  this !! "_db" = Some (VObject dbInstance) ->
  exists results s' evs,
    set_values table update this pk pkValue s = (Ret results, s')
    /\ log s' = evs ++ log s
    /\ writes evs
       = (fun col => SUpdateWhere table (name col) (prop this (name col)) pk pkValue)
         <$> update.
Proof.
  intros Hdb. revert s. induction update as [|col update IH]; intros s; cbn.
  - exists [], s, []. done.
  - rewrite via_db_holds by done.
    destruct (setValue_log table (name col) (prop this (name col)) pk pkValue s)
      as (r & s1 & evs1 & E1 & L1 & W1).
    destruct (IH s1) as (rs & s2 & evs2 & E2 & L2 & W2).
    exists (r :: rs), s2, (evs2 ++ evs1).
    unfold bind at 1. rewrite E1. unfold bind at 1. rewrite E2. cbn.
    split; [done|]. split; [by rewrite L2, L1, app_assoc|].
    by rewrite writes_app, W1, W2.
Qed.

Lemma NoDup_names_eq (sch : TableSchema) c c' :
  NoDup (name <$> sch) -> c ∈ sch -> c' ∈ sch -> name c = name c' -> c = c'.
Proof.
  induction sch as [|c0 sch IH]; intros Hnd Hc Hc' Heq.
  - by apply elem_of_nil in Hc.
  - rewrite fmap_cons in Hnd. apply NoDup_cons in Hnd as [Hnin Hnd].
    apply elem_of_cons in Hc as [->|Hc]; apply elem_of_cons in Hc' as [->|Hc']; try done.
    + destruct Hnin. rewrite Heq. by apply list_elem_of_fmap_2.
    + destruct Hnin. rewrite <- Heq. by apply list_elem_of_fmap_2.
    + by apply IH.
Qed.

Lemma primaryKey_column m pk :
  truthy (primaryKey m) = Some pk ->
  exists c, c ∈ schema m /\ pkey c = true /\ name c = pk.
Proof.
  unfold primaryKey. destruct (List.find pkey (schema m)) as [c|] eqn:E; [|done].
  apply List.find_some in E as [Hin Hpk]. apply list_elem_of_In in Hin.
  cbn. intros H. exists c. repeat split; try done.
  destruct (name c) as [|a n]; [done|]. cbn in H. congruence.
Qed.

Lemma succeeded_resp_changes (c : Z) (b : bool) (n : nat) :
  succeeded (R := Row) (resp_changes c b n) = b.
Proof. by destruct b. Qed.


Lemma deleteRow_log table field v s :
  exists r s' evs,
    deleteRow table field v None s = (Ret r, s')
    /\ log s' = evs ++ log s
    /\ writes evs = [SDeleteWhere table field "=" v (Some 1%Z)].
Proof.
  unfold deleteRow, deleteRows, db_run, call, error_callback, ret, bind.
  cbn [operator_text truthy].
  destruct (next_fault s); cbn.
  { do 2 eexists.
    exists [EvError "deleteRows"; EvExec (SDeleteWhere table field "=" v (Some 1%Z)) false].
    repeat split. }
  destruct (with_table _ _ _) as [[img reply]|]; cbn.
  - destruct reply; do 2 eexists;
      exists [EvExec (SDeleteWhere table field "=" v (Some 1%Z)) true]; repeat split.
  - do 2 eexists.
    exists [EvError "deleteRows"; EvExec (SDeleteWhere table field "=" v (Some 1%Z)) false].
    repeat split.
Qed.

(** Saving an instance none of whose columns differs from its snapshot:
    the only statement that can fail is the insert, and a failed insert
    leaves storage as it was. *)
Lemma save_in_sync (ToNumber : string -> option Z) m (this : Row) s pk :
  truthy (primaryKey m) = Some pk ->
  this !! "_db" = Some (VObject dbInstance) ->
  changed ToNumber m this = [] ->
  exists r s' evs,
    save ToNumber m this s = (Ret (r, this), s')
    /\ log s' = evs ++ log s
    /\ (succeeded r = false ->
        image s' = image s
        /\ writes evs = [SInsert (tableName m) ((fun col => prop this (name col)) <$> schema m)]).
Proof.
  intros Hpk Hdb Hnil. unfold save. rewrite Hpk, Hnil, !via_db_holds by done.
  destruct (valueExists_spec (tableName m) pk (prop this pk) s)
    as (ex & s1 & evs1 & E1 & L1 & W1 & I1 & _).
  unfold bind at 1. rewrite E1.
  destruct (succeeded ex); cbn [negb].
  - cbn. exists (resp_changes 200 true 1), s1, evs1. done.
  - destruct (addValues_spec (tableName m) ((fun col => prop this (name col)) <$> schema m) s1)
      as (r & s2 & evs2 & E2 & L2 & W2 & Hr).
    unfold bind at 1. rewrite E2. cbn.
    exists r, s2, (evs2 ++ evs1).
    split; [by destruct (succeeded r)|]. split; [by rewrite L2, L1, app_assoc|].
    intros Hfail. destruct Hr as [[-> Hi] | ->]; [|done].
    split; [congruence|]. by rewrite writes_app, W1, W2.
Qed.



Lemma assign_columns_value cols :
  forall index args (this : Row) i c,
    NoDup (name <$> cols) ->
    (forall c1 c2, c1 ∈ cols -> c2 ∈ cols -> name c1 <> original (name c2)) ->
    cols !! i = Some c ->
    prop (assign_columns cols index args this) (name c) = default VUndef (args !! (index + i)).
Proof.
  induction cols as [|c0 cols IH]; intros index args this i c Hnd Hwn Hi; [done|].
  rewrite fmap_cons in Hnd. apply NoDup_cons in Hnd as [Hnin Hnd].
  destruct i as [|i]; cbn in *.
  - injection Hi as ->. unfold prop. rewrite assign_columns_other.
    + by rewrite lookup_insert_eq, Nat.add_0_r.
    + intros c' Hc'. split.
      * intros E. apply Hnin. rewrite E. by apply list_elem_of_fmap_2.
      * apply Hwn; [by left|by right].
  - rewrite (IH (S index) args _ i c); [by rewrite Nat.add_succ_r|done| |done].
    intros c1 c2 H1 H2. apply Hwn; by right.
Qed.

(** ** [fromObject] and [convert] between different schemas *)

(** A column of the new instance holds what [obj[name]] reads. *)
Lemma fromObject_prop m (obj : Row) c :
  well_named (schema m) -> NoDup (name <$> schema m) -> c ∈ schema m ->
  prop (fromObject m obj) (name c) = get obj (name c).
Proof.
  intros Hwn Hnd Hc. apply list_elem_of_lookup in Hc as [i Hi].
  unfold fromObject, create.
  rewrite (assign_columns_value _ 0 _ _ i c Hnd); [|by intros; eapply well_named_elim|done].
  cbn. by rewrite list_lookup_fmap, Hi.
Qed.

(** A destination column with no field of that name in the object is
    constructed from [undefined], unless every object inherits a property
    of that name. *)
Lemma fromObject_missing_field m (obj : Row) c :
  well_named (schema m) -> NoDup (name <$> schema m) ->
  c ∈ schema m -> obj !! name c = None ->
  prop (fromObject m obj) (name c)
  = if decide (name c ∈ inherited_properties) then VObject (inherited (name c)) else VUndef.
Proof.
  intros Hwn Hnd Hc Hnone. rewrite fromObject_prop by done. unfold get. by rewrite Hnone.
Qed.

(** Fields of the object that the destination does not declare are not read. *)
Lemma fromObject_declared_fields m (obj obj' : Row) :
  (forall c, c ∈ schema m -> obj !! name c = obj' !! name c) ->
  fromObject m obj = fromObject m obj'.
Proof.
  intros H. unfold fromObject. f_equal. apply list_fmap_ext.
  intros i c Hc. unfold get. rewrite H; [done|]. by eapply list_elem_of_lookup_2.
Qed.

(** When the engine fails on the existence probe, [valueExists] answers
    with status false and [save] inserts, whether a row holds the key or
    not. *)
Lemma save_after_failed_probe (ToNumber : string -> option Z) (m : ModelClass)
    (this : Row) (s : Sys) (pk : string) :
  truthy (primaryKey m) = Some pk ->
  this !! "_db" = Some (VObject dbInstance) ->
  next_fault s = true ->
  exists r this' s' evs,
    save ToNumber m this s = (Ret (r, this'), s')
    /\ log s' = evs ++ log s
    /\ writes evs = [SInsert (tableName m) ((fun col => prop this (name col)) <$> schema m)].
Proof.
  intros Hpk Hdb Hf. unfold save. rewrite Hpk, !via_db_holds by done.
  destruct (valueExists_spec (tableName m) pk (prop this pk) s)
    as (ex & s1 & evs1 & E1 & L1 & W1 & I1 & Hfound).
  unfold probe_finds in Hfound. rewrite Hf in Hfound. cbn in Hfound.
  unfold bind at 1. rewrite E1, Hfound. cbn [negb].
  destruct (addValues_spec (tableName m) ((fun col => prop this (name col)) <$> schema m) s1)
    as (r & s2 & evs2 & E2 & L2 & W2 & Hr).
  unfold bind at 1. rewrite E2. cbn.
  do 3 eexists. exists (evs2 ++ evs1). split; [reflexivity|].
  split; [by rewrite L2, L1, app_assoc|]. by rewrite writes_app, W1, W2.
Qed.





(** A changed download URL is written by one update; saving again writes
    nothing. *)
Example save_edited_item_twice :
  exists r this' s' r2 this2 s2,
    save (fun _ => None) items edited_item (sys_of two_tables ∅ []) = (Ret (r, this'), s')
    /\ r = resp_changes 200 true 1
    /\ writes (log s')
       = [SUpdateWhere "items" "download_url" (VText "http://y") "id" (VText "a")]
    /\ save (fun _ => None) items this' s' = (Ret (r2, this2), s2)
    /\ r2 = resp_changes 200 true 1
    /\ writes (log s2) = writes (log s')
    /\ image s2 = image s'.
Proof.
  set (first := save (fun _ => None) items edited_item (sys_of two_tables ∅ [])).
  set (saved := match first.1 with Ret x => x | _ => (resp_code 0, ∅) end).
  set (second := save (fun _ => None) items saved.2 first.2).
  exists saved.1, saved.2, first.2.
  exists (match second.1 with Ret x => x.1 | _ => resp_code 0 end).
  exists (match second.1 with Ret x => x.2 | _ => ∅ end), second.2.
  by_running.
Qed.

(** The insert into the archive is rejected: [convert] answers [null] and
    item "a" is still in its table. *)
Example convert_failed_save :
  exists s',
    convert (fun _ => None) items (create items item_a) archive
      (sys_of two_tables ∅ [false; true])
    = (Ret None, s')
    /\ image s' = two_tables.
Proof.
  exists (convert (fun _ => None) items (create items item_a) archive
            (sys_of two_tables ∅ [false; true])).2.
  by_running.
Qed.

(** C6 (the code departs from the claim).  Item "a" converted to the
    archive model, whose column [note] declares the default ["n/a"] and has
    no counterpart among the fields of an item: the new instance holds
    [undefined] for [note], and the archived row holds NULL.  The fields the
    archive does not declare are not carried over, and the original row is
    gone. *)
Theorem convert_leaves_default_unused :
  exists saved s',
    convert (fun _ => None) items (create items item_a) archive (sys_of two_tables ∅ [])
    = (Ret (Some saved), s')
    /\ (default_value <$> archive_schema !! 2) = Some (Some (VText "n/a"))
    /\ prop saved "note" = VUndef
    /\ saved !! "download_url" = None
    /\ image s'
       = [ ("items", items_table []);
           ("archive", {| columns := [("id", TEXT); ("size", INTEGER); ("note", TEXT)];
                          records := [[VText "a"; VInt 10; VNull]] |}) ].
Proof.
  set (res := convert (fun _ => None) items (create items item_a) archive
                (sys_of two_tables ∅ [])).
  exists (match res.1 with Ret (Some saved) => saved | _ => ∅ end), res.2.
  by_running.
Qed.

(** C7 (the code departs from the claim).  Item "a" is converted to the
    archive model while the archive already stores a row under the key
    "a".  The save of the new instance finds that row, has no column that
    differs from its snapshot, and reports success without writing;
    [convert] then deletes the original.  The one statement that modifies
    storage is that delete: the archive still holds its old row, and the
    values of the original (size 10) are stored nowhere. *)
Theorem convert_deletes_unsaved_original :
  exists new s',
    convert (fun _ => None) items (create items item_a) archive (sys_of archived ∅ [])
    = (Ret (Some new), s')
    /\ prop new "size" = VInt 10
    /\ writes (log s') = [SDeleteWhere "items" "id" "=" (VText "a") (Some 1%Z)]
    /\ image s'
       = [ ("items", items_table []);
           ("archive", {| columns := [("id", TEXT); ("size", INTEGER); ("note", TEXT)];
                          records := [[VText "a"; VInt 99; VText "old"]] |}) ].
Proof.
  set (res := convert (fun _ => None) items (create items item_a) archive
                (sys_of archived ∅ [])).
  exists (match res.1 with Ret (Some new) => new | _ => ∅ end), res.2.
  by_running.
Qed.

(** ** Migration of storage that already conforms *)

Lemma reads_only_ret {A} (a : A) s (Q : A -> Prop) :
  no_faults s = true -> Q a -> reads_only (ret a) s Q.
Proof. intros Hnf HQ. exists a, s. repeat split; try done. by exists []. Qed.

Lemma reads_only_bind {A B} (c : M A) (k : A -> M B) s (Q : A -> Prop) (R : B -> Prop) :
  reads_only c s Q ->
  (forall a s', Q a -> image s' = image s -> no_faults s' = true -> reads_only (k a) s' R) ->
  reads_only (bind c k) s R.
Proof.
  intros (a & s1 & E1 & HQ & I1 & F1 & R1 & N1 & evs1 & L1 & W1) Hk.
  destruct (Hk a s1 HQ I1 N1) as (b & s2 & E2 & HR & I2 & F2 & R2 & N2 & evs2 & L2 & W2).
  exists b, s2. unfold bind. rewrite E1. repeat split; try congruence.
  exists (evs2 ++ evs1). split; [by rewrite L2, L1, app_assoc|].
  by rewrite writes_app, W1, W2.
Qed.

Lemma reads_only_weaken {A} (c : M A) s (Q R : A -> Prop) :
  reads_only c s Q -> (forall a, Q a -> R a) -> reads_only c s R.
Proof.
  intros (a & s1 & E1 & HQ & H) HQR. exists a, s1. split; [done|]. split; [by apply HQR|done].
Qed.

Lemma no_faults_next s : no_faults s = true -> next_fault s = false.
Proof. unfold no_faults, next_fault. destruct (faults s) as [|[] l]; cbn; congruence. Qed.

Lemma no_faults_step s img fs ev : no_faults s = true -> no_faults (step s img fs ev) = true.
Proof.
  unfold no_faults, step. cbn. destruct (faults s) as [|b l]; cbn; [done|].
  by intros [_ ?]%andb_true_iff.
Qed.

Lemma call_read st r s :
  no_faults s = true -> is_write st = false -> exec st (image s) = Some (image s, r) ->
  reads_only (call st) s (fun x => x = Some r).
Proof.
  intros Hnf Hw He. exists (Some r), (step s (image s) (files s) (EvExec st true)).
  unfold call. rewrite (no_faults_next s Hnf), He. repeat split.
  - by apply no_faults_step.
  - exists [EvExec st true]. split; [done|]. unfold writes. cbn. by rewrite Hw.
Qed.

Lemma db_get_name_read st ns s :
  no_faults s = true -> is_write st = false ->
  exec st (image s) = Some (image s, RNames ns) ->
  reads_only (db_get_name st) s (fun x => x = Some (head ns)).
Proof.
  intros Hnf Hw He. unfold db_get_name.
  eapply reads_only_bind; [by apply (call_read st (RNames ns))|].
  cbn. intros a s' -> _ Hnf'. by apply reads_only_ret.
Qed.

Lemma db_all_names_read st ns s :
  no_faults s = true -> is_write st = false ->
  exec st (image s) = Some (image s, RNames ns) ->
  reads_only (db_all_names st) s (fun x => x = Some ns).
Proof.
  intros Hnf Hw He. unfold db_all_names.
  eapply reads_only_bind; [by apply (call_read st (RNames ns))|].
  cbn. intros a s' -> _ Hnf'. by apply reads_only_ret.
Qed.

Lemma db_all_info_read st fs s :
  no_faults s = true -> is_write st = false ->
  exec st (image s) = Some (image s, RInfo fs) ->
  reads_only (db_all_info st) s (fun x => x = Some fs).
Proof.
  intros Hnf Hw He. unfold db_all_info.
  eapply reads_only_bind; [by apply (call_read st (RInfo fs))|].
  cbn. intros a s' -> _ Hnf'. by apply reads_only_ret.
Qed.

Lemma tableExists_reads t s :
  no_faults s = true ->
  reads_only (tableExists t) s
    (fun r => r = resp 200 (bool_decide (is_Some (lookup_table t (image s))))).
Proof.
  intros Hnf. unfold tableExists.
  eapply reads_only_bind; [by apply (db_get_name_read (SMasterHas t))|].
  cbn. intros a s' -> _ Hnf'. apply reads_only_ret; [done|].
  by destruct (lookup_table t (image s)).
Qed.

Lemma fieldExists_reads t f s :
  no_faults s = true ->
  reads_only (fieldExists t f) s
    (fun r => r = resp 200 (bool_decide (Exists (fun e => name e = f) (table_info t (image s))))).
Proof.
  intros Hnf. unfold fieldExists.
  eapply reads_only_bind; [by apply (db_all_info_read (STableInfo t))|].
  cbn. intros a s' -> _ Hnf'. by apply reads_only_ret.
Qed.

Lemma table_info_names t img tb :
  lookup_table t img = Some tb -> name <$> table_info t img = column_names tb.
Proof.
  intros H. unfold table_info, column_names. rewrite H, <- list_fmap_compose.
  by apply list_fmap_ext.
Qed.

Lemma Exists_name fs n : Exists (fun e : TableColumn => name e = n) fs <-> n ∈ name <$> fs.
Proof.
  rewrite Exists_exists, list_elem_of_fmap. split.
  - intros (e & He & <-). eauto.
  - intros (e & -> & He). eauto.
Qed.

Lemma renameField_reads t tb old_field new_field s :
  no_faults s = true -> lookup_table t (image s) = Some tb ->
  new_field ∈ column_names tb ->
  reads_only (renameField t old_field new_field) s (fun r => code r <> 500%Z).
Proof.
  intros Hnf Ht Hnew. unfold renameField.
  eapply reads_only_bind; [by apply fieldExists_reads|].
  cbn. intros r1 s1 -> I1 Hnf1.
  destruct (bool_decide (Exists _ _)) eqn:Hold; cbn.
  - eapply reads_only_bind; [by apply fieldExists_reads|].
    cbn. intros r2 s2 -> I2 Hnf2. rewrite I1.
    rewrite (bool_decide_eq_true_2 (Exists _ _)); cbn.
    + by apply reads_only_ret.
    + apply Exists_name. by rewrite (table_info_names _ _ _ Ht).
  - by apply reads_only_ret.
Qed.

Lemma rename_fields_reads t tb fields resolved s :
  no_faults s = true -> lookup_table t (image s) = Some tb ->
  Forall (fun f => name f ∈ column_names tb) fields ->
  reads_only (rename_fields t fields resolved) s (fun r => r = resolved).
Proof.
  revert s. induction fields as [|f fields IH]; intros s Hnf Ht Hall; cbn.
  - by apply reads_only_ret.
  - apply Forall_cons in Hall as [Hf Hall].
    destruct (truthy (old f)) as [old_field|]; [|by apply IH].
    eapply reads_only_bind; [by eapply renameField_reads|].
    cbn. intros r s' Hr I' Hnf'. rewrite decide_False by done.
    apply IH; [done|by rewrite I'|done].
Qed.

Lemma filter_none {A} (P : A -> Prop) `{forall x, Decision (P x)} (l : list A) :
  Forall (fun x => ~ P x) l -> filter P l = [].
Proof.
  intros Hall. apply elem_of_nil_inv. intros x [HP Hx]%list_elem_of_filter.
  rewrite Forall_forall in Hall. by apply (Hall x).
Qed.

Lemma table_conformant_elim this fields tb :
  table_conformant this fields tb = true ->
  Forall (fun f => name f ∈ column_names tb) fields
  /\ (delete_unused this = true -> Forall (fun n => n ∈ name <$> fields) (column_names tb))
  /\ (reorder this = true -> (name <$> fields) `prefix_of` column_names tb).
Proof.
  unfold table_conformant. intros [[H1 H2]%andb_true_iff H3]%andb_true_iff.
  apply bool_decide_eq_true_1 in H1. split; [done|]. split.
  - intros Hd. rewrite Hd in H2. cbn in H2. by apply bool_decide_eq_true_1 in H2.
  - intros Hr. rewrite Hr in H3. cbn in H3. by apply bool_decide_eq_true_1 in H3.
Qed.

Lemma addFields_reads this t tb fields s :
  no_faults s = true -> lookup_table t (image s) = Some tb ->
  table_conformant this fields tb = true ->
  reads_only (addFields t fields (delete_unused this)) s (fun r => r = resp 200 true).
Proof.
  intros Hnf Ht (Hall & Hdel & _)%table_conformant_elim. unfold addFields.
  eapply reads_only_bind; [by eapply rename_fields_reads|].
  cbn. intros r1 s1 -> I1 Hnf1.
  eapply reads_only_bind; [by apply (db_all_info_read (STableInfo t))|].
  cbn. intros r2 s2 -> I2 Hnf2. rewrite I1. fold (table_info t (image s)).
  rewrite (table_info_names _ _ _ Ht).
  rewrite (filter_none (fun e => name e ∉ column_names tb));
    [|eapply Forall_impl; [exact Hall|]; cbn; tauto].
  cbn. rewrite (bool_decide_eq_false_2 (0 <> 0)) by lia.
  eapply (reads_only_bind _ _ _ (fun r => r = None)); [by apply reads_only_ret|].
  cbn. intros r3 s3 -> I3 Hnf3.
  eapply (reads_only_bind _ _ _ (fun r => r = None)).
  - destruct (delete_unused this) eqn:Hd; cbn; [|by apply reads_only_ret].
    rewrite (filter_none (fun e => e ∉ name <$> fields));
      [|eapply Forall_impl; [by apply Hdel|]; cbn; tauto].
    cbn. rewrite (bool_decide_eq_false_2 (0 <> 0)) by lia. by apply reads_only_ret.
  - cbn. intros r4 s4 -> I4 Hnf4. by apply reads_only_ret.
Qed.

Lemma createTable_reads this t tb fields s :
  no_faults s = true -> lookup_table t (image s) = Some tb ->
  table_conformant this fields tb = true ->
  reads_only (createTable this t fields) s (fun r => r = resp 200 true).
Proof.
  intros Hnf Ht Hc. unfold createTable.
  eapply reads_only_bind; [by apply tableExists_reads|].
  cbn. intros r s1 -> I1 Hnf1. rewrite Ht. cbn.
  apply addFields_reads with tb; [done|by rewrite I1|done].
Qed.

Lemma every_match_prefix fields table_fields :
  (name <$> fields) `prefix_of` (name <$> table_fields) ->
  every_match fields table_fields = Some true.
Proof.
  revert table_fields. induction fields as [|e fields IH]; intros table_fields Hp; [done|].
  destruct table_fields as [|f table_fields]; cbn in *.
  - by apply prefix_nil_not in Hp.
  - apply prefix_cons_inv_1 in Hp as Hhd. apply prefix_cons_inv_2 in Hp.
    rewrite decide_True by done. by apply IH.
Qed.

Lemma reorderFields_reads this t tb fields s :
  no_faults s = true -> lookup_table t (image s) = Some tb ->
  reorder this = true -> table_conformant this fields tb = true ->
  reads_only (reorderFields this t fields) s (fun r => r = resp 200 false).
Proof.
  intros Hnf Ht Hr (_ & _ & Hpre)%table_conformant_elim. unfold reorderFields.
  eapply reads_only_bind; [by apply (db_all_info_read (STableInfo t))|].
  cbn. intros r1 s1 -> I1 Hnf1. fold (table_info t (image s)).
  rewrite every_match_prefix; [by apply reads_only_ret|].
  rewrite (table_info_names _ _ _ Ht). by apply Hpre.
Qed.

Lemma migrate_tables_reads this ts s :
  no_faults s = true ->
  forallb (fun d => match lookup_table d.1 (image s) with
                    | Some tb => table_conformant this d.2 tb
                    | None => false
                    end) ts = true ->
  reads_only (migrate_tables this ts) s (fun _ => True).
Proof.
  revert s. induction ts as [|[t fields] ts IH]; intros s Hnf Hall; cbn.
  - by apply reads_only_ret.
  - cbn in Hall. apply andb_true_iff in Hall as [Ht Hall].
    destruct (lookup_table t (image s)) as [tb|] eqn:Hlook; [|done].
    eapply reads_only_bind; [by eapply createTable_reads|].
    cbn. intros r1 s1 _ I1 Hnf1.
    eapply (reads_only_bind _ _ _ (fun _ => True)).
    + destruct (reorder this) eqn:Hr; [|by apply reads_only_ret].
      eapply reads_only_bind; [eapply reorderFields_reads; [done|by rewrite I1|done..]|].
      cbn. intros r2 s2 _ I2 Hnf2. by apply reads_only_ret.
    + cbn. intros [] s2 _ I2 Hnf2. apply IH; [done|]. by rewrite I2, I1.
Qed.

Lemma getTables_reads s :
  no_faults s = true ->
  reads_only getTables s (fun r => rows r = Some (image s).*1).
Proof.
  intros Hnf. unfold getTables.
  eapply reads_only_bind; [by apply (db_all_names_read SMasterNames)|].
  cbn. intros a s' -> _ Hnf'. by apply reads_only_ret.
Qed.

Lemma prune_tables_reads this listed s :
  no_faults s = true ->
  (delete_unused this = true -> forallb (declared this) listed = true) ->
  reads_only (prune_tables this listed) s (fun _ => True).
Proof.
  revert s. induction listed as [|t listed IH]; intros s Hnf Hall; cbn.
  - by apply reads_only_ret.
  - eapply (reads_only_bind _ _ _ (fun _ => True)).
    + destruct (delete_unused this); cbn; [|by apply reads_only_ret].
      specialize (Hall eq_refl). cbn in Hall. apply andb_true_iff in Hall as [-> _].
      by apply reads_only_ret.
    + cbn. intros [] s1 _ I1 Hnf1. apply IH; [done|].
      intros Hd. specialize (Hall Hd). cbn in Hall. by apply andb_true_iff in Hall as [_ ?].
Qed.

Lemma migrate_reads this s :
  no_faults s = true -> conformant this (image s) = true ->
  reads_only (migrate this) s (fun _ => True).
Proof.
  intros Hnf [Htables Hprune]%andb_true_iff. unfold migrate.
  eapply reads_only_bind; [by apply migrate_tables_reads|].
  cbn. intros [] s1 _ I1 Hnf1.
  eapply reads_only_bind; [by apply getTables_reads|].
  cbn. intros r s2 Hr I2 Hnf2. rewrite Hr. cbn.
  apply prune_tables_reads; [done|]. intros Hd. rewrite Hd in Hprune. by rewrite I1.
Qed.

(** C8.  [open] on storage that already conforms to the schema (every
    declared table exists with all its declared columns; in declared order
    at the front when reordering is on; with no other column or table when
    dropping is on), the engine not failing: it answers [{ code: 200,
    status: true }], storage is the same afterwards, and none of the
    statements it issued modifies storage: no rename, add, drop, rebuild or
    table drop. *)
Theorem open_again_changes_nothing (this : Database) (st : State) :
  no_faults (env st) = true ->
  conformant this (image (env st)) = true ->
  exists st',
    open this st = (Ret (resp 200 true), st')
    /\ image (env st') = image (env st)
    /\ exists evs, log (env st') = evs ++ log (env st) /\ writes evs = [].
Proof.
  intros Hnf Hconf.
  unfold open, lift, fs_mkdir, open_handle, in_callback, set_ready, set_backup_timer,
    set_vacuum_timer, ret, bind. cbn.
  rewrite (no_faults_next _ (no_faults_step _ _ _ _ Hnf)). cbn.
  match goal with
  | |- context [migrate this ?s] =>
      destruct (migrate_reads this s) as ([] & s3 & E & _ & I3 & _ & _ & _ & evs & L & W);
        [by do 2 apply no_faults_step|done|]
  end.
  rewrite E. cbn in *.
  destruct (backup_enabled this), (vacuum_enabled this); cbn;
    (eexists; split; [reflexivity|]; cbn; split; [done|];
     exists (evs ++ [EvOpenHandle (filename this) true; EvMkdir (DirNamed (directory this))]);
     split; [by rewrite L, <- app_assoc|]; by rewrite writes_app, W).
Qed.

(** The first [open] on the legacy storage renames, adds, drops, rebuilds
    the table in declared order and drops the stale table. *)
Example first_open_migrates :
  writes (log (env migrated))
  = [ SRenameColumn "items" "link" "download_url";
      SAddColumn "items" "steamd_id" TEXT;
      SDropColumn "items" "junk";
      SCreateTable "temp_42"
        [("id", TEXT); ("steamd_id", TEXT); ("download_url", TEXT); ("size", INTEGER)];
      SCopyInto "temp_42" ["id"; "steamd_id"; "download_url"; "size"] "items";
      SDropTable "items";
      SRenameTable "temp_42" "items";
      SDropTable "stale" ]
  /\ image (env migrated)
     = [("items", items_table [[VText "a"; VNull; VText "http://x"; VInt 10]])].
Proof. split; vm_compute; reflexivity. Qed.

Lemma open_again_changes_nothing_witness :
  no_faults (env migrated) = true
  /\ conformant renamed_db (image (env migrated)) = true
  /\ exists st',
       open renamed_db migrated = (Ret (resp 200 true), st')
       /\ image (env st') = image (env migrated)
       /\ exists evs, log (env st') = evs ++ log (env migrated) /\ writes evs = [].
Proof.
  assert (Hnf : no_faults (env migrated) = true) by (vm_compute; reflexivity).
  assert (Hc : conformant renamed_db (image (env migrated)) = true) by (vm_compute; reflexivity).
  split; [exact Hnf|]. split; [exact Hc|].
  exact (open_again_changes_nothing renamed_db migrated Hnf Hc).
Defined.

(** ** Migration of fresh storage *)

Lemma lookup_table_snoc img t tb t' :
  lookup_table t' (img ++ [(t, tb)])
  = match lookup_table t' img with
    | Some tb' => Some tb'
    | None => if decide (t = t') then Some tb else None
    end.
Proof.
  induction img as [|[n x] img IH]; cbn; [done|].
  destruct (decide (n = t')); [done|]. apply IH.
Qed.

Lemma lookup_created_None ts t : t ∉ ts.*1 -> lookup_table t (created ts) = None.
Proof.
  induction ts as [|[n fs] ts IH]; cbn; [done|].
  intros Hnin. apply not_elem_of_cons in Hnin as [Hne Hnin].
  rewrite decide_False by done. by apply IH.
Qed.

Lemma created_snoc ts d : created (ts ++ [d]) = created ts ++ [(d.1, created_table d.2)].
Proof. unfold created. by rewrite fmap_app. Qed.

Lemma created_table_names fields : column_names (created_table fields) = name <$> fields.
Proof.
  unfold column_names, created_table. cbn. rewrite <- list_fmap_compose.
  by apply list_fmap_ext.
Qed.

Lemma created_table_conformant this fields :
  table_conformant this fields (created_table fields) = true.
Proof.
  unfold table_conformant. rewrite created_table_names.
  rewrite !bool_decide_eq_true_2; [by rewrite !orb_true_r| done | |].
  - by apply Forall_forall.
  - apply Forall_forall. intros f Hf. by apply list_elem_of_fmap_2.
Qed.

Lemma createTable_fresh this t fields s :
  no_faults s = true -> lookup_table t (image s) = None ->
  fields <> [] -> NoDup (name <$> fields) ->
  exists s',
    createTable this t fields s = (Ret (resp 200 true), s')
    /\ image s' = image s ++ [(t, created_table fields)]
    /\ no_faults s' = true.
Proof.
  intros Hnf Hnone Hne Hnd.
  destruct (tableExists_reads t s Hnf) as (r & s1 & E1 & -> & I1 & _ & _ & Hnf1 & _).
  unfold createTable, bind. rewrite E1, Hnone.
  change (bool_decide (is_Some (@None Table))) with false.
  change (bool_decide (code (resp (R := Row) 200 false) <> 200%Z)) with false.
  change (succeeded (resp (R := Row) 200 false)) with false. cbn iota.
  unfold db_run, call, error_callback, ret, bind.
  rewrite (no_faults_next s1 Hnf1). cbn. rewrite I1, Hnone.
  rewrite bool_decide_eq_true_2.
  - eexists. split; [reflexivity|]. cbn. split; [done|].
    exact (no_faults_step s1 [] ∅ (EvError "") Hnf1).
  - split.
    + intros E. by apply fmap_nil_inv in E.
    + rewrite <- list_fmap_compose. by erewrite list_fmap_ext.
Qed.

Lemma migrate_tables_fresh this ts done s :
  no_faults s = true -> image s = created done ->
  well_declared (done ++ ts) ->
  exists s',
    migrate_tables this ts s = (Ret tt, s')
    /\ image s' = created (done ++ ts) /\ no_faults s' = true.
Proof.
  revert done s. induction ts as [|[t fields] ts IH]; intros done s Hnf Hi Hwd; cbn.
  - exists s. by rewrite app_nil_r.
  - pose proof Hwd as [Hnd Hall].
    assert (Ht : lookup_table t (image s) = None).
    { rewrite Hi. apply lookup_created_None.
      rewrite fmap_app in Hnd. apply NoDup_app in Hnd as (_ & Hdis & _).
      intros Hin. apply (Hdis t Hin). by left. }
    rewrite Forall_app, Forall_cons in Hall. destruct Hall as (_ & [Hne Hndf] & _).
    destruct (createTable_fresh this t fields s Hnf Ht Hne Hndf) as (s1 & E1 & I1 & Hnf1).
    unfold bind at 1. rewrite E1.
    assert (Hlook : lookup_table t (image s1) = Some (created_table fields)).
    { rewrite I1, lookup_table_snoc, Ht. by rewrite decide_True. }
    assert (Hstep : exists s2,
               (if reorder this
                then let* _ := reorderFields this t fields in ret tt
                else ret tt) s1 = (Ret tt, s2)
               /\ image s2 = image s1 /\ no_faults s2 = true).
    { destruct (reorder this) eqn:Hr; [|by exists s1].
      destruct (reorderFields_reads this t _ fields s1 Hnf1 Hlook Hr
                  (created_table_conformant this fields))
        as (r & s2 & E2 & _ & I2 & _ & _ & Hnf2 & _).
      exists s2. unfold bind. rewrite E2. by repeat split. }
    destruct Hstep as (s2 & E2 & I2 & Hnf2).
    unfold bind at 1. rewrite E2.
    destruct (IH (done ++ [(t, fields)]) s2 Hnf2) as (s3 & E3 & I3 & Hnf3).
    + by rewrite I2, I1, Hi, created_snoc.
    + by rewrite <- app_assoc.
    + exists s3. rewrite <- app_assoc in I3. done.
Qed.

Lemma created_names ts : (created ts).*1 = ts.*1.
Proof. unfold created. rewrite <- list_fmap_compose. by apply list_fmap_ext. Qed.

Lemma lookup_created ts t fields :
  NoDup ts.*1 -> (t, fields) ∈ ts ->
  lookup_table t (created ts) = Some (created_table fields).
Proof.
  induction ts as [|[n fs] ts IH]; intros Hnd Hin; cbn in *.
  - by apply elem_of_nil in Hin.
  - apply NoDup_cons in Hnd as [Hnin Hnd].
    apply elem_of_cons in Hin as [[= <- <-]|Hin].
    + by rewrite decide_True.
    + rewrite decide_False; [by apply IH|].
      intros ->. apply Hnin. by apply (list_elem_of_fmap_2 fst) in Hin.
Qed.

Lemma created_conformant this :
  NoDup (tables this).*1 -> conformant this (created (tables this)) = true.
Proof.
  intros Hnd. unfold conformant. apply andb_true_iff. split.
  - apply forallb_forall. intros [t fields] Hin%list_elem_of_In. cbn.
    rewrite (lookup_created _ t fields Hnd Hin). apply created_table_conformant.
  - apply orb_true_iff. right. rewrite created_names.
    apply forallb_forall. intros t Hin%list_elem_of_In.
    unfold declared. apply bool_decide_eq_true_2. by left.
Qed.

Lemma migrate_fresh this s :
  no_faults s = true -> image s = [] -> well_declared (tables this) ->
  exists s',
    migrate this s = (Ret tt, s') /\ image s' = created (tables this) /\ no_faults s' = true.
Proof.
  intros Hnf Hi Hwd.
  destruct (migrate_tables_fresh this (tables this) [] s Hnf Hi Hwd) as (s1 & E1 & I1 & Hnf1).
  change (created ([] ++ tables this)) with (created (tables this)) in I1.
  destruct (getTables_reads s1 Hnf1) as (r & s2 & E2 & Hr & I2 & _ & _ & Hnf2 & _).
  destruct (prune_tables_reads this (default [] (rows r)) s2 Hnf2)
    as ([] & s3 & E3 & _ & I3 & _ & _ & Hnf3 & _).
  { intros _. rewrite Hr, I1, created_names. cbn.
    apply forallb_forall. intros t Hin%list_elem_of_In.
    unfold declared. apply bool_decide_eq_true_2. by left. }
  exists s3. unfold migrate, bind. rewrite E1, E2, E3.
  split; [done|]. split; [congruence|done].
Qed.

Lemma open_fresh (this : Database) (st : State) :
  no_faults (env st) = true -> image (env st) = [] -> well_declared (tables this) ->
  exists st',
    open this st = (Ret (resp 200 true), st')
    /\ image (env st') = created (tables this) /\ no_faults (env st') = true.
Proof.
  intros Hnf Hi Hwd.
  unfold open, lift, fs_mkdir, open_handle, in_callback, set_ready, set_backup_timer,
    set_vacuum_timer, ret, bind. cbn.
  rewrite (no_faults_next _ (no_faults_step _ _ _ _ Hnf)). cbn.
  match goal with
  | |- context [migrate this ?s] =>
      destruct (migrate_fresh this s) as (s3 & E & I3 & Hnf3);
        [by do 2 apply no_faults_step|done|done|]
  end.
  rewrite E. cbn.
  destruct (backup_enabled this), (vacuum_enabled this); cbn;
    (eexists; split; [reflexivity|]; cbn; by split).
Qed.



Lemma vacuum_releases_signal_witness :
  busy first_backup = false
  /\ exists r st', vacuum first_backup = (Ret r, st') /\ busy st' = false.
Proof. split; [reflexivity|]. exact (vacuum_releases_signal first_backup eq_refl). Defined.

Lemma backup_cases_witness :
  busy failing_copy = false
  /\ exists r st',
       backup demo_db None failing_copy = (Ret r, st')
       /\ ((r = resp (-4082) false /\ busy st' = false
            /\ files (env st') = files (env failing_copy))
           \/ (r = resp 500 false /\ busy st' = true)
           \/ (r = resp 200 true /\ busy st' = false
               /\ files (env st') !! backup_filename demo_db
                  = Some (image (env failing_copy)))).
Proof. split; [reflexivity|]. exact (backup_cases demo_db None failing_copy eq_refl). Defined.

(** ** Serialisation ([toObject]) *)

Lemma fromEntries_foldl (entries : list (string * Value)) (acc : Row) k :
  foldl (fun o e => <[e.1 := e.2]> o) acc entries !! k
  = match last (filter (fun e => e.1 = k) entries) with
    | Some e => Some e.2
    | None => acc !! k
    end.
Proof.
  revert acc. induction entries as [|[n v] entries IH]; intros acc; [done|].
  cbn [foldl]. rewrite IH, filter_cons. cbn [fst snd].
  destruct (decide (n = k)) as [->|Hne].
  - destruct (filter _ entries) as [|e l] eqn:E; cbn.
    + apply lookup_insert_eq.
    + destruct (last (e :: l)) eqn:El; [done|]. by apply last_None in El.
  - by rewrite lookup_insert_ne.
Qed.

Lemma toObject_lookup m (this : Row) sensitive_too k :
  toObject m this sensitive_too !! k
  = if decide (k ∈ name <$> filter (fun col => sensitive_too || negb (sensitive col)) (schema m))
    then Some (prop this k) else None.
Proof.
  unfold toObject, fromEntries. rewrite fromEntries_foldl, lookup_empty.
  set (cols := filter _ (schema m)).
  destruct (last _) as [e|] eqn:E.
  - apply last_Some_elem_of in E. apply list_elem_of_filter in E as [Hk He].
    apply list_elem_of_fmap in He as (c & -> & Hc). cbn in *. subst k.
    rewrite decide_True; [done|]. by apply list_elem_of_fmap_2.
  - apply last_None in E. rewrite decide_False; [done|].
    intros (c & -> & Hc)%list_elem_of_fmap.
    eapply (filter_nil_not_elem_of _ _ (name c, prop this (name c)) E); [done|].
    by apply (list_elem_of_fmap_2 (fun col => (name col, prop this (name col)))).
Qed.



(* ================================================================= *)
(** * Further properties of the row access layer, the migration engine
      and the callers *)

(** ** Statements that the engine executes *)

Lemma call_ok st s img r :
  next_fault s = false -> exec st (image s) = Some (img, r) ->
  call st s = (Ret (Some r), step s img (files s) (EvExec st true)).
Proof. intros Hf He. unfold call. by rewrite Hf, He. Qed.

Lemma call_failed st s :
  next_fault s = true \/ exec st (image s) = None ->
  call st s = (Ret None, step s (image s) (files s) (EvExec st false)).
Proof.
  intros H. unfold call. destruct (next_fault s); [done|].
  destruct H as [? | ->]; done.
Qed.

Lemma lookup_replace_eq t tb' img :
  is_Some (lookup_table t img) -> lookup_table t (replace_table t tb' img) = Some tb'.
Proof.
  induction img as [|[n tb] img IH]; cbn; [by intros []|].
  destruct (decide (n = t)) as [->|Hne]; cbn.
  - by rewrite decide_True.
  - by rewrite decide_False.
Qed.

Lemma lookup_replace_ne t t' tb' img :
  t <> t' -> lookup_table t' (replace_table t tb' img) = lookup_table t' img.
Proof.
  intros Hne. induction img as [|[n tb] img IH]; cbn; [done|].
  destruct (decide (n = t)) as [->|Hn]; cbn.
  - by rewrite !decide_False.
  - destruct (decide (n = t')); done.
Qed.

Lemma ascii_compare_refl a : Ascii.compare a a = Eq.
Proof. unfold Ascii.compare. apply N.compare_refl. Qed.

Lemma string_compare_refl x : String.compare x x = Eq.
Proof. induction x as [|a x IH]; cbn; [done|]. by rewrite ascii_compare_refl. Qed.

Lemma sql_holds_same v :
  sql_value v <> VNull ->
  sql_holds (fun c => bool_decide (c = Eq)) (sql_value v) v = true.
Proof.
  destruct v as [| |n|x|o]; cbn; try done; intros _; unfold sql_holds, sql_compare; cbn.
  - by rewrite Z.compare_refl.
  - by rewrite string_compare_refl.
  - by rewrite string_compare_refl.
Qed.

Lemma index_of_lookup f names i :
  index_of f names = Some i -> names !! i = Some f.
Proof.
  revert i. induction names as [|n names IH]; intros i; cbn; [done|].
  destruct (decide (n = f)) as [->|Hne].
  - by intros [= <-].
  - destruct (index_of f names) as [j|]; cbn; [|done]. intros [= <-]. by apply IH.
Qed.

Lemma index_of_elem f names : f ∈ names -> is_Some (index_of f names).
Proof.
  induction names as [|n names IH]; [by intros ?%elem_of_nil|].
  cbn. destruct (decide (n = f)); [by eexists|].
  intros [?|H]%elem_of_cons; [congruence|]. destruct (IH H) as [j ->]. by eexists.
Qed.

Lemma index_of_NoDup names i f :
  NoDup names -> names !! i = Some f -> index_of f names = Some i.
Proof.
  intros Hnd. revert i. induction Hnd as [|n names Hnin Hnd IH]; intros i; [done|].
  destruct i as [|i]; cbn.
  - intros [= ->]. by rewrite decide_True.
  - intros Hi. rewrite decide_False.
    + by rewrite (IH i Hi).
    + intros ->. apply Hnin. by eapply list_elem_of_lookup_2.
Qed.

(** ** Row objects *)

Lemma fromEntries_zip_other (names : list string) (r : list Value) (acc : Row) k :
  k ∉ names -> foldl (fun o e => <[e.1 := e.2]> o) acc (zip names r) !! k = acc !! k.
Proof.
  revert r acc. induction names as [|n names IH]; intros r acc Hk; [done|].
  destruct r as [|v r]; [done|]. cbn.
  apply not_elem_of_cons in Hk as [Hne Hk].
  rewrite IH by done. by rewrite lookup_insert_ne.
Qed.

Lemma fromEntries_zip_lookup (names : list string) (r : list Value) (acc : Row) i k :
  NoDup names -> names !! i = Some k ->
  foldl (fun o e => <[e.1 := e.2]> o) acc (zip names r) !! k
  = match r !! i with Some v => Some v | None => acc !! k end.
Proof.
  intros Hnd. revert r acc i.
  induction Hnd as [|n names Hnin Hnd IH]; intros r acc i Hi; [done|].
  destruct r as [|v r]; [by destruct i|].
  destruct i as [|i]; cbn in *.
  - injection Hi as ->. rewrite fromEntries_zip_other by done. apply lookup_insert_eq.
  - rewrite (IH r _ i Hi). destruct (r !! i); [done|].
    rewrite lookup_insert_ne; [done|]. intros ->. apply Hnin.
    by eapply list_elem_of_lookup_2.
Qed.

Lemma row_object_lookup tb r i k :
  NoDup (column_names tb) -> column_names tb !! i = Some k ->
  row_object tb r !! k = r !! i.
Proof.
  intros Hnd Hi. unfold row_object, fromEntries.
  rewrite (fromEntries_zip_lookup _ _ _ i) by done.
  by destruct (r !! i).
Qed.

(** ** [find] *)

Lemma getRow_run table field v s tb i :
  next_fault s = false ->
  lookup_table table (image s) = Some tb ->
  index_of field (column_names tb) = Some i ->
  getRow table field v None s
  = (Ret (Build_ApiResponse 200%Z None None None
            (row_object tb <$> head (rows_where (image s) table field v)) None),
     step s (image s) (files s)
       (EvExec (SSelect table (Some (field, "=", v)) (Some 1%Z)) true)).
Proof.
  intros Hf Ht Hi. unfold getRow, getRows, db_all.
  cbn [operator_text truthy]. rewrite decide_False by done.
  rewrite !bind_unfold.
  erewrite call_ok; [|done|].
  2:{ cbn. rewrite Ht. cbn. unfold where_filter. rewrite Hi, sql_operator_eq. cbn. reflexivity. }
  cbn. unfold ret. do 3 f_equal.
  unfold rows_where. rewrite Ht, Hi.
  by destruct (List.filter _ (records tb)).
Qed.

Lemma find_run m pk v s tb i :
  truthy (primaryKey m) = Some pk ->
  next_fault s = false ->
  lookup_table (tableName m) (image s) = Some tb ->
  index_of pk (column_names tb) = Some i ->
  find m v s
  = (Ret (fromObject m <$> (row_object tb <$> head (rows_where (image s) (tableName m) pk v))),
     step s (image s) (files s)
       (EvExec (SSelect (tableName m) (Some (pk, "=", v)) (Some 1%Z)) true)).
Proof.
  intros Hpk Hf Ht Hi. unfold find. rewrite Hpk, bind_unfold.
  rewrite (getRow_run _ _ _ _ tb i) by done. cbn [row].
  by destruct (head _).
Qed.

(** ** Saving an instance *)

Lemma valueExists_run table field v s tb i :
  next_fault s = false ->
  lookup_table table (image s) = Some tb ->
  index_of field (column_names tb) = Some i ->
  valueExists table field v None s
  = (Ret (resp 200 (bool_decide (rows_where (image s) table field v <> []))),
     step s (image s) (files s) (EvExec (SProbe table field "=" v) true)).
Proof.
  intros Hf Ht Hi. unfold valueExists, db_get. cbn [operator_text truthy].
  rewrite !bind_unfold.
  erewrite call_ok; [|done|].
  2:{ cbn. rewrite Ht. cbn. unfold where_filter. rewrite Hi, sql_operator_eq. cbn. reflexivity. }
  cbn. unfold ret. do 3 f_equal.
  unfold rows_where. rewrite Ht, Hi.
  by destruct (List.filter _ (records tb)).
Qed.

Lemma addValues_run table args s tb :
  next_fault s = false ->
  lookup_table table (image s) = Some tb ->
  length args = length (columns tb) ->
  addValues table args s
  = (Ret (resp_changes 200 true 1),
     step s (replace_table table {| columns := columns tb;
                                    records := records tb ++ [sql_value <$> args] |} (image s))
       (files s) (EvExec (SInsert table args) true)).
Proof.
  intros Hf Ht Hl. unfold addValues, db_run. rewrite !bind_unfold.
  erewrite call_ok; [|done|].
  2:{ cbn. unfold with_table. rewrite Ht. cbn. rewrite decide_True by done. cbn. reflexivity. }
  reflexivity.
Qed.

Lemma rows_where_replace table field v img tb tb' i :
  lookup_table table img = Some tb ->
  column_names tb' = column_names tb ->
  index_of field (column_names tb) = Some i ->
  rows_where (replace_table table tb' img) table field v
  = List.filter (fun r => sql_holds (fun c => bool_decide (c = Eq)) (cell r i) v) (records tb').
Proof.
  intros Ht Hc Hi. unfold rows_where.
  rewrite lookup_replace_eq by (by eexists). by rewrite Hc, Hi.
Qed.

Lemma save_inserts (ToNumber : string -> option Z) (m : ModelClass) (this : Row)
    (s : Sys) (pk : string) (tb : Table) :
  truthy (primaryKey m) = Some pk ->
  NoDup (name <$> schema m) ->
  this !! "_db" = Some (VObject dbInstance) ->
  no_faults s = true ->
  lookup_table (tableName m) (image s) = Some tb ->
  column_names tb = name <$> schema m ->
  sql_value (prop this pk) <> VNull ->
  rows_where (image s) (tableName m) pk (prop this pk) = [] ->
  let args := (fun col => prop this (name col)) <$> schema m in
  let tb' := {| columns := columns tb; records := records tb ++ [sql_value <$> args] |} in
  exists s1 i,
    save ToNumber m this s
    = (Ret (resp_changes 200 true 1, refresh (changed ToNumber m this) this), s1)
    /\ image s1 = replace_table (tableName m) tb' (image s)
    /\ no_faults s1 = true
    /\ index_of pk (column_names tb) = Some i
    /\ rows_where (image s1) (tableName m) pk (prop this pk) = [sql_value <$> args].
Proof.
  intros Hpk Hnd Hdb Hnf Ht Hnames Hkey Hnone args tb'.
  destruct (primaryKey_column m pk Hpk) as (cpk & Hcpk & _ & Hname).
  destruct (index_of_elem pk (column_names tb)) as [i Hi].
  { rewrite Hnames, <- Hname. by apply list_elem_of_fmap_2. }
  pose proof (no_faults_next s Hnf) as Hf.
  set (s0 := step s (image s) (files s)
               (EvExec (SProbe (tableName m) pk "=" (prop this pk)) true)).
  set (s1 := step s0 (replace_table (tableName m) tb' (image s0)) (files s0)
               (EvExec (SInsert (tableName m) args) true)).
  assert (Hnf0 : no_faults s0 = true) by (by apply no_faults_step).
  assert (Hnf1 : no_faults s1 = true) by (by apply no_faults_step).
  assert (Hargs : args !! i = Some (prop this pk)).
  { apply index_of_lookup in Hi. rewrite Hnames in Hi.
    apply list_lookup_fmap_Some in Hi as (c & Hc & Hic).
    unfold args. rewrite list_lookup_fmap, Hic. cbn. by rewrite Hc. }
  exists s1, i. split; [|split; [done|split; [done|split; [done|]]]].
  - unfold save. rewrite Hpk, !via_db_holds by done. rewrite bind_unfold.
    rewrite (valueExists_run _ _ _ _ tb i) by done.
    rewrite (bool_decide_eq_false_2 (rows_where _ _ _ _ <> [])) by (rewrite Hnone; auto).
    change (succeeded (resp 200 false)) with false. cbn [negb].
    rewrite bind_unfold. fold args.
    rewrite (addValues_run _ _ s0 tb); [done|by apply no_faults_next|done|].
    unfold args. rewrite length_fmap. unfold column_names in Hnames.
    by rewrite <- (length_fmap fst (columns tb)), Hnames, length_fmap.
  - unfold s1. cbn [image step].
    rewrite (rows_where_replace _ _ _ _ tb tb' i) by done.
    cbn [records tb']. rewrite List.filter_app.
    unfold rows_where in Hnone. rewrite Ht, Hi in Hnone. rewrite Hnone. cbn.
    unfold cell. rewrite list_lookup_fmap, Hargs. cbn.
    by rewrite sql_holds_same.
Qed.

(** An instance whose key is not stored is inserted by [save], and [find]
    by that key then answers an instance with the same value in every
    declared column, [undefined] read back as [null].  The columns have
    distinct names, none of them reserved or the name of a snapshot; the
    table has the declared columns in declared order, the values are of
    the storage class their columns declare, and the key is not [null]. *)
Theorem save_then_find (ToNumber : string -> option Z) (m : ModelClass) (this : Row)
    (s : Sys) (pk : string) (tb : Table) :
  truthy (primaryKey m) = Some pk ->
  well_named (schema m) ->
  NoDup (name <$> schema m) ->
  plain (schema m) ->
  instance_of m this ->
  no_faults s = true ->
  lookup_table (tableName m) (image s) = Some tb ->
  columns tb = columns (created_table (schema m)) ->
  storable (schema m) this = true ->
  sql_value (prop this pk) <> VNull ->
  rows_where (image s) (tableName m) pk (prop this pk) = [] ->
  exists this' s1 found s2,
    save ToNumber m this s = (Ret (resp_changes 200 true 1, this'), s1)
    /\ find m (prop this pk) s1 = (Ret (Some found), s2)
    /\ (forall col, col ∈ schema m -> prop found (name col) = sql_value (prop this (name col)))
    /\ changed ToNumber m found = [].
Proof.
  intros Hpk Hwn Hnd _ [Hdb _] Hnf Ht Hcols _ Hkey Hnone.
  assert (Hnames : column_names tb = name <$> schema m).
  { unfold column_names. rewrite Hcols. cbn. by rewrite <- list_fmap_compose. }
  set (args := (fun col => prop this (name col)) <$> schema m).
  set (tb' := {| columns := columns tb; records := records tb ++ [sql_value <$> args] |}).
  destruct (save_inserts ToNumber m this s pk tb Hpk Hnd Hdb Hnf Ht Hnames Hkey Hnone)
    as (s1 & i & Hsave & I1 & Hnf1 & Hi & Hrows).
  fold args tb' in I1, Hrows.
  exists (refresh (changed ToNumber m this) this), s1.
  exists (fromObject m (row_object tb' (sql_value <$> args))).
  eexists. split; [exact Hsave|]. split.
  { rewrite (find_run m pk _ s1 tb' i); [|done|by apply no_faults_next| |done].
    - rewrite Hrows. reflexivity.
    - rewrite I1. apply lookup_replace_eq. by eexists. }
  split.
  - intros col Hc. rewrite fromObject_prop by done.
    apply list_elem_of_lookup in Hc as [j Hj].
    unfold get. rewrite (row_object_lookup tb' _ j).
    + rewrite list_lookup_fmap. unfold args. rewrite list_lookup_fmap, Hj. done.
    + change (column_names tb') with (column_names tb). by rewrite Hnames.
    + change (column_names tb') with (column_names tb).
      by rewrite Hnames, list_lookup_fmap, Hj.
  - apply changed_create. done.
Qed.



Lemma save_then_find_witness :
  let s := sys_of two_tables ∅ [] in
  let this := create items [VText "b"; VText "2"; VText "http://z"; VInt 5] in
  truthy (primaryKey items) = Some "id"
  /\ well_named (schema items)
  /\ NoDup (name <$> schema items)
  /\ plain (schema items)
  /\ instance_of items this
  /\ no_faults s = true
  /\ lookup_table "items" (image s) = Some (items_table [item_a])
  /\ columns (items_table [item_a]) = columns (created_table (schema items))
  /\ storable (schema items) this = true
  /\ sql_value (prop this "id") <> VNull
  /\ rows_where (image s) "items" "id" (prop this "id") = []
  /\ exists this' s1 found s2,
       save (fun _ => None) items this s = (Ret (resp_changes 200 true 1, this'), s1)
       /\ find items (prop this "id") s1 = (Ret (Some found), s2)
       /\ (forall col, col ∈ schema items ->
             prop found (name col) = sql_value (prop this (name col)))
       /\ changed (fun _ => None) items found = [].
Proof.
  assert (H1 : truthy (primaryKey items) = Some "id") by reflexivity.
  assert (H2 : well_named (schema items)) by by_running.
  assert (H3 : NoDup (name <$> schema items)) by by_running.
  assert (Hp : plain (schema items)) by by_running.
  assert (Hi : instance_of items
                 (create items [VText "b"; VText "2"; VText "http://z"; VInt 5]))
    by by_running.
  assert (H4 : no_faults (sys_of two_tables ∅ []) = true) by reflexivity.
  assert (H5 : lookup_table (tableName items) (image (sys_of two_tables ∅ []))
               = Some (items_table [item_a])) by reflexivity.
  assert (H6 : columns (items_table [item_a]) = columns (created_table (schema items)))
    by reflexivity.
  assert (H7 : storable (schema items)
                 (create items [VText "b"; VText "2"; VText "http://z"; VInt 5]) = true)
    by (vm_compute; reflexivity).
  assert (H8 : sql_value (prop (create items [VText "b"; VText "2"; VText "http://z"; VInt 5])
                            "id") <> VNull) by (vm_compute; discriminate).
  assert (H9 : rows_where (image (sys_of two_tables ∅ [])) (tableName items) "id"
                 (prop (create items [VText "b"; VText "2"; VText "http://z"; VInt 5]) "id")
               = []) by (vm_compute; reflexivity).
  repeat (split; [assumption|]).
  exact (save_then_find (fun _ => None) items _ _ "id" _ H1 H2 H3 Hp Hi H4 H5 H6 H7 H8 H9).
Defined.

(** ** Moving rows *)

Lemma matching_from_ge p k rs j : j ∈ matching_from p k rs -> k <= j.
Proof.
  revert k. induction rs as [|r rs IH]; intros k; cbn; [by intros ?%elem_of_nil|].
  destruct (p r).
  - intros [->|H]%elem_of_cons; [lia|]. apply IH in H. lia.
  - intros H. apply IH in H. lia.
Qed.

Lemma matching_from_length p k rs :
  length (matching_from p k rs) = length (List.filter p rs).
Proof.
  revert k. induction rs as [|r rs IH]; intros k; cbn; [done|].
  destruct (p r); cbn; by rewrite IH.
Qed.

Lemma remove_at_none k hits rs :
  (forall j, j ∈ hits -> j < k) -> remove_at k hits rs = rs.
Proof.
  revert k. induction rs as [|r rs IH]; intros k H; cbn; [done|].
  rewrite decide_False.
  - f_equal. apply IH. intros j Hj. apply H in Hj. lia.
  - intros Hk. apply H in Hk. lia.
Qed.

Lemma remove_at_skip k j hits rs :
  j < k -> remove_at k (j :: hits) rs = remove_at k hits rs.
Proof.
  revert k. induction rs as [|r rs IH]; intros k Hj; cbn; [done|].
  rewrite (IH (S k)) by lia.
  destruct (decide (k ∈ hits)) as [Hin|Hnin].
  - rewrite decide_True; [done|]. by right.
  - rewrite decide_False; [done|]. intros [->|?]%elem_of_cons; [lia|done].
Qed.

Lemma remove_at_take p n k rs :
  remove_at k (take n (matching_from p k rs)) rs ++ take n (List.filter p rs) ≡ₚ rs.
Proof.
  revert n k. induction rs as [|r rs IH]; intros n k; cbn.
  { by rewrite take_nil. }
  destruct (p r) eqn:Hp.
  - destruct n as [|n]; cbn.
    + rewrite decide_False by (by intros ?%elem_of_nil).
      rewrite remove_at_none by (by intros j ?%elem_of_nil). by rewrite app_nil_r.
    + rewrite decide_True by (by left).
      rewrite remove_at_skip by lia.
      rewrite <- Permutation_middle. by rewrite IH.
  - rewrite decide_False.
    + cbn. by rewrite IH.
    + intros Hk%elem_of_take. destruct Hk as (i & Hk & _).
      apply list_elem_of_lookup_2, matching_from_ge in Hk. lia.
Qed.

Lemma filter_length_le {A} (p : A -> bool) l : length (List.filter p l) <= length l.
Proof. induction l as [|a l IH]; cbn; [done|]. destruct (p a); cbn; lia. Qed.

Lemma remove_at_limit p limit rs :
  remove_at 0 (limit_rows limit (matching_from p 0 rs)) rs
    ++ limit_rows limit (List.filter p rs) ≡ₚ rs.
Proof.
  assert (Hall : remove_at 0 (matching_from p 0 rs) rs ++ List.filter p rs ≡ₚ rs).
  { pose proof (remove_at_take p (length rs) 0 rs) as H.
    rewrite !take_ge in H; [done|apply filter_length_le|].
    rewrite matching_from_length. apply filter_length_le. }
  destruct limit as [z|]; cbn; [|done].
  destruct (decide (0 <= z)%Z); [apply remove_at_take|done].
Qed.

Lemma deleteRows_run table field v equality limit s tb p :
  next_fault s = false ->
  lookup_table table (image s) = Some tb ->
  where_filter tb field (operator_text equality) v = Some p ->
  let hits := limit_rows limit (matching_from p 0 (records tb)) in
  deleteRows table field v equality limit s
  = (Ret (resp_changes 200 (bool_decide (0 < length hits)) (length hits)),
     step s (replace_table table {| columns := columns tb;
                                    records := remove_at 0 hits (records tb) |} (image s))
       (files s)
       (EvExec (SDeleteWhere table field (operator_text equality) v limit) true)).
Proof.
  intros Hf Ht Hp hits. unfold deleteRows, db_run. rewrite !bind_unfold.
  erewrite call_ok; [|done|].
  2:{ cbn. unfold with_table. rewrite Ht. cbn. rewrite Hp. cbn. reflexivity. }
  reflexivity.
Qed.

(** [moveRows] between two tables that declare the same types, column by
    column: the rows selected by the condition and the limit are appended
    to the destination in storage order, the source keeps the others, no
    row is lost or duplicated, and the answer counts the rows moved.  The
    value compared is of the storage class of the column. *)
Theorem moveRows_moves (from_table to_table field : string) (v : Value)
    (equality : option string) (limit : option Z) (s : Sys) (src dst : Table)
    (p : list Value -> bool) :
  no_faults s = true ->
  from_table <> to_table ->
  lookup_table from_table (image s) = Some src ->
  lookup_table to_table (image s) = Some dst ->
  (columns src).*2 = (columns dst).*2 ->
  fits_column src field v = true ->
  where_filter src field (operator_text equality) v = Some p ->
  let moved := limit_rows limit (List.filter p (records src)) in
  exists s' src',
    moveRows from_table to_table field v equality limit s
    = (Ret (resp_changes 200 (bool_decide (0 < length moved)) (length moved)), s')
    /\ lookup_table to_table (image s')
       = Some {| columns := columns dst; records := records dst ++ moved |}
    /\ lookup_table from_table (image s') = Some src'
    /\ columns src' = columns src
    /\ records src' ++ moved ≡ₚ records src.
Proof.
  intros Hnf Hne Hsrc Hdst Htypes _ Hp moved.
  assert (Hlen : length (columns src) = length (columns dst)).
  { by rewrite <- (length_fmap snd (columns src)), Htypes, length_fmap. }
  set (dst' := {| columns := columns dst; records := records dst ++ moved |}).
  set (st := SInsertSelect to_table from_table field (operator_text equality) v limit).
  set (s1 := step s (replace_table to_table dst' (image s)) (files s) (EvExec st true)).
  assert (Hnf1 : no_faults s1 = true) by (by apply no_faults_step).
  assert (Hsrc1 : lookup_table from_table (image s1) = Some src).
  { unfold s1. cbn [image step]. rewrite lookup_replace_ne by done. done. }
  set (hits := limit_rows limit (matching_from p 0 (records src))).
  assert (Hhits : length hits = length moved).
  { unfold hits, moved. destruct limit as [z|]; cbn.
    - destruct (decide (0 <= z)%Z); [|apply matching_from_length].
      by rewrite !length_take, matching_from_length.
    - apply matching_from_length. }
  set (src' := {| columns := columns src; records := remove_at 0 hits (records src) |}).
  exists (step s1 (replace_table from_table src' (image s1)) (files s1)
            (EvExec (SDeleteWhere from_table field (operator_text equality) v limit) true)),
    src'.
  split; [|split; [|split; [|split]]].
  - unfold moveRows, db_run. rewrite !bind_unfold.
    erewrite call_ok; [|by apply no_faults_next|].
    2:{ cbn. rewrite Hsrc. cbn. rewrite Hp. cbn. unfold with_table. rewrite Hdst. cbn.
        rewrite decide_True by done. cbn. reflexivity. }
    cbn [ret]. rewrite bind_unfold. unfold ret at 1. cbn [code resp_changes].
    rewrite bool_decide_eq_false_2 by (intros H; by apply H).
    fold st dst' s1.
    rewrite (deleteRows_run _ _ _ _ _ s1 src p); [|by apply no_faults_next|done|done].
    fold hits src'. by rewrite Hhits.
  - cbn [image step]. rewrite lookup_replace_ne by done.
    apply lookup_replace_eq. by eexists.
  - cbn [image step]. apply lookup_replace_eq. by eexists.
  - done.
  - apply remove_at_limit.
Qed.

(** When the engine does not execute the insert of [moveRows] (the
    destination is missing or has another number of columns, or the call
    fails), the method answers 500 after reporting the error, storage is
    as before, and no delete is handed to the engine. *)
Theorem moveRows_failed_insert (from_table to_table field : string) (v : Value)
    (equality : option string) (limit : option Z) (s : Sys) :
  let st := SInsertSelect to_table from_table field (operator_text equality) v limit in
  next_fault s = true \/ exec st (image s) = None ->
  exists s',
    moveRows from_table to_table field v equality limit s
    = (Ret (resp_changes 500 false 0), s')
    /\ image s' = image s
    /\ log s' = [EvError "moveRows"; EvExec st false] ++ log s.
Proof.
  intros st Hfail. unfold moveRows, db_run. rewrite !bind_unfold.
  rewrite call_failed by done. cbn.
  eexists. repeat split.
Qed.

(** ** Reordering the columns of a table *)

Lemma every_match_mismatch fields table_fields :
  NoDup (name <$> fields) ->
  Forall (fun e => name e ∈ name <$> table_fields) fields ->
  ~ (name <$> fields) `prefix_of` (name <$> table_fields) ->
  every_match fields table_fields = Some false.
Proof.
  revert table_fields. induction fields as [|e fields IH]; intros tf Hnd Hall Hnp.
  { destruct Hnp. apply prefix_nil. }
  apply Forall_cons in Hall as [He Hall]. rewrite fmap_cons in Hnd.
  apply NoDup_cons in Hnd as [Hnin Hnd].
  destruct tf as [|f tf]; [by apply elem_of_nil in He|]. cbn.
  destruct (decide (name f = name e)) as [E|]; [|done].
  apply IH; [done| |].
  - apply Forall_forall. intros x Hx.
    pose proof (proj1 (Forall_forall _ _) Hall x Hx) as Hin. cbn in Hin.
    apply elem_of_cons in Hin as [Hin|Hin]; [|done].
    destruct Hnin. rewrite <- E, <- Hin. by apply list_elem_of_fmap_2.
  - intros Hp. apply Hnp. rewrite !fmap_cons, E. by apply prefix_cons.
Qed.

Lemma filter_all {A} (P : A -> Prop) `{forall x, Decision (P x)} (l : list A) :
  Forall P l -> filter P l = l.
Proof.
  induction 1 as [|x l Hx Hl IH]; [done|]. rewrite filter_cons_True by done. by rewrite IH.
Qed.

Lemma splice_first_spec n tf f tf' :
  splice_first n tf = Some (f, tf') ->
  name f = n /\ f ∈ tf /\ tf ≡ₚ f :: tf'
  /\ (NoDup (name <$> tf) -> name <$> tf' = filter (fun k => k <> n) (name <$> tf)).
Proof.
  revert f tf'. induction tf as [|g tf IH]; intros f tf'; cbn [splice_first]; [done|].
  destruct (decide (name g = n)) as [E|Hne].
  - intros [= <- <-]. split; [done|]. split; [by left|]. split; [done|].
    rewrite fmap_cons. intros [Hnin Hnd]%NoDup_cons.
    rewrite filter_cons_False by (intros H; by apply H).
    symmetry. apply filter_all. apply Forall_forall. intros k Hk ->. by rewrite E in Hnin.
  - intros Hs. destruct (splice_first n tf) as [[g' rest]|] eqn:Es; cbn in Hs; [|done].
    injection Hs as <- <-. destruct (IH g' rest eq_refl) as (Hn & Hin & Hperm & Hnames).
    split; [done|]. split; [by right|]. split.
    + rewrite Hperm. apply perm_swap.
    + rewrite !fmap_cons. intros [Hnin Hnd]%NoDup_cons. rewrite filter_cons_True by done.
      by rewrite Hnames.
Qed.

Lemma splice_first_found n tf :
  n ∈ name <$> tf -> is_Some (splice_first n tf).
Proof.
  induction tf as [|g tf IH]; cbn; [by intros ?%elem_of_nil|].
  destruct (decide (name g = n)); [by eexists|].
  intros [?|Hin]%elem_of_cons; [congruence|].
  destruct (IH Hin) as [[f rest] ->]. by eexists.
Qed.

Lemma splice_fields_spec fields :
  forall tf picked leftover,
    splice_fields fields tf = (picked, leftover) ->
    NoDup (name <$> fields) ->
    NoDup (name <$> tf) ->
    Forall (fun e => name e ∈ name <$> tf) fields ->
    exists fs,
      picked = Some <$> fs
      /\ name <$> fs = name <$> fields
      /\ fs ++ leftover ≡ₚ tf
      /\ name <$> leftover = filter (fun k => k ∉ name <$> fields) (name <$> tf).
Proof.
  induction fields as [|e fields IH]; intros tf picked leftover Hs Hnd Hndt Hall.
  { cbn in Hs. injection Hs as <- <-. exists []. repeat split; [done|].
    symmetry. apply filter_all. apply Forall_forall. by intros k _ ?%elem_of_nil. }
  apply Forall_cons in Hall as [He Hall]. rewrite fmap_cons in Hnd.
  apply NoDup_cons in Hnd as [Hnin Hnd].
  destruct (splice_first_found _ _ He) as [[f tf'] Ef].
  cbn in Hs. rewrite Ef in Hs.
  destruct (splice_fields fields tf') as [picked' leftover'] eqn:Er.
  injection Hs as <- <-.
  destruct (splice_first_spec _ _ _ _ Ef) as (Hn & Hin & Hperm & Hnames).
  specialize (Hnames Hndt).
  destruct (IH tf' picked' leftover' Er Hnd) as (fs & -> & Hfs & Hp & Hl).
  - rewrite Hnames. by apply NoDup_filter.
  - apply Forall_forall. intros x Hx. rewrite Hnames. apply list_elem_of_filter. split.
    + intros E. apply Hnin. rewrite <- E. by apply list_elem_of_fmap_2.
    + exact (proj1 (Forall_forall _ _) Hall x Hx).
  - exists (f :: fs). split; [done|]. split; [by rewrite !fmap_cons, Hn, Hfs|]. split.
    + cbn. by rewrite Hp, Hperm.
    + rewrite Hl, Hnames, list_filter_filter. apply list_filter_iff.
      intros k. rewrite fmap_cons, not_elem_of_cons. tauto.
Qed.

Lemma mapM_id_Some {A} (l : list A) : mapM id (Some <$> l) = Some l.
Proof. by apply mapM_fmap_Some. Qed.

Lemma replace_table_snoc t tb tb' img :
  lookup_table t img = None -> replace_table t tb' (img ++ [(t, tb)]) = img ++ [(t, tb')].
Proof.
  induction img as [|[n x] img IH]; cbn.
  - intros _. by rewrite decide_True.
  - destruct (decide (n = t)); [done|]. intros H. by rewrite IH.
Qed.

Lemma remove_table_snoc t x img :
  is_Some (lookup_table t img) -> remove_table t (img ++ [x]) = remove_table t img ++ [x].
Proof.
  induction img as [|[n y] img IH]; cbn; [by intros []|].
  destruct (decide (n = t)); [done|]. intros H. by rewrite IH.
Qed.

Lemma retitle_table_snoc t t' tb img :
  lookup_table t img = None -> retitle_table t t' (img ++ [(t, tb)]) = img ++ [(t', tb)].
Proof.
  induction img as [|[n x] img IH]; cbn.
  - intros _. by rewrite decide_True.
  - destruct (decide (n = t)); [done|]. intros H. by rewrite IH.
Qed.

Lemma lookup_table_None t img : lookup_table t img = None <-> t ∉ img.*1.
Proof.
  induction img as [|[n x] img IH]; cbn.
  - split; [by intros _ ?%elem_of_nil|done].
  - rewrite not_elem_of_cons. destruct (decide (n = t)) as [->|Hne].
    + split; [done|]. by intros [? _].
    + rewrite IH. split; [by split|by intros [_ ?]].
Qed.

Lemma lookup_remove_eq t img :
  NoDup img.*1 -> lookup_table t (remove_table t img) = None.
Proof.
  induction img as [|[n x] img IH]; cbn; [done|].
  intros [Hnin Hnd]%NoDup_cons. destruct (decide (n = t)) as [->|Hne].
  - by apply lookup_table_None.
  - cbn. rewrite decide_False by done. by apply IH.
Qed.

Lemma lookup_remove_ne t t' img :
  t <> t' -> lookup_table t' (remove_table t img) = lookup_table t' img.
Proof.
  intros Hne. induction img as [|[n x] img IH]; cbn; [done|].
  destruct (decide (n = t)) as [->|Hn]; cbn.
  - by rewrite decide_False.
  - by rewrite IH.
Qed.

Ltac answered :=
  cbn [code resp resp_code resp_changes];
  rewrite ?(bool_decide_eq_false_2 (200%Z <> 200%Z)) by (intros H; by apply H);
  try change (succeeded (resp 200 true)) with true;
  try change (succeeded (resp 200 false)) with false;
  cbn [negb orb andb].

Lemma db_run_ok st s img n :
  next_fault s = false -> exec st (image s) = Some (img, RChanges n) ->
  db_run st s = (Ret (Some n), step s img (files s) (EvExec st true)).
Proof.
  intros Hf He. unfold db_run. rewrite bind_unfold.
  by rewrite (call_ok st s img (RChanges n)).
Qed.

Lemma deleteTable_absent t s :
  no_faults s = true -> lookup_table t (image s) = None ->
  exists s',
    deleteTable t s = (Ret (resp 404 false), s')
    /\ image s' = image s /\ rands s' = rands s /\ no_faults s' = true.
Proof.
  intros Hnf Hnone.
  destruct (tableExists_reads t s Hnf) as (r & s1 & E1 & -> & I1 & _ & R1 & Hnf1 & _).
  unfold deleteTable. rewrite bind_unfold, E1, Hnone. cbn. by exists s1.
Qed.

Lemma deleteTable_present t s :
  no_faults s = true -> is_Some (lookup_table t (image s)) ->
  exists s',
    deleteTable t s = (Ret (resp 200 true), s')
    /\ image s' = remove_table t (image s) /\ rands s' = rands s /\ no_faults s' = true.
Proof.
  intros Hnf [tb Ht].
  destruct (tableExists_reads t s Hnf) as (r & s1 & E1 & -> & I1 & _ & R1 & Hnf1 & _).
  unfold deleteTable. rewrite bind_unfold, E1, Ht.
  rewrite (bool_decide_eq_true_2 (is_Some _)) by (by eexists). answered.
  unfold db_get. rewrite !bind_unfold.
  erewrite call_ok; [|by apply no_faults_next|].
  2:{ cbn. rewrite I1, Ht. reflexivity. }
  cbn. eexists. split; [reflexivity|]. cbn. repeat split; [done|].
  exact (no_faults_step s1 [] ∅ (EvError "") Hnf1).
Qed.

Lemma renameTable_run t t' s :
  no_faults s = true ->
  is_Some (lookup_table t (image s)) -> lookup_table t' (image s) = None ->
  exists s',
    renameTable t t' s = (Ret (resp 200 true), s')
    /\ image s' = retitle_table t t' (image s) /\ rands s' = rands s /\ no_faults s' = true.
Proof.
  intros Hnf [tb Ht] Ht'.
  destruct (tableExists_reads t s Hnf) as (r & s1 & E1 & -> & I1 & _ & R1 & Hnf1 & _).
  destruct (tableExists_reads t' s1 Hnf1) as (r & s2 & E2 & -> & I2 & _ & R2 & Hnf2 & _).
  unfold renameTable. rewrite bind_unfold, E1, Ht.
  rewrite (bool_decide_eq_true_2 (is_Some _)) by (by eexists). answered.
  rewrite bind_unfold, E2, I1, Ht'.
  change (bool_decide (is_Some (@None Table))) with false. answered.
  rewrite bind_unfold.
  erewrite db_run_ok; [|by apply no_faults_next|].
  2:{ cbn. rewrite I2, I1, Ht, Ht'. reflexivity. }
  cbn. eexists. split; [reflexivity|]. cbn. repeat split; [congruence|].
  exact (no_faults_step s2 [] ∅ (EvError "") Hnf2).
Qed.

Lemma fromEntries_reordered (names names' : list string) (r : list Value) idxs :
  NoDup names -> NoDup names' ->
  (forall k, k ∈ names' <-> k ∈ names) ->
  length r = length names ->
  mapM (fun f => index_of f names) names' = Some idxs ->
  fromEntries (zip names' (cell r <$> idxs)) = fromEntries (zip names r).
Proof.
  intros Hnd Hnd' Hsame Hlen Hidx. apply map_eq. intros k. unfold fromEntries.
  destruct (decide (k ∈ names')) as [Hk|Hk].
  - apply list_elem_of_lookup in Hk as [j Hj].
    rewrite (fromEntries_zip_lookup names' _ _ j k Hnd' Hj).
    apply mapM_Some in Hidx.
    destruct (Forall2_lookup_l _ _ _ _ _ Hidx Hj) as (i & Hi & Hik).
    rewrite list_lookup_fmap, Hi. cbn.
    apply index_of_lookup in Hik as Hnk.
    rewrite (fromEntries_zip_lookup names _ _ i k Hnd Hnk).
    assert (i < length r) as Hlt by (rewrite Hlen; by eapply lookup_lt_Some).
    apply lookup_lt_is_Some in Hlt as [v Hv]. unfold cell. by rewrite Hv.
  - rewrite !fromEntries_zip_other; [done| |done]. by rewrite <- Hsame.
Qed.

(** Names that the engine reads as columns are selected by their columns. *)
Lemma select_list_of_names (src names : list string) (idxs : list nat) :
  Forall (fun n => bare_name n = true) names ->
  mapM (fun f => index_of f src) names = Some idxs ->
  mapM unquoted names = Some (TColumn <$> names)
  /\ mapM (term_value src) (TColumn <$> names) = Some ((fun i r => cell r i) <$> idxs).
Proof.
  intros Hb. revert idxs. induction Hb as [|n names Hn Hb IH]; intros idxs H.
  - cbn in H. injection H as <-. done.
  - cbn in H. destruct (index_of n src) as [i|] eqn:Hi; [|done]. cbn in H.
    destruct (mapM _ names) as [rest|] eqn:Hrest; [|done]. cbn in H. injection H as <-.
    destruct (IH _ eq_refl) as [H1 H2].
    assert (Hu : unquoted n = Some (TColumn n)) by (unfold unquoted; by rewrite Hn).
    split.
    + cbn -[unquoted]. by rewrite Hu, H1.
    + cbn -[term_value]. rewrite H2. cbn. by rewrite Hi.
Qed.

(** [reorderFields] on a table that has every declared column, but not at
    the front in declared order: the table is rebuilt with the declared
    columns first, in declared order, followed by the other columns in
    their old order; every column keeps its type; and every row keeps the
    value it had under each column name.  The rebuilt table comes last in
    the engine's list of tables, and the temporary table is gone.  The
    names of the columns are distinct, and each of them is a name that the
    engine reads as a column when it is written without quotes. *)
Theorem reorderFields_keeps_rows (this : Database) (table : string) (fields : TableSchema)
    (s : Sys) (tb : Table) :
  no_faults s = true ->
  NoDup (image s).*1 ->
  lookup_table table (image s) = Some tb ->
  well_formed tb ->
  Forall (fun n => bare_name n = true) (column_names tb) ->
  NoDup (name <$> fields) ->
  Forall (fun e => name e ∈ column_names tb) fields ->
  ~ (name <$> fields) `prefix_of` column_names tb ->
  lookup_table ("temp_" +:+ pretty (hd 0%N (rands s))) (image s) = None ->
  exists s' tb',
    reorderFields this table fields s = (Ret (resp 200 true), s')
    /\ image s' = remove_table table (image s) ++ [(table, tb')]
    /\ column_names tb'
       = (name <$> fields) ++ filter (fun n => n ∉ name <$> fields) (column_names tb)
    /\ columns tb' ≡ₚ columns tb
    /\ row_object tb' <$> records tb' = row_object tb <$> records tb.
Proof.
  intros Hnf Hndi Ht [Hndc Hrows] Hbare Hndf Hall Hnp Htemp.
  set (temp := "temp_" +:+ pretty (hd 0%N (rands s))) in *.
  set (tf := info_row <$> columns tb).
  assert (Htf : name <$> tf = column_names tb).
  { unfold tf, column_names. rewrite <- list_fmap_compose. done. }
  assert (Hcols : (fun f => (name f, type f)) <$> tf = columns tb).
  { unfold tf. rewrite <- list_fmap_compose. rewrite <- (list_fmap_id (columns tb)) at 2.
    apply list_fmap_ext. by intros i [n ty] _. }
  (* the columns as they are *)
  destruct (db_all_info_read (STableInfo table) tf s Hnf eq_refl)
    as (r & s1 & E1 & -> & I1 & _ & R1 & Hnf1 & _).
  { cbn. by rewrite Ht. }
  unfold reorderFields. rewrite bind_unfold, E1.
  rewrite (every_match_mismatch fields tf) by (by rewrite ?Htf).
  rewrite bind_unfold. unfold random_id at 1. rewrite R1. fold temp.
  set (s2 := {| image := image s1; files := files s1; faults := faults s1;
                rands := tl (rands s); log := log s1 |}).
  assert (Hnf2 : no_faults s2 = true) by exact Hnf1.
  destruct (splice_fields fields tf) as [picked leftover] eqn:Es.
  destruct (splice_fields_spec fields tf picked leftover Es Hndf)
    as (fs & -> & Hfs & Hperm & Hleft); [by rewrite Htf|by rewrite Htf|].
  set (db_fields := fs ++ leftover) in *.
  assert (Hnames : name <$> db_fields
                   = (name <$> fields)
                     ++ filter (fun n => n ∉ name <$> fields) (column_names tb)).
  { unfold db_fields. by rewrite fmap_app, Hfs, Hleft, Htf. }
  assert (Hnd' : NoDup (name <$> db_fields)).
  { rewrite Hperm, Htf. done. }
  assert (Hsame : forall k, k ∈ name <$> db_fields <-> k ∈ column_names tb).
  { intros k. by rewrite Hperm, Htf. }
  (* the temporary table does not exist *)
  destruct (deleteTable_absent temp s2 Hnf2) as (s3 & E3 & I3 & R3 & Hnf3).
  { change (image s2) with (image s1). by rewrite I1. }
  rewrite bind_unfold, E3.
  rewrite <- fmap_app, mapM_id_Some. fold db_fields.
  (* it is created with the columns in the new order *)
  destruct (createTable_fresh this temp db_fields s3 Hnf3) as (s4 & E4 & I4 & Hnf4).
  { rewrite I3. change (image s2) with (image s1). by rewrite I1. }
  { intros E. apply Hnp. rewrite <- Htf.
    assert (tf = []) as -> by (apply Permutation_nil_r; by rewrite <- Hperm, E).
    destruct fields as [|e fields]; [apply prefix_nil|].
    apply Forall_cons in Hall as [He _]. rewrite <- Htf in He. by apply elem_of_nil in He. }
  { done. }
  assert (I4' : image s4 = image s ++ [(temp, created_table db_fields)]).
  { rewrite I4, I3. change (image s2) with (image s1). by rewrite I1. }
  rewrite bind_unfold, E4. answered.
  (* the rows are copied *)
  destruct (mapM (fun f => index_of f (column_names tb)) (name <$> db_fields))
    as [idxs|] eqn:Hidx.
  2:{ apply mapM_None in Hidx. apply Exists_exists in Hidx as (k & Hk & Hnone).
      apply Hsame, index_of_elem in Hk as [i Hi]. congruence. }
  destruct (select_list_of_names (column_names tb) (name <$> db_fields) idxs)
    as [Hterms Hvalues]; [|done|].
  { apply Forall_forall. intros k Hk. apply Hsame in Hk.
    exact (proj1 (Forall_forall _ _) Hbare k Hk). }
  set (values := (fun i (r : list Value) => cell r i) <$> idxs) in *.
  assert (Hrec : forall r : list Value, (fun value => value r) <$> values = cell r <$> idxs).
  { intros r. unfold values. by rewrite <- list_fmap_compose. }
  set (tb' := {| columns := (fun f => (name f, type f)) <$> db_fields;
                 records := (fun r => (fun value => value r) <$> values) <$> records tb |}).
  rewrite bind_unfold.
  erewrite (db_run_ok _ s4 (image s ++ [(temp, tb')])); [|by apply no_faults_next|].
  2:{ cbn. rewrite I4', lookup_table_snoc, Ht. cbn.
      unfold with_table. rewrite lookup_table_snoc, Htemp. rewrite decide_True by done.
      cbn. rewrite Hterms. cbn. rewrite Hvalues. cbn.
      rewrite decide_True by (by rewrite !length_fmap).
      cbn. by rewrite replace_table_snoc. }
  set (s5 := step s4 (image s ++ [(temp, tb')]) (files s4) _).
  assert (Hnf5 : no_faults s5 = true) by (by apply no_faults_step).
  cbn [ret]. rewrite bind_unfold. unfold ret at 1. answered.
  (* the table is dropped and the temporary one takes its name *)
  destruct (deleteTable_present table s5 Hnf5) as (s6 & E6 & I6 & R6 & Hnf6).
  { cbn. rewrite lookup_table_snoc, Ht. by eexists. }
  rewrite bind_unfold, E6. answered.
  assert (I6' : image s6 = remove_table table (image s) ++ [(temp, tb')]).
  { rewrite I6. cbn. rewrite remove_table_snoc; [done|by eexists]. }
  assert (Hne : table <> temp) by (intros E; rewrite E in Ht; congruence).
  destruct (renameTable_run temp table s6 Hnf6) as (s7 & E7 & I7 & R7 & Hnf7).
  { rewrite I6', lookup_table_snoc, lookup_remove_ne, Htemp by done.
    rewrite decide_True by done. by eexists. }
  { rewrite I6', lookup_table_snoc, lookup_remove_eq by done. by rewrite decide_False. }
  rewrite bind_unfold, E7. answered.
  exists s7, tb'. split; [done|]. split.
  { rewrite I7, I6'. apply retitle_table_snoc. by rewrite lookup_remove_ne. }
  assert (Hcn : column_names tb' = name <$> db_fields).
  { unfold column_names, tb'. cbn. by rewrite <- list_fmap_compose. }
  split; [by rewrite Hcn|]. split.
  { unfold tb'. cbn [columns]. by rewrite Hperm, Hcols. }
  cbn [records tb']. rewrite <- list_fmap_compose.
  apply Forall_fmap_ext. eapply Forall_impl; [exact Hrows|].
  intros r Hlen. cbn [compose]. unfold row_object. rewrite Hcn, Hrec.
  apply fromEntries_reordered; try done.
  rewrite Hlen. unfold column_names. by rewrite length_fmap.
Qed.

(** ** Renaming *)

(** [renameTable] and [renameField] never rename over an existing name:
    when the old name is missing they answer 404, when the new name is
    taken they answer 409, and in both cases they only read. *)
Theorem rename_guards (s : Sys) :
  no_faults s = true ->
  (forall old_table new_table,
      lookup_table old_table (image s) = None
      \/ is_Some (lookup_table new_table (image s)) ->
      reads_only (renameTable old_table new_table) s
        (fun r => r = resp (if lookup_table old_table (image s) is Some _ then 409 else 404)
                          false))
  /\ (forall table old_field new_field,
        let names := name <$> table_info table (image s) in
        old_field ∉ names \/ new_field ∈ names ->
        reads_only (renameField table old_field new_field) s
          (fun r => r = resp (if decide (old_field ∈ names) then 409 else 404) false)).
Proof.
  intros Hnf. split.
  - intros old_table new_table Hcase. unfold renameTable.
    eapply reads_only_bind; [by apply tableExists_reads|].
    cbn beta. intros r s1 -> I1 Hnf1.
    destruct (lookup_table old_table (image s)) as [tb|] eqn:Hold.
    + rewrite (bool_decide_eq_true_2 (is_Some _)) by (by eexists). answered.
      destruct Hcase as [?|Hnew]; [done|].
      eapply reads_only_bind; [by apply tableExists_reads|].
      cbn beta. intros r s2 -> I2 Hnf2. rewrite I1.
      rewrite (bool_decide_eq_true_2 (is_Some _)) by done. answered.
      by apply reads_only_ret.
    + change (bool_decide (is_Some (@None Table))) with false. answered.
      by apply reads_only_ret.
  - intros table old_field new_field names Hcase. unfold renameField.
    eapply reads_only_bind; [by apply fieldExists_reads|].
    cbn beta. intros r s1 -> I1 Hnf1. fold names.
    destruct (decide (old_field ∈ names)) as [Hold|Hold].
    + rewrite (bool_decide_eq_true_2 (Exists _ _)) by (by apply Exists_name). answered.
      destruct Hcase as [?|Hnew]; [done|].
      eapply reads_only_bind; [by apply fieldExists_reads|].
      cbn beta. intros r s2 -> I2 Hnf2. rewrite I1. fold names.
      rewrite (bool_decide_eq_true_2 (Exists _ _)) by (by apply Exists_name). answered.
      by apply reads_only_ret.
    + rewrite (bool_decide_eq_false_2 (Exists _ _)) by (by rewrite Exists_name). answered.
      by apply reads_only_ret.
Qed.

(** ** Closing *)

(** [close] after [open] always settles.  It stops both timers, leaves
    [ready] set and storage as it was, and its answer tells only whether
    the handle was closed: the result of the final backup is not looked
    at. *)
Theorem close_answers_for_the_handle (this : Database) (st : State) :
  ready st = true ->
  exists r st',
    close this st = (Ret r, st')
    /\ backup_timer st' = None /\ vacuum_timer st' = None
    /\ ready st' = true
    /\ image (env st') = image (env st)
    /\ match log (env st') with
       | EvCloseHandle true :: _ => r = resp 200 true
       | EvError "close" :: EvCloseHandle false :: _ => r = resp 500 false
       | _ => False
       end.
Proof.
  intros Hready.
  unfold close, backup, bind, is_busy, lift, fs_mkdir, fs_unlink, fs_copyFile,
    set_busy, set_backup_timer, set_vacuum_timer, close_handle, error_callback, ret.
  cbn. rewrite Hready. destruct (busy st); cbn.
  { destruct (next_fault _); cbn; do 2 eexists; repeat split. }
  destruct (next_fault _ || bool_decide (_ = None)); cbn.
  { destruct (next_fault _); cbn; do 2 eexists; repeat split. }
  rewrite decide_True by reflexivity.
  destruct (next_fault _); cbn.
  { destruct (next_fault _); cbn; do 2 eexists; repeat split. }
  destruct (next_fault _); cbn; do 2 eexists; repeat split.
Qed.

Lemma close_answers_for_the_handle_witness :
  let st := {| ready := true; busy := false; backup_timer := Some 3600000%Z;
               vacuum_timer := None; env := sys_of [] ∅ [] |} in
  ready st = true
  /\ exists r st',
       close demo_db st = (Ret r, st')
       /\ backup_timer st' = None /\ vacuum_timer st' = None /\ ready st' = true.
Proof.
  intros st.
  assert (H : ready st = true) by reflexivity.
  split; [exact H|].
  destruct (close_answers_for_the_handle demo_db st H) as (r & st' & E & B & V & R & _).
  exists r, st'. repeat (split; [assumption|]). exact R.
Defined.

(** ** From an instance to its object and back *)

(** An instance rebuilt by [fromObject] from what [toObject] makes of an
    instance.  In a column that the object holds, it has the value of the
    original.  In a sensitive column, which [toObject(false)] leaves out,
    it has what every object inherits under the name of the column, and
    [undefined] when nothing of that name is inherited.  The columns have
    distinct names, none of them reserved or the name of a snapshot. *)
Theorem fromObject_of_toObject (m : ModelClass) (this : Row) (sensitive_too : bool) :
  well_named (schema m) ->
  NoDup (name <$> schema m) ->
  plain (schema m) ->
  instance_of m this ->
  forall col, col ∈ schema m ->
    prop (fromObject m (toObject m this sensitive_too)) (name col)
    = if sensitive_too || negb (sensitive col) then prop this (name col)
      else if decide (name col ∈ inherited_properties) then VObject (inherited (name col))
      else VUndef.
Proof.
  intros Hwn Hnd _ _ col Hc. rewrite fromObject_prop by done.
  unfold get. rewrite toObject_lookup.
  destruct (sensitive_too || negb (sensitive col)) eqn:Hvis.
  - rewrite decide_True; [done|]. apply list_elem_of_fmap_2, list_elem_of_filter.
    split; [by rewrite Hvis|done].
  - rewrite decide_False; [done|].
    intros (c & Hname & [Hv Hc']%list_elem_of_filter)%list_elem_of_fmap.
    assert (col = c) by (by eapply NoDup_names_eq). subst c.
    by rewrite Hvis in Hv.
Qed.

(** ** Failures behind [find] and [all] *)

(** When the engine does not answer the query, because the call fails or
    the table is missing, [find] answers [null] and [all] answers an empty
    list, as they do when no row is stored; the failure is reported to
    [error_callback] as one of [getRows]. *)
Theorem find_and_all_hide_failures (m : ModelClass) (s : Sys) :
  next_fault s = true \/ lookup_table (tableName m) (image s) = None ->
  (forall pk v, truthy (primaryKey m) = Some pk ->
     let st := SSelect (tableName m) (Some (pk, "=", v)) (Some 1%Z) in
     (find m v s).1 = Ret None
     /\ log (find m v s).2 = [EvError "getRows"; EvExec st false] ++ log s)
  /\ (all m s).1 = Ret []
  /\ log (all m s).2
     = [EvError "getRows"; EvExec (SSelect (tableName m) None None) false] ++ log s.
Proof.
  intros Hfail.
  assert (Hcall : forall w l,
             call (SSelect (tableName m) w l) s
             = (Ret None, step s (image s) (files s)
                            (EvExec (SSelect (tableName m) w l) false))).
  { intros w l. apply call_failed. destruct Hfail as [?|Hnone]; [by left|right].
    cbn. by rewrite Hnone. }
  split.
  - intros pk v Hpk st. unfold find, getRow, getRows, db_all.
    cbn [operator_text truthy]. rewrite Hpk, decide_False by done.
    rewrite !bind_unfold, Hcall. cbn. done.
  - unfold all, getRows, db_all. rewrite decide_True by done.
    rewrite !bind_unfold, Hcall. cbn. done.
Qed.

(** ** Adding columns *)

Lemma ret_unfold {S A} (a : A) (s : S) : ret a s = (Ret a, s).
Proof. reflexivity. Qed.

Lemma bind_run {S A B} (c : Prog S A) (k : A -> Prog S B) s a s1 :
  c s = (Ret a, s1) -> bind c k s = k a s1.
Proof. intros E. unfold bind. by rewrite E. Qed.

Lemma index_of_snoc f names : f ∉ names -> index_of f (names ++ [f]) = Some (length names).
Proof.
  induction names as [|n names IH]; cbn.
  - intros _. by rewrite decide_True.
  - intros [Hne Hnin]%not_elem_of_cons. rewrite decide_False by done.
    by rewrite IH.
Qed.

Lemma replace_replace t x y img :
  replace_table t x (replace_table t y img) = replace_table t x img.
Proof.
  induction img as [|[n tb] img IH]; cbn; [done|].
  destruct (decide (n = t)) as [->|Hne]; cbn.
  - by rewrite decide_True.
  - rewrite decide_False by done. by rewrite IH.
Qed.

Lemma addField_run (table field ty : string) (dv : option Value) (s : Sys) (tb : Table) :
  no_faults s = true ->
  lookup_table table (image s) = Some tb ->
  Forall (fun r => length r = length (columns tb)) (records tb) ->
  field ∉ column_names tb ->
  exists s',
    addField table field ty dv s = (Ret (resp 200 true), s')
    /\ image s'
       = replace_table table
           {| columns := columns tb ++ [(field, ty)];
              records := (fun r => r ++ [sql_value (default VNull dv)]) <$> records tb |}
           (image s)
    /\ no_faults s' = true.
Proof.
  intros Hnf Ht Hrows Hnin.
  set (tb1 := {| columns := columns tb ++ [(field, ty)];
                 records := (fun r => r ++ [VNull]) <$> records tb |}).
  set (s1 := step s (replace_table table tb1 (image s)) (files s)
               (EvExec (SAddColumn table field ty) true)).
  assert (Hnf1 : no_faults s1 = true) by (by apply no_faults_step).
  assert (E1 : db_run (SAddColumn table field ty) s = (Ret (Some 0), s1)).
  { apply db_run_ok; [by apply no_faults_next|].
    cbn. unfold with_table. rewrite Ht. cbn. by rewrite decide_False. }
  unfold addField. rewrite bind_unfold, E1. cbn [ret]. rewrite bind_unfold.
  unfold ret at 1. answered.
  destruct (nullish dv) eqn:Hnull; cbn [orb].
  - exists s1. split; [done|]. split; [|done]. cbn. unfold tb1. do 2 f_equal.
    apply list_fmap_ext. intros i r _. by destruct dv as [[]|].
  - rewrite bind_unfold.
    erewrite db_run_ok; [|by apply no_faults_next|].
    2:{ cbn. unfold with_table. rewrite lookup_replace_eq by (by eexists). cbn.
        unfold column_names. cbn. rewrite fmap_app. cbn.
        rewrite index_of_snoc by done. cbn. rewrite replace_replace. reflexivity. }
    eexists. split; [reflexivity|]. split.
    + cbn. do 2 f_equal.
      rewrite <- list_fmap_compose. apply Forall_fmap_ext.
      eapply Forall_impl; [exact Hrows|]. intros r Hlen. cbn.
      rewrite length_fmap, <- Hlen.
      rewrite <- (Nat.add_0_r (length r)), insert_app_r. done.
    + exact (no_faults_step s1 [] ∅ (EvError "") Hnf1).
Qed.


(** ** [addFields] *)

Lemma rename_fields_none table fields resolved s :
  Forall (fun f => truthy (old f) = None) fields ->
  rename_fields table fields resolved s = (Ret resolved, s).
Proof.
  induction 1 as [|f fields Hf _ IH]; cbn; [done|]. by rewrite Hf.
Qed.

Lemma db_run_logged st s :
  exists r s' ok, db_run st s = (Ret r, s') /\ log s' = EvExec st ok :: log s.
Proof.
  unfold db_run, call, ret, bind. destruct (next_fault s); cbn; [by do 3 eexists|].
  destruct (exec st (image s)) as [[img reply]|]; cbn; by do 3 eexists.
Qed.

Lemma addField_adds table field ty dv s :
  exists r s' evs,
    addField table field ty dv s = (Ret r, s')
    /\ log s' = evs ++ log s
    /\ List.filter is_add_column (writes evs) = [SAddColumn table field ty].
Proof.
  destruct (db_run_logged (SAddColumn table field ty) s) as (r1 & s1 & ok1 & E1 & L1).
  unfold addField. rewrite bind_unfold, E1.
  destruct r1 as [n|].
  - cbn [ret]. rewrite bind_unfold. unfold ret at 1. answered.
    destruct (nullish dv); cbn [orb].
    { exists (resp 200 true), s1, [EvExec (SAddColumn table field ty) ok1]. by rewrite L1. }
    destruct (db_run_logged (SUpdateAll table field (default VNull dv)) s1)
      as (r2 & s2 & ok2 & E2 & L2).
    rewrite bind_unfold, E2. destruct r2 as [n2|].
    + exists (resp 200 true), s2,
        [EvExec (SUpdateAll table field (default VNull dv)) ok2;
         EvExec (SAddColumn table field ty) ok1].
      by rewrite L2, L1.
    + rewrite bind_unfold. unfold error_callback at 1. cbn.
      do 2 eexists.
      exists [EvError "addField"; EvExec (SUpdateAll table field (default VNull dv)) ok2;
              EvExec (SAddColumn table field ty) ok1].
      split; [reflexivity|]. cbn. by rewrite L2, L1.
  - rewrite !bind_unfold. unfold error_callback at 1. cbn [ret]. unfold ret at 1.
    cbn [code resp]. rewrite (bool_decide_eq_true_2 (500%Z <> 200%Z)) by done.
    rewrite orb_true_r. do 2 eexists.
    exists [EvError "addField"; EvExec (SAddColumn table field ty) ok1].
    split; [reflexivity|]. cbn. by rewrite L1.
Qed.

Lemma add_missing_adds table missing :
  forall resolved s,
  exists r s' evs,
    add_missing table missing resolved s = (Ret r, s')
    /\ log s' = evs ++ log s
    /\ List.filter is_add_column (writes evs)
       = (fun f => SAddColumn table (name f) (type f)) <$> missing.
Proof.
  induction missing as [|f missing IH]; intros resolved s; cbn.
  { exists resolved, s, []. done. }
  destruct (addField_adds table (name f) (type f) (default_value f) s)
    as (r1 & s1 & evs1 & E1 & L1 & W1).
  rewrite bind_unfold, E1.
  destruct (IH (if decide (code r1 <> 200%Z) then settle resolved r1 else resolved) s1)
    as (r2 & s2 & evs2 & E2 & L2 & W2).
  rewrite E2. exists r2, s2, (evs2 ++ evs1). split; [done|].
  split; [by rewrite L2, L1, app_assoc|].
  by rewrite writes_app, List.filter_app, W1, W2.
Qed.

Lemma delete_unused_fields_adds table unused :
  forall resolved s,
  exists r s' evs,
    delete_unused_fields table unused resolved s = (Ret r, s')
    /\ log s' = evs ++ log s
    /\ List.filter is_add_column (writes evs) = [].
Proof.
  induction unused as [|f unused IH]; intros resolved s; cbn.
  { exists resolved, s, []. done. }
  assert (exists r1 s1 evs1,
             deleteField table f s = (Ret r1, s1) /\ log s1 = evs1 ++ log s
             /\ List.filter is_add_column (writes evs1) = [])
    as (r1 & s1 & evs1 & E1 & L1 & W1).
  { destruct (db_run_logged (SDropColumn table f) s) as (r1 & s1 & ok1 & E1 & L1).
    unfold deleteField. rewrite bind_unfold, E1. destruct r1 as [n|].
    - exists (resp 200 true), s1, [EvExec (SDropColumn table f) ok1]. by rewrite L1.
    - rewrite bind_unfold. unfold error_callback at 1. cbn. do 2 eexists.
      exists [EvError "deleteField"; EvExec (SDropColumn table f) ok1].
      split; [reflexivity|]. cbn. by rewrite L1. }
  rewrite bind_unfold, E1.
  destruct (IH (if decide (code r1 <> 200%Z) then settle resolved r1 else resolved) s1)
    as (r2 & s2 & evs2 & E2 & L2 & W2).
  rewrite E2. exists r2, s2, (evs2 ++ evs1). split; [done|].
  split; [by rewrite L2, L1, app_assoc|].
  by rewrite writes_app, List.filter_app, W1, W2.
Qed.

(** [addFields] does not stop at a step that fails: when the columns of
    the table can be read and no declared column names an old one, every
    declared column the table lacks is handed to the engine as an
    [ADD COLUMN], in declared order, whatever the engine answers to the
    earlier ones. *)
Theorem addFields_adds_every_missing_column (table : string) (fields : TableSchema)
    (delete_unused : bool) (s : Sys) :
  Forall (fun f => truthy (old f) = None) fields ->
  next_fault s = false ->
  let missing := filter (fun e => name e ∉ name <$> table_info table (image s)) fields in
  exists r s' evs,
    addFields table fields delete_unused s = (Ret r, s')
    /\ log s' = evs ++ log s
    /\ List.filter is_add_column (writes evs)
       = (fun f => SAddColumn table (name f) (type f)) <$> missing.
Proof.
  intros Hold Hf missing. unfold addFields.
  rewrite bind_unfold, rename_fields_none by done.
  unfold db_all_info. rewrite !bind_unfold.
  rewrite (call_ok _ s (image s) (RInfo (table_info table (image s)))) by done.
  rewrite ret_unfold. cbn beta iota zeta. fold missing.
  set (s0 := step s (image s) (files s) (EvExec (STableInfo table) true)).
  set (unused := filter _ (name <$> table_info table (image s))).
  assert (exists r1 s1 evs1,
             (if bool_decide (length missing <> 0)
              then add_missing table missing None else ret None) s0 = (Ret r1, s1)
             /\ log s1 = evs1 ++ log s0
             /\ List.filter is_add_column (writes evs1)
                = (fun f => SAddColumn table (name f) (type f)) <$> missing)
    as (r1 & s1 & evs1 & E1 & L1 & W1).
  { destruct (bool_decide (length missing <> 0)) eqn:Hlen.
    - apply add_missing_adds.
    - apply bool_decide_eq_false in Hlen.
      assert (missing = []) as -> by (destruct missing; [done|]; destruct Hlen; done).
      exists None, s0, []. done. }
  rewrite (bind_run _ _ _ _ _ E1).
  assert (exists r2 s2 evs2,
             (if delete_unused && bool_decide (length unused <> 0)
              then delete_unused_fields table unused r1 else ret r1) s1 = (Ret r2, s2)
             /\ log s2 = evs2 ++ log s1
             /\ List.filter is_add_column (writes evs2) = [])
    as (r2 & s2 & evs2 & E2 & L2 & W2).
  { destruct (delete_unused && _).
    - apply delete_unused_fields_adds.
    - exists r1, s1, []. done. }
  rewrite (bind_run _ _ _ _ _ E2).
  exists (default (resp 200 true) r2), s2, (evs2 ++ evs1 ++ [EvExec (STableInfo table) true]).
  split; [done|]. split.
  { rewrite L2, L1. cbn. by rewrite <- !app_assoc. }
  rewrite !writes_app, !List.filter_app, W1, W2. cbn. by rewrite app_nil_r.
Qed.

(** ** Deleting by key *)

Lemma filter_remove_first p k rs :
  List.filter p (remove_at k (take 1 (matching_from p k rs)) rs) = tail (List.filter p rs).
Proof.
  revert k. induction rs as [|r rs IH]; intros k; cbn; [done|].
  destruct (p r) eqn:Hp; cbn.
  - rewrite take_0, decide_True by (by left).
    rewrite remove_at_none; [done|]. intros j ->%list_elem_of_singleton. lia.
  - rewrite decide_False.
    + cbn. by rewrite Hp, IH.
    + intros Hk%elem_of_take. destruct Hk as (i & Hk & _).
      apply list_elem_of_lookup_2, matching_from_ge in Hk. lia.
Qed.

Lemma where_filter_eq tb field v i :
  index_of field (column_names tb) = Some i ->
  where_filter tb field "=" v
  = Some (fun r => sql_holds (fun c => bool_decide (c = Eq)) (cell r i) v).
Proof. intros Hi. unfold where_filter. by rewrite Hi, sql_operator_eq. Qed.

Lemma delete_static_run (m : ModelClass) (pk : string) (v : Value) (s : Sys) (tb : Table) :
  truthy (primaryKey m) = Some pk ->
  no_faults s = true ->
  lookup_table (tableName m) (image s) = Some tb ->
  pk ∈ column_names tb ->
  let stored := rows_where (image s) (tableName m) pk v in
  let n := length (take 1 stored) in
  exists s1 tb1,
    delete_static m v s = (Ret (resp_changes 200 (bool_decide (0 < n)) n), s1)
    /\ image s1 = replace_table (tableName m) tb1 (image s)
    /\ files s1 = files s
    /\ no_faults s1 = true
    /\ columns tb1 = columns tb
    /\ records tb1 ++ take 1 stored ≡ₚ records tb
    /\ rows_where (image s1) (tableName m) pk v = tail stored.
Proof.
  intros Hpk Hnf Ht Hin stored n.
  destruct (index_of_elem _ _ Hin) as [i Hi].
  set (p := fun r => sql_holds (fun c => bool_decide (c = Eq)) (cell r i) v).
  assert (Hstored : stored = List.filter p (records tb)).
  { unfold stored, rows_where. by rewrite Ht, Hi. }
  set (hits := take 1 (matching_from p 0 (records tb))).
  set (tb1 := {| columns := columns tb; records := remove_at 0 hits (records tb) |}).
  assert (Hn : length hits = n).
  { unfold hits, n. by rewrite Hstored, !length_take, matching_from_length. }
  exists (step s (replace_table (tableName m) tb1 (image s)) (files s)
            (EvExec (SDeleteWhere (tableName m) pk "=" v (Some 1%Z)) true)), tb1.
  split; [|split; [done|split; [done|split; [by apply no_faults_step|split; [done|split]]]]].
  - unfold delete_static, deleteRow. rewrite Hpk.
    rewrite (deleteRows_run _ _ _ None (Some 1%Z) s tb p);
      [|by apply no_faults_next|done|by apply where_filter_eq].
    change (limit_rows (Some 1%Z) (matching_from p 0 (records tb))) with hits.
    by rewrite Hn.
  - cbn [records tb1]. unfold hits. rewrite Hstored. apply remove_at_take.
  - cbn [image step]. unfold rows_where.
    rewrite lookup_replace_eq by (by eexists).
    change (column_names tb1) with (column_names tb).
    rewrite Hi. cbn [records tb1]. fold p. unfold hits. rewrite filter_remove_first.
    by rewrite Hstored.
Qed.

(** The static [delete] removes the first row stored under the key and
    leaves every other row in place; [find] by that key then answers the
    next row stored under it, and [null] when the key was stored once.
    The key is of the storage class of the key column. *)
Theorem delete_then_find (m : ModelClass) (pk : string) (v : Value) (s : Sys) (tb : Table) :
  truthy (primaryKey m) = Some pk ->
  no_faults s = true ->
  lookup_table (tableName m) (image s) = Some tb ->
  pk ∈ column_names tb ->
  fits_column tb pk v = true ->
  let stored := rows_where (image s) (tableName m) pk v in
  let n := length (take 1 stored) in
  exists s1 tb1 s2,
    delete_static m v s = (Ret (resp_changes 200 (bool_decide (0 < n)) n), s1)
    /\ lookup_table (tableName m) (image s1) = Some tb1
    /\ columns tb1 = columns tb
    /\ records tb1 ++ take 1 stored ≡ₚ records tb
    /\ find m v s1
       = (Ret (fromObject m <$> (row_object tb <$> head (tail stored))), s2).
Proof.
  intros Hpk Hnf Ht Hin _ stored n.
  destruct (delete_static_run m pk v s tb Hpk Hnf Ht Hin)
    as (s1 & tb1 & E1 & I1 & _ & Hnf1 & Hc & Hperm & Hrows).
  destruct (index_of_elem _ _ Hin) as [i Hi].
  assert (Ht1 : lookup_table (tableName m) (image s1) = Some tb1).
  { rewrite I1. apply lookup_replace_eq. by eexists. }
  exists s1, tb1. eexists. split; [exact E1|]. split; [exact Ht1|]. split; [done|].
  split; [exact Hperm|].
  rewrite (find_run m pk v s1 tb1 i); [|done|by apply no_faults_next|done|].
  - rewrite Hrows. do 3 f_equal.
    assert (row_object tb1 = row_object tb) as -> by (unfold row_object, column_names; by rewrite Hc).
    done.
  - unfold column_names. by rewrite Hc.
Qed.

(** ** Updating a column by key *)

Lemma filter_update (p : list Value -> bool) (f : list Value -> list Value) rs :
  (forall r, p (f r) = p r) ->
  List.filter p ((fun r => if p r then f r else r) <$> rs) = f <$> List.filter p rs.
Proof.
  intros Hf. induction rs as [|r rs IH]; cbn; [done|].
  destruct (p r) eqn:Hp; cbn.
  - rewrite Hf, Hp. cbn. by rewrite IH.
  - by rewrite Hp.
Qed.

Lemma index_of_inj names f g i :
  index_of f names = Some i -> index_of g names = Some i -> f = g.
Proof. intros Hf%index_of_lookup Hg%index_of_lookup. congruence. Qed.


(** ** Converting an instance to another model *)

(** [convert] to a model of another table whose key is not yet stored
    there: the new instance is returned after its row was inserted into
    the destination, so that [find] on the destination answers its values
    ([undefined] read back as [null]), and the first row stored under the
    key of the original is removed from the source.  No column of either
    model has a reserved name; the columns of the destination have
    distinct names, none of them the name of a snapshot; the destination
    has its declared columns in declared order, the values carried over are
    of the storage class their columns declare, and the new key is not
    [null]. *)
Theorem convert_moves_the_row (ToNumber : string -> option Z) (m to_model : ModelClass)
    (this : Row) (s : Sys) (pk pk' : string) (src dst : Table) :
  truthy (primaryKey m) = Some pk ->
  truthy (primaryKey to_model) = Some pk' ->
  well_named (schema to_model) ->
  NoDup (name <$> schema to_model) ->
  plain (schema m) ->
  plain (schema to_model) ->
  instance_of m this ->
  tableName m <> tableName to_model ->
  no_faults s = true ->
  lookup_table (tableName m) (image s) = Some src ->
  pk ∈ column_names src ->
  lookup_table (tableName to_model) (image s) = Some dst ->
  columns dst = columns (created_table (schema to_model)) ->
  let new := fromObject to_model (toObject m this true) in
  storable (schema to_model) new = true ->
  sql_value (prop new pk') <> VNull ->
  rows_where (image s) (tableName to_model) pk' (prop new pk') = [] ->
  exists s' found s'',
    convert ToNumber m this to_model s = (Ret (Some new), s')
    /\ find to_model (prop new pk') s' = (Ret (Some found), s'')
    /\ (forall col, col ∈ schema to_model ->
          prop found (name col) = sql_value (prop new (name col)))
    /\ rows_where (image s') (tableName m) pk (prop this pk)
       = tail (rows_where (image s) (tableName m) pk (prop this pk)).
Proof.
  intros Hpk Hpk' Hwn Hnd _ Hplain [Hdb _] Hne Hnf Hsrc Hin Hdst Hcols new _ Hkey Hnone.
  assert (Hnames : column_names dst = name <$> schema to_model).
  { unfold column_names. rewrite Hcols. cbn. by rewrite <- list_fmap_compose. }
  assert (Hdb' : new !! "_db" = Some (VObject dbInstance)).
  { apply create_holds_database. apply plain_not_reserved; [done|]. by left. }
  set (args := (fun col => prop new (name col)) <$> schema to_model).
  set (dst' := {| columns := columns dst; records := records dst ++ [sql_value <$> args] |}).
  destruct (save_inserts ToNumber to_model new s pk' dst Hpk' Hnd Hdb' Hnf Hdst Hnames Hkey
              Hnone)
    as (s1 & i & Hsave & I1 & Hnf1 & Hi & Hrows).
  fold args dst' in I1, Hrows.
  assert (Hsync : changed ToNumber to_model new = []) by (by apply changed_create).
  rewrite Hsync in Hsave. cbn [refresh foldl] in Hsave.
  assert (Hsrc1 : lookup_table (tableName m) (image s1) = Some src).
  { rewrite I1, lookup_replace_ne; [done|]. by intros E. }
  destruct (delete_static_run m pk (prop this pk) s1 src Hpk Hnf1 Hsrc1 Hin)
    as (s2 & src1 & E2 & I2 & _ & Hnf2 & _ & _ & Hrows2).
  assert (Hdel : delete_instance m this s1 = delete_static m (prop this pk) s1).
  { unfold delete_instance, delete_static. by rewrite Hpk, via_db_holds. }
  assert (Hdst2 : lookup_table (tableName to_model) (image s2) = Some dst').
  { rewrite I2, lookup_replace_ne by done. rewrite I1. apply lookup_replace_eq. by eexists. }
  exists s2, (fromObject to_model (row_object dst' (sql_value <$> args))). eexists.
  split; [|split; [|split]].
  - unfold convert. rewrite Hpk. fold new.
    rewrite (bind_run _ _ _ _ _ Hsave). cbn beta iota.
    change (succeeded (resp_changes 200 true 1)) with true. cbn [negb].
    rewrite bind_unfold, Hdel, E2. reflexivity.
  - rewrite (find_run to_model pk' _ s2 dst' i); [|done|by apply no_faults_next|done|done].
    assert (Hr : rows_where (image s2) (tableName to_model) pk' (prop new pk')
                 = [sql_value <$> args]).
    { rewrite <- Hrows. unfold rows_where. rewrite Hdst2.
      rewrite I1, lookup_replace_eq by (by eexists). done. }
    by rewrite Hr.
  - intros col Hc. rewrite fromObject_prop by done.
    apply list_elem_of_lookup in Hc as [j Hj].
    unfold get. rewrite (row_object_lookup dst' _ j).
    + rewrite list_lookup_fmap. unfold args. rewrite list_lookup_fmap, Hj. done.
    + change (column_names dst') with (column_names dst). by rewrite Hnames.
    + change (column_names dst') with (column_names dst).
      by rewrite Hnames, list_lookup_fmap, Hj.
  - rewrite Hrows2. f_equal. unfold rows_where. by rewrite Hsrc1, Hsrc.
Qed.

Lemma convert_moves_the_row_witness :
  let s := sys_of two_tables ∅ [] in
  let this := create items item_a in
  let new := fromObject archive (toObject items this true) in
  truthy (primaryKey items) = Some "id"
  /\ truthy (primaryKey archive) = Some "id"
  /\ well_named (schema archive)
  /\ NoDup (name <$> schema archive)
  /\ plain (schema items)
  /\ plain (schema archive)
  /\ instance_of items this
  /\ tableName items <> tableName archive
  /\ no_faults s = true
  /\ lookup_table "items" (image s) = Some (items_table [item_a])
  /\ "id" ∈ column_names (items_table [item_a])
  /\ storable (schema archive) new = true
  /\ sql_value (prop new "id") <> VNull
  /\ rows_where (image s) "archive" "id" (prop new "id") = []
  /\ exists s',
       convert (fun _ => None) items this archive s = (Ret (Some new), s')
       /\ rows_where (image s') "items" "id" (prop this "id") = [].
Proof.
  intros s this new.
  assert (H1 : truthy (primaryKey items) = Some "id") by reflexivity.
  assert (H2 : truthy (primaryKey archive) = Some "id") by reflexivity.
  assert (H3 : well_named (schema archive)) by by_running.
  assert (H4 : NoDup (name <$> schema archive)) by by_running.
  assert (Hp : plain (schema items)) by by_running.
  assert (Hp' : plain (schema archive)) by by_running.
  assert (Hi : instance_of items this) by by_running.
  assert (H5 : tableName items <> tableName archive) by discriminate.
  assert (H6 : no_faults s = true) by reflexivity.
  assert (H7 : lookup_table (tableName items) (image s) = Some (items_table [item_a]))
    by reflexivity.
  assert (H8 : "id" ∈ column_names (items_table [item_a])) by compute_done.
  assert (H9 : lookup_table (tableName archive) (image s)
               = Some {| columns := [("id", TEXT); ("size", INTEGER); ("note", TEXT)];
                         records := [] |}) by reflexivity.
  assert (H10 : columns {| columns := [("id", TEXT); ("size", INTEGER); ("note", TEXT)];
                           records := [] |}
                = columns (created_table (schema archive))) by reflexivity.
  assert (H11 : storable (schema archive) new = true) by (vm_compute; reflexivity).
  assert (H12 : sql_value (prop new "id") <> VNull) by (vm_compute; discriminate).
  assert (H13 : rows_where (image s) (tableName archive) "id" (prop new "id") = [])
    by (vm_compute; reflexivity).
  repeat (split; [assumption|]).
  destruct (convert_moves_the_row (fun _ => None) items archive this s "id" "id" _ _
              H1 H2 H3 H4 Hp Hp' Hi H5 H6 H7 H8 H9 H10 H11 H12 H13)
    as (s' & found & s'' & E & _ & _ & R).
  exists s'. split; [exact E|exact R].
Defined.

(** ** Adding the declared columns a table lacks *)

Lemma replace_table_same t tb img :
  lookup_table t img = Some tb -> replace_table t tb img = img.
Proof.
  induction img as [|[n x] img IH]; cbn; [done|].
  destruct (decide (n = t)) as [->|Hne]; [by intros [= ->]|].
  intros H. by rewrite IH.
Qed.

Lemma add_missing_run table missing :
  forall s tb resolved,
    no_faults s = true ->
    lookup_table table (image s) = Some tb ->
    Forall (fun r => length r = length (columns tb)) (records tb) ->
    NoDup (name <$> missing) ->
    Forall (fun f => name f ∉ column_names tb) missing ->
    exists s',
      add_missing table missing resolved s = (Ret resolved, s')
      /\ image s'
         = replace_table table
             {| columns := columns tb ++ ((fun f => (name f, type f)) <$> missing);
                records := (fun r => r ++ ((fun f => sql_value (default VNull (default_value f)))
                                           <$> missing)) <$> records tb |}
             (image s)
      /\ no_faults s' = true.
Proof.
  induction missing as [|f missing IH]; intros s tb resolved Hnf Ht Hrows Hnd Hnin.
  { exists s. split; [done|]. split; [|done]. cbn.
    rewrite app_nil_r.
    assert ((fun r : list Value => r ++ []) <$> records tb = records tb) as ->.
    { rewrite <- (list_fmap_id (records tb)) at 2. apply list_fmap_ext.
      intros i r _. by rewrite app_nil_r. }
    assert ({| columns := columns tb; records := records tb |} = tb) as -> by (by destruct tb).
    symmetry. by apply replace_table_same. }
  rewrite fmap_cons in Hnd. apply NoDup_cons in Hnd as [Hf Hnd].
  apply Forall_cons in Hnin as [Hfn Hnin].
  destruct (addField_run table (name f) (type f) (default_value f) s tb Hnf Ht Hrows Hfn)
    as (s1 & E1 & I1 & Hnf1).
  set (tb1 := {| columns := columns tb ++ [(name f, type f)];
                 records := (fun r => r ++ [sql_value (default VNull (default_value f))])
                            <$> records tb |}) in *.
  destruct (IH s1 tb1 resolved Hnf1) as (s2 & E2 & I2 & Hnf2).
  - rewrite I1. apply lookup_replace_eq. by eexists.
  - cbn [records columns tb1]. apply Forall_fmap. eapply Forall_impl; [exact Hrows|].
    intros r Hr. cbn. rewrite !length_app, Hr. done.
  - done.
  - apply Forall_forall. intros g Hg. unfold column_names. cbn [columns tb1].
    rewrite fmap_app. cbn. rewrite not_elem_of_app. split.
    + exact (proj1 (Forall_forall _ _) Hnin g Hg).
    + intros E%list_elem_of_singleton. apply Hf. rewrite <- E.
      by apply list_elem_of_fmap_2.
  - exists s2. cbn [add_missing]. rewrite (bind_run _ _ _ _ _ E1).
    cbn [code resp]. rewrite decide_False by (intros H; by apply H).
    split; [exact E2|]. split; [|done].
    rewrite I2, I1, replace_replace. f_equal. cbn [columns records tb1].
    rewrite !fmap_cons. f_equal.
    + by rewrite <- app_assoc.
    + rewrite <- list_fmap_compose. apply list_fmap_ext. intros i r _. cbn.
      by rewrite <- app_assoc.
Qed.



(** ** Dropping the columns that are not declared *)

Lemma delete_columns_filter (cols : list (string * string)) i f :
  NoDup cols.*1 -> cols.*1 !! i = Some f ->
  delete i cols = filter (fun c => c.1 <> f) cols.
Proof.
  revert i. induction cols as [|[n ty] cols IH]; intros i Hnd Hi; [done|].
  rewrite fmap_cons in Hnd. apply NoDup_cons in Hnd as [Hnin Hnd].
  destruct i as [|i]; cbn in Hi.
  - injection Hi as ->. cbn [delete list_delete].
    rewrite filter_cons_False by (intros H; by apply H).
    symmetry. apply filter_all. apply Forall_forall. intros [n' ty'] Hc E. cbn in E. subst n'.
    apply Hnin. by apply (list_elem_of_fmap_2 fst) in Hc.
  - cbn [delete list_delete]. rewrite filter_cons_True.
    + f_equal. by apply IH.
    + cbn. intros ->. apply Hnin. by eapply list_elem_of_lookup_2.
Qed.

Lemma row_object_dropped (tb : Table) (r : list Value) i f k :
  NoDup (column_names tb) -> column_names tb !! i = Some f -> k <> f ->
  row_object {| columns := delete i (columns tb); records := [] |} (delete i r) !! k
  = row_object tb r !! k.
Proof.
  intros Hnd Hi Hk.
  set (tb' := {| columns := delete i (columns tb); records := [] |}).
  assert (Hnames : column_names tb' = delete i (column_names tb)).
  { unfold column_names. cbn. by rewrite list_fmap_delete. }
  assert (Hnd' : NoDup (column_names tb')).
  { rewrite Hnames. eapply sublist_NoDup; [exact Hnd|]. apply sublist_delete. }
  destruct (decide (k ∈ column_names tb)) as [Hin|Hnin].
  - apply list_elem_of_lookup in Hin as [j Hj].
    assert (j <> i) by (intros ->; congruence).
    rewrite (row_object_lookup tb r j k Hnd Hj).
    destruct (decide (j < i)) as [Hlt|Hge].
    + rewrite (row_object_lookup tb' _ j k Hnd').
      * by apply list_lookup_delete_lt.
      * rewrite Hnames. by rewrite list_lookup_delete_lt.
    + destruct j as [|j]; [lia|].
      rewrite (row_object_lookup tb' _ j k Hnd').
      * apply list_lookup_delete_ge. lia.
      * rewrite Hnames. rewrite list_lookup_delete_ge by lia. done.
  - unfold row_object, fromEntries. rewrite !fromEntries_zip_other; [done|done|].
    rewrite Hnames. intros Hin. apply Hnin. by eapply list_elem_of_delete_inv.
Qed.

Lemma row_object_columns tb tb' r :
  columns tb = columns tb' -> row_object tb r = row_object tb' r.
Proof. intros H. unfold row_object, column_names. by rewrite H. Qed.

Lemma deleteField_run table f s tb i :
  no_faults s = true ->
  lookup_table table (image s) = Some tb ->
  index_of f (column_names tb) = Some i ->
  2 <= length (columns tb) ->
  exists s',
    deleteField table f s = (Ret (resp 200 true), s')
    /\ image s' = replace_table table
                    {| columns := delete i (columns tb);
                       records := (fun r => delete i r) <$> records tb |} (image s)
    /\ no_faults s' = true.
Proof.
  intros Hnf Ht Hi Hlen. unfold deleteField. rewrite bind_unfold.
  erewrite db_run_ok; [|by apply no_faults_next|].
  2:{ cbn. unfold with_table. rewrite Ht. cbn. rewrite Hi. cbn.
      rewrite decide_False by lia. cbn. reflexivity. }
  eexists. split; [reflexivity|]. split; [done|]. by apply no_faults_step.
Qed.

Lemma delete_unused_fields_run table unused :
  forall s tb resolved,
    no_faults s = true ->
    lookup_table table (image s) = Some tb ->
    NoDup (column_names tb) ->
    NoDup unused ->
    Forall (fun n => n ∈ column_names tb) unused ->
    length unused < length (columns tb) ->
    exists s' tb' keep,
      delete_unused_fields table unused resolved s = (Ret resolved, s')
      /\ image s' = replace_table table tb' (image s)
      /\ no_faults s' = true
      /\ columns tb' = filter (fun c => c.1 ∉ unused) (columns tb)
      /\ records tb' = keep <$> records tb
      /\ forall r k, k ∉ unused -> row_object tb' (keep r) !! k = row_object tb r !! k.
Proof.
  induction unused as [|f unused IH]; intros s tb resolved Hnf Ht Hnd Hndu Hall Hlen.
  { exists s, tb, id. split; [done|]. split; [symmetry; by apply replace_table_same|].
    split; [done|]. split.
    - symmetry. apply filter_all. apply Forall_forall. by intros c _ ?%elem_of_nil.
    - split; [by rewrite list_fmap_id|done]. }
  apply NoDup_cons in Hndu as [Hfu Hndu]. apply Forall_cons in Hall as [Hf Hall].
  destruct (index_of_elem _ _ Hf) as [i Hi].
  cbn [length] in Hlen.
  destruct (deleteField_run table f s tb i Hnf Ht Hi) as (s1 & E1 & I1 & Hnf1); [lia|].
  set (tb1 := {| columns := delete i (columns tb);
                 records := (fun r => delete i r) <$> records tb |}) in *.
  pose proof (index_of_lookup _ _ _ Hi) as Hif.
  assert (Hcols1 : columns tb1 = filter (fun c => c.1 <> f) (columns tb)).
  { by apply delete_columns_filter. }
  assert (Hnames1 : column_names tb1 = delete i (column_names tb)).
  { unfold column_names. cbn. by rewrite list_fmap_delete. }
  assert (Hnd1 : NoDup (column_names tb1)).
  { rewrite Hnames1. eapply sublist_NoDup; [exact Hnd|]. apply sublist_delete. }
  destruct (IH s1 tb1 resolved Hnf1) as (s2 & tb2 & keep & E2 & I2 & Hnf2 & Hc2 & Hr2 & Hk2).
  - rewrite I1. apply lookup_replace_eq. by eexists.
  - done.
  - done.
  - apply Forall_forall. intros n Hn.
    pose proof (proj1 (Forall_forall _ _) Hall n Hn) as Hin.
    unfold column_names in *. rewrite Hcols1.
    apply list_elem_of_fmap in Hin as (c & -> & Hc).
    apply list_elem_of_fmap_2, list_elem_of_filter. split; [|done].
    intros E. apply Hfu. by rewrite <- E.
  - cbn [columns tb1].
    assert (is_Some (columns tb !! i)) as Hsome.
    { unfold column_names in Hif. apply list_lookup_fmap_Some in Hif as (c & _ & Hc).
      by eexists. }
    rewrite length_delete by done. lia.
  - exists s2, tb2, (fun r => keep (delete i r)).
    split; [|split; [|split; [done|split; [|split]]]].
    + cbn [delete_unused_fields]. rewrite (bind_run _ _ _ _ _ E1).
      cbn [code resp]. rewrite decide_False by (intros H; by apply H). exact E2.
    + by rewrite I2, I1, replace_replace.
    + rewrite Hc2, Hcols1, list_filter_filter. apply list_filter_iff.
      intros c. rewrite not_elem_of_cons. tauto.
    + rewrite Hr2. cbn [records tb1]. by rewrite <- list_fmap_compose.
    + intros r k [Hkf Hku]%not_elem_of_cons. rewrite Hk2 by done.
      rewrite (row_object_columns tb1 {| columns := delete i (columns tb); records := [] |})
        by done.
      by apply (row_object_dropped tb r i f k).
Qed.

Lemma filter_length_shorter {A} (P : A -> Prop) `{forall x, Decision (P x)} (l : list A) x :
  x ∈ l -> ~ P x -> length (filter P l) < length l.
Proof.
  intros Hx HP. induction l as [|a l IH]; [by apply elem_of_nil in Hx|].
  apply elem_of_cons in Hx as [->|Hx].
  - rewrite filter_cons_False by done. cbn. pose proof (length_filter P l). lia.
  - specialize (IH Hx). rewrite filter_cons. destruct (decide (P a)); cbn; lia.
Qed.

(** [createTable] on a table that exists, with dropping on: when the
    table has every declared column, the columns that are not declared
    are dropped, the declared ones stay in their order with their types,
    and every stored row keeps its value under every declared column; the
    other tables are untouched.  The column names of the table are
    distinct, and no declared column names an old one. *)
Theorem createTable_drops_undeclared_columns (this : Database) (table : string)
    (fields : TableSchema) (s : Sys) (tb : Table) :
  delete_unused this = true ->
  no_faults s = true ->
  lookup_table table (image s) = Some tb ->
  NoDup (column_names tb) ->
  fields <> [] ->
  Forall (fun f => truthy (old f) = None) fields ->
  Forall (fun f => name f ∈ column_names tb) fields ->
  exists s' tb',
    createTable this table fields s = (Ret (resp 200 true), s')
    /\ image s' = replace_table table tb' (image s)
    /\ columns tb' = filter (fun c => c.1 ∈ name <$> fields) (columns tb)
    /\ row_object tb' <$> records tb'
       = (fun r => filter (fun kv => kv.1 ∈ name <$> fields) (row_object tb r))
         <$> records tb.
Proof.
  intros Hdu Hnf Ht Hnd Hne Hold Hall.
  destruct (tableExists_reads table s Hnf) as (r & s1 & E1 & -> & I1 & _ & _ & Hnf1 & _).
  unfold createTable. rewrite (bind_run _ _ _ _ _ E1), Ht.
  rewrite (bool_decide_eq_true_2 (is_Some _)) by (by eexists). answered.
  unfold addFields. rewrite bind_unfold, rename_fields_none by done.
  destruct (db_all_info_read (STableInfo table) (info_row <$> columns tb) s1 Hnf1 eq_refl)
    as (r & s2 & E2 & -> & I2 & _ & _ & Hnf2 & _).
  { cbn. by rewrite I1, Ht. }
  rewrite (bind_run _ _ _ _ _ E2). cbn beta iota zeta.
  assert (Hdbf : name <$> (info_row <$> columns tb) = column_names tb).
  { unfold column_names. by rewrite <- list_fmap_compose. }
  rewrite Hdbf. rewrite Hdu. cbn [andb].
  assert (Hmissing : filter (fun e => name e ∉ column_names tb) fields = []).
  { apply filter_none. eapply Forall_impl; [exact Hall|]. cbn. tauto. }
  assert (Hrun1 : (if bool_decide
                        (length (filter (fun e => name e ∉ column_names tb) fields) <> 0)
                   then add_missing table
                          (filter (fun e => name e ∉ column_names tb) fields) None
                   else ret None) s2 = (Ret None, s2)).
  { by rewrite Hmissing. }
  rewrite (bind_run _ _ _ _ _ Hrun1).
  set (unused := filter (fun e => e ∉ name <$> fields) (column_names tb)).
  destruct (delete_unused_fields_run table unused s2 tb None Hnf2)
    as (s3 & tb' & keep & E3 & I3 & _ & Hc & Hr & Hk).
  { by rewrite I2, I1. }
  { done. }
  { by apply NoDup_filter. }
  { apply Forall_forall. by intros n [_ ?]%list_elem_of_filter. }
  { destruct fields as [|f0 fields']; [done|].
    apply Forall_cons in Hall as [Hf0 _].
    unfold column_names in *. rewrite <- (length_fmap fst (columns tb)).
    apply (filter_length_shorter _ _ (name f0)); [done|].
    intros Hn. apply Hn. by left. }
  assert (Hunused : forall k, k ∈ column_names tb -> (k ∉ unused <-> k ∈ name <$> fields)).
  { intros k Hkn. unfold unused. rewrite list_elem_of_filter. split.
    - intros Hn. destruct (decide (k ∈ name <$> fields)); [done|]. destruct Hn. done.
    - intros Hin [Hn _]. done. }
  assert (Hcols : columns tb' = filter (fun c => c.1 ∈ name <$> fields) (columns tb)).
  { rewrite Hc. clear -Hunused. unfold column_names in Hunused.
    induction (columns tb) as [|c cols IH]; [done|].
    rewrite !filter_cons.
    assert (c.1 ∉ unused <-> c.1 ∈ name <$> fields) as Hiff.
    { apply Hunused. rewrite fmap_cons. by left. }
    rewrite IH.
    - destruct (decide (c.1 ∉ unused)), (decide (c.1 ∈ name <$> fields)); tauto.
    - intros k Hkn. apply Hunused. rewrite fmap_cons. by right. }
  exists (if bool_decide (length unused <> 0) then s3 else s2), tb'.
  assert (Hrun : (if bool_decide (length unused <> 0)
                  then delete_unused_fields table unused None else ret None) s2
                 = (Ret None, if bool_decide (length unused <> 0) then s3 else s2)).
  { destruct (bool_decide (length unused <> 0)); done. }
  split; [|split; [|split; [exact Hcols|]]].
  - rewrite (bind_run _ _ _ _ _ Hrun). reflexivity.
  - destruct (bool_decide (length unused <> 0)) eqn:Hl.
    + by rewrite I3, I2, I1.
    + apply bool_decide_eq_false in Hl.
      assert (Hu : unused = []) by (destruct unused; [done|]; destruct Hl; done).
      rewrite Hu in E3. cbn in E3. injection E3 as <-.
      rewrite I2, I1 in I3. by rewrite I2, I1.
  - rewrite Hr, <- list_fmap_compose. apply list_fmap_ext. intros j r _. cbn.
    apply map_eq. intros k.
    destruct (decide (k ∈ name <$> fields)) as [Hin|Hnin].
    + assert (Hkc : k ∈ column_names tb).
      { apply list_elem_of_fmap in Hin as (f & -> & Hf).
        exact (proj1 (Forall_forall _ _) Hall f Hf). }
      rewrite Hk by (by apply Hunused).
      destruct (row_object tb r !! k) as [v|] eqn:Hv.
      * symmetry. by apply map_lookup_filter_Some.
      * symmetry. apply map_lookup_filter_None. by left.
    + transitivity (@None Value).
      * unfold row_object, fromEntries. rewrite fromEntries_zip_other; [done|].
        unfold column_names. rewrite Hcols.
        intros (c & -> & [Hc' _]%list_elem_of_filter)%list_elem_of_fmap. done.
      * symmetry. apply map_lookup_filter_None. right. intros v _. done.
Qed.

Lemma createTable_drops_undeclared_columns_witness :
  let s := env legacy_state in
  let tb := {| columns := [("size", INTEGER); ("junk", TEXT); ("link", TEXT); ("id", TEXT)];
               records := [[VInt 10; VText "j"; VText "http://x"; VText "a"]] |} in
  let fields := [ column "id" TEXT true; column "size" INTEGER false ] in
  delete_unused demo_db = true
  /\ no_faults s = true
  /\ lookup_table "items" (image s) = Some tb
  /\ NoDup (column_names tb)
  /\ fields <> []
  /\ Forall (fun f => truthy (old f) = None) fields
  /\ Forall (fun f => name f ∈ column_names tb) fields
  /\ exists s' tb',
       createTable demo_db "items" fields s = (Ret (resp 200 true), s')
       /\ image s' = replace_table "items" tb' (image s)
       /\ columns tb' = [("size", INTEGER); ("id", TEXT)].
Proof.
  intros s tb fields.
  assert (H1 : delete_unused demo_db = true) by reflexivity.
  assert (H2 : no_faults s = true) by reflexivity.
  assert (H3 : lookup_table "items" (image s) = Some tb) by reflexivity.
  assert (H4 : NoDup (column_names tb)) by compute_done.
  assert (H5 : fields <> []) by discriminate.
  assert (H6 : Forall (fun f => truthy (old f) = None) fields) by (repeat constructor).
  assert (H7 : Forall (fun f => name f ∈ column_names tb) fields) by compute_done.
  repeat (split; [assumption|]).
  destruct (createTable_drops_undeclared_columns demo_db "items" fields s tb
              H1 H2 H3 H4 H5 H6 H7) as (s' & tb' & E & I & C & _).
  exists s', tb'. split; [exact E|]. split; [exact I|]. rewrite C. vm_compute. reflexivity.
Defined.

(** ** Pruning the tables that are not declared *)

Lemma remove_table_filter t img :
  NoDup img.*1 ->
  remove_table t img = List.filter (fun x => bool_decide (x.1 <> t)) img.
Proof.
  induction img as [|[n tb] img IH]; cbn; [done|].
  intros [Hnin Hnd]%NoDup_cons. destruct (decide (n = t)) as [->|Hne].
  - rewrite bool_decide_eq_false_2 by (intros H; by apply H).
    symmetry. apply List.forallb_filter_id, forallb_forall. intros [n' tb'] Hx%list_elem_of_In.
    apply bool_decide_eq_true_2. cbn. intros ->. apply Hnin.
    by apply (list_elem_of_fmap_2 fst) in Hx.
  - rewrite bool_decide_eq_true_2 by done. by rewrite IH.
Qed.

Lemma remove_table_NoDup t img : NoDup img.*1 -> NoDup (remove_table t img).*1.
Proof.
  intros Hnd. rewrite remove_table_filter by done.
  induction img as [|[n tb] img IH]; cbn; [constructor|].
  cbn in Hnd. apply NoDup_cons in Hnd as [Hnin Hnd].
  destruct (bool_decide (n <> t)); cbn; [|by apply IH].
  apply NoDup_cons. split; [|by apply IH].
  intros (x & Hx & Hin%list_elem_of_In)%list_elem_of_fmap.
  apply List.filter_In in Hin as [Hin%list_elem_of_In _].
  apply Hnin. rewrite Hx. by apply (list_elem_of_fmap_2 fst) in Hin.
Qed.

Lemma prune_tables_run this listed :
  forall s,
    delete_unused this = true ->
    no_faults s = true ->
    NoDup (image s).*1 ->
    NoDup listed ->
    (forall t, t ∈ listed -> is_Some (lookup_table t (image s))) ->
    exists s',
      prune_tables this listed s = (Ret tt, s')
      /\ image s'
         = List.filter (fun x => bool_decide (x.1 ∉ listed) || declared this x.1) (image s)
      /\ no_faults s' = true.
Proof.
  induction listed as [|t listed IH]; intros s Hdu Hnf Hndi Hndl Hall.
  { exists s. split; [done|]. split; [|done].
    symmetry. apply List.forallb_filter_id, forallb_forall. intros x _.
    rewrite bool_decide_eq_true_2; [done|]. by intros ?%elem_of_nil. }
  apply NoDup_cons in Hndl as [Hnin Hndl].
  cbn [prune_tables]. rewrite Hdu. cbn [andb].
  destruct (declared this t) eqn:Hdecl; cbn [negb].
  - rewrite bind_unfold, ret_unfold.
    destruct (IH s Hdu Hnf Hndi Hndl) as (s' & E & I & Hnf').
    { intros t' Ht'. apply Hall. by right. }
    exists s'. split; [done|]. split; [|done]. rewrite I.
    apply List.filter_ext. intros [n tb]. cbn.
    destruct (decide (n = t)) as [->|Hne].
    + by rewrite Hdecl, !orb_true_r.
    + f_equal. apply bool_decide_ext. rewrite not_elem_of_cons. tauto.
  - destruct (deleteTable_present t s Hnf) as (s1 & E1 & I1 & _ & Hnf1).
    { apply Hall. by left. }
    rewrite !bind_unfold, E1, ret_unfold.
    destruct (IH s1 Hdu Hnf1) as (s' & E & I & Hnf'); [|done| |].
    { rewrite I1. by apply remove_table_NoDup. }
    { intros t' Ht'. rewrite I1, lookup_remove_ne; [apply Hall; by right|].
      intros ->. done. }
    exists s'. split; [done|]. split; [|done].
    rewrite I, I1, remove_table_filter by done.
    clear -Hdecl. induction (image s) as [|[n tb] img IHi]; cbn; [done|].
    destruct (decide (n = t)) as [->|Hne].
    + rewrite (bool_decide_eq_false_2 (t <> t)) by (intros H; by apply H).
      rewrite (bool_decide_eq_false_2 (t ∉ t :: listed)) by (intros H; apply H; by left).
      cbn. by rewrite Hdecl.
    + rewrite (bool_decide_eq_true_2 (n <> t)) by done. cbn.
      rewrite (bool_decide_ext (n ∉ t :: listed) (n ∉ listed))
        by (rewrite not_elem_of_cons; tauto).
      by rewrite IHi.
Qed.

(** [open] on storage whose declared tables already conform, with
    dropping on: the tables of storage that are not declared are dropped,
    and every other table stays as it is, rows included.  A table named
    like a property every object inherits counts as declared and stays. *)
Theorem open_drops_undeclared_tables (this : Database) (st : State) :
  delete_unused this = true ->
  no_faults (env st) = true ->
  NoDup (image (env st)).*1 ->
  forallb (fun d => match lookup_table d.1 (image (env st)) with
                    | Some tb => table_conformant this d.2 tb
                    | None => false
                    end) (tables this) = true ->
  exists st',
    open this st = (Ret (resp 200 true), st')
    /\ image (env st') = List.filter (fun x => declared this x.1) (image (env st))
    /\ forall t, t ∈ inherited_properties ->
         lookup_table t (image (env st')) = lookup_table t (image (env st)).
Proof.
  intros Hdu Hnf Hnd Hconf.
  assert (Hm : forall s, no_faults s = true -> image s = image (env st) ->
               exists s', migrate this s = (Ret tt, s')
                          /\ image s' = List.filter (fun x => declared this x.1) (image s)).
  { intros s Hnfs Hi. unfold migrate.
    destruct (migrate_tables_reads this (tables this) s Hnfs)
      as ([] & s1 & E1 & _ & I1 & _ & _ & Hnf1 & _); [by rewrite Hi|].
    destruct (getTables_reads s1 Hnf1) as (r & s2 & E2 & Hr & I2 & _ & _ & Hnf2 & _).
    rewrite (bind_run _ _ _ _ _ E1), (bind_run _ _ _ _ _ E2), Hr. cbn [default].
    destruct (prune_tables_run this (image s1).*1 s2 Hdu Hnf2) as (s' & E & I & _).
    - by rewrite I2, I1, Hi.
    - by rewrite I1, Hi.
    - intros t Ht. rewrite I2. destruct (lookup_table t (image s1)) eqn:El; [by eexists|].
      by apply lookup_table_None in El.
    - exists s'. split; [done|]. rewrite I, I2, I1.
      apply List.filter_ext_in. intros [n tb] Hin%list_elem_of_In. cbn.
      rewrite bool_decide_eq_false_2; [done|]. intros H. apply H.
      by apply (list_elem_of_fmap_2 fst) in Hin. }
  unfold open, lift, fs_mkdir, open_handle, in_callback, set_ready, set_backup_timer,
    set_vacuum_timer, ret, bind. cbn.
  rewrite (no_faults_next _ (no_faults_step _ _ _ _ Hnf)). cbn.
  match goal with
  | |- context [migrate this ?s] =>
      destruct (Hm s) as (s3 & E & I); [by do 2 apply no_faults_step|done|]
  end.
  rewrite E. cbn in I.
  assert (Hkeep : forall t, t ∈ inherited_properties ->
                  lookup_table t (image s3) = lookup_table t (image (env st))).
  { intros t Ht. rewrite I. clear -Ht.
    induction (image (env st)) as [|[n tb] img IH]; cbn; [done|].
    destruct (decide (n = t)) as [->|Hne].
    - assert (declared this t = true) as -> by (apply bool_decide_eq_true_2; by right).
      cbn. by rewrite decide_True.
    - destruct (declared this n); cbn; [by rewrite decide_False|done]. }
  destruct (backup_enabled this), (vacuum_enabled this); cbn;
    (eexists; split; [reflexivity|]; cbn; split; [done|exact Hkeep]).
Qed.

(** ** The server's [prepareItem] *)

Lemma on_storage_run {A} (c : M A) sv a s :
  c (storage sv) = (Ret a, s) ->
  on_storage c sv
  = (Ret a, {| BUSY := BUSY sv; storage := s; zip_file := zip_file sv; actions := actions sv |}).
Proof. intros E. unfold on_storage. by rewrite E. Qed.

Lemma create_items_values a b c d :
  (fun col => prop (create items [a; b; c; d]) (name col)) <$> schema items = [a; b; c; d].
Proof.
  assert (Hnd : NoDup (name <$> schema items)) by by_running.
  assert (Hwn : well_named (schema items)) by by_running.
  pose proof (fun i col H =>
    assign_columns_value (schema items) 0 [a; b; c; d] {[ "_db" := VObject dbInstance ]}
      i col Hnd (fun c1 c2 H1 H2 => well_named_elim _ c1 c2 Hwn H1 H2) H) as Hv.
  change (schema items) with items_schema in *.
  unfold create. change (schema items) with items_schema.
  set (this := assign_columns items_schema 0 [a; b; c; d] _) in *.
  unfold items_schema. rewrite !fmap_cons, fmap_nil.
  rewrite (Hv 0 _ eq_refl), (Hv 1 _ eq_refl), (Hv 2 _ eq_refl), (Hv 3 _ eq_refl).
  reflexivity.
Qed.

(** [prepareItem] on runs where the engine answers: it always settles
    with [config.BUSY] cleared.  When a row of the item is stored (after
    the first one was deleted, if [force] is set) it answers [true]
    without downloading anything.  Otherwise it downloads, and answers
    [true] exactly when an archive below the size limit was uploaded; the
    row it then stores holds the URL and the size, so that [find] answers
    it.  When it answers [false] no row of the item is stored, and after a
    download no archive is left behind. *)
Theorem prepareItem_outcome (ToNumber : string -> option Z) (out : Outside)
    (steamId : string) (time_updated : option Z) (force : bool) (sv : Server) (tb : Table) :
  no_faults (storage sv) = true ->
  lookup_table "items" (image (storage sv)) = Some tb ->
  columns tb = columns (created_table items_schema) ->
  let fid := steamId +:+ "_" +:+ number_text time_updated in
  let stored := rows_where (image (storage sv)) "items" "id" (VText fid) in
  let kept := if force then tail stored else stored in
  exists b sv',
    prepareItem ToNumber out steamId time_updated force sv = (Ret b, sv')
    /\ BUSY sv' = false
    /\ match kept with
       | _ :: _ =>
           b = true
           /\ actions sv' = actions sv /\ zip_file sv' = zip_file sv
           /\ rows_where (image (storage sv')) "items" "id" (VText fid) = kept
       | [] =>
           zip_file sv' = None
           /\ match download_error out, archive_after out, truthy (upload_answer out) with
              | None, Some size, Some url =>
                  if bool_decide (MAX_FILE_SIZE <= size)%Z
                  then b = false
                       /\ rows_where (image (storage sv')) "items" "id" (VText fid) = []
                  else b = true
                       /\ rows_where (image (storage sv')) "items" "id" (VText fid)
                          = [[VText fid; VText steamId; VText url; VInt size]]
              | _, _, _ =>
                  b = false
                  /\ rows_where (image (storage sv')) "items" "id" (VText fid) = []
              end
       end.
Proof.
  intros Hnf Ht Hcols fid stored kept.
  assert (Hpk : truthy (primaryKey items) = Some "id") by reflexivity.
  assert (Hnames : column_names tb = name <$> schema items).
  { unfold column_names. by rewrite Hcols. }
  assert (Hin : "id" ∈ column_names tb) by (rewrite Hnames; compute_done).
  (* the delete under [force] *)
  assert (exists s1 tb1,
             (if force
              then let* _ := on_storage (delete_static items (VText fid)) in ret tt
              else ret tt)
               {| BUSY := true; storage := storage sv; zip_file := zip_file sv;
                  actions := actions sv |}
             = (Ret tt, {| BUSY := true; storage := s1; zip_file := zip_file sv;
                           actions := actions sv |})
             /\ no_faults s1 = true
             /\ lookup_table "items" (image s1) = Some tb1
             /\ columns tb1 = columns tb
             /\ rows_where (image s1) "items" "id" (VText fid) = kept)
    as (s1 & tb1 & E1 & Hnf1 & Ht1 & Hc1 & Hkept).
  { destruct force.
    - destruct (delete_static_run items "id" (VText fid) (storage sv) tb Hpk Hnf Ht Hin)
        as (s1 & tb1 & E & I & _ & Hnf1 & Hc & _ & Hrows).
      exists s1, tb1. split.
      + rewrite bind_unfold. by erewrite on_storage_run by exact E.
      + split; [done|]. split; [|done].
        rewrite I. apply lookup_replace_eq. by eexists.
    - exists (storage sv), tb. done. }
  assert (Hnames1 : column_names tb1 = name <$> schema items).
  { unfold column_names. by rewrite Hc1, Hcols. }
  destruct (index_of_elem "id" (column_names tb1)) as [i Hi].
  { rewrite Hnames1. compute_done. }
  pose proof (find_run items "id" (VText fid) s1 tb1 i Hpk (no_faults_next _ Hnf1) Ht1 Hi)
    as E2.
  change (tableName items) with "items" in E2. rewrite Hkept in E2.
  set (s2 := step s1 (image s1) (files s1)
               (EvExec (SSelect "items" (Some ("id", "=", VText fid)) (Some 1%Z)) true)) in *.
  assert (Hnf2 : no_faults s2 = true) by (by apply no_faults_step).
  unfold prepareItem, try_catch. fold fid.
  rewrite bind_unfold. unfold set_BUSY at 1.
  rewrite (bind_run _ _ _ _ _ E1). cbn beta.
  rewrite (bind_run _ _ _ _ _
             (on_storage_run (find items (VText fid))
                {| BUSY := true; storage := s1; zip_file := zip_file sv;
                   actions := actions sv |} _ _ E2)).
  cbn beta.
  cbn [BUSY storage zip_file actions].
  destruct kept as [|r0 rest] eqn:Hk; cbn [head fmap option_fmap option_map].
  2:{ (* a row is stored *)
      cbn. do 2 eexists. split; [reflexivity|]. cbn. repeat split. exact Hkept. }
  (* nothing is stored: download *)
  rewrite !bind_unfold. unfold downloadItems at 1.
  destruct (download_error out) as [message|].
  { destruct (archive_after out); cbn; do 2 eexists; (split; [reflexivity|]); cbn; done. }
  destruct (archive_after out) as [size|].
  2:{ cbn. do 2 eexists. split; [reflexivity|]. cbn. done. }
  cbn -[truthy save create MAX_FILE_SIZE Z.le on_storage].
  destruct (bool_decide (MAX_FILE_SIZE <= size)%Z) eqn:Hbig.
  { cbn. do 2 eexists. split; [reflexivity|]. cbn.
    repeat split; try done; by destruct (truthy (upload_answer out)). }
  cbn -[truthy save create MAX_FILE_SIZE Z.le on_storage].
  destruct (truthy (upload_answer out)) as [url|].
  2:{ cbn. do 2 eexists. split; [reflexivity|]. cbn. done. }
  (* the row is stored *)
  set (this := create items [VText fid; VText steamId; VText url; VInt size]).
  assert (Hkey : prop this "id" = VText fid).
  { assert (Hnd : NoDup (name <$> schema items)) by by_running.
    assert (Hwn : well_named (schema items)) by by_running.
    exact (assign_columns_value (schema items) 0
             [VText fid; VText steamId; VText url; VInt size] _ 0 (column "id" TEXT true) Hnd
             (fun c1 c2 H1 H2 => well_named_elim _ c1 c2 Hwn H1 H2) eq_refl). }
  assert (Hdb : this !! "_db" = Some (VObject dbInstance)).
  { apply create_holds_database. by_running. }
  destruct (save_inserts ToNumber items this s2 "id" tb1 Hpk) as (s3 & _ & E3 & _ & _ & _ & Hrows);
    [by_running|done|done|done|done|by rewrite Hkey|by rewrite Hkey|].
  rewrite Hkey in Hrows.
  unfold this in Hrows.
  rewrite (create_items_values (VText fid) (VText steamId) (VText url) (VInt size)) in Hrows.
  fold this.
  rewrite (bind_run _ _ _ _ _
             (on_storage_run (save ToNumber items this)
                {| BUSY := true; storage := s2; zip_file := None;
                   actions := AUnlink :: AUpload size :: ADownload steamId :: actions sv |}
                _ _ E3)).
  cbn. do 2 eexists. split; [reflexivity|]. cbn. done.
Qed.

(** ** The upload body *)

Lemma string_length_append (a b : string) :
  String.length (a +:+ b) = String.length a + String.length b.
Proof.
  induction a as [|c a IH]; [done|].
  change (String c a +:+ b) with (String c (a +:+ b)).
  cbn [String.length]. by rewrite IH.
Qed.

Lemma string_append_assoc (a b c : string) : (a +:+ b) +:+ c = a +:+ (b +:+ c).
Proof.
  induction a as [|x a IH]; [done|].
  change ((String x a +:+ b) +:+ c) with (String x ((a +:+ b) +:+ c)).
  change (String x a +:+ (b +:+ c)) with (String x (a +:+ (b +:+ c))).
  by rewrite IH.
Qed.

Lemma string_append_nil_r (a : string) : a +:+ "" = a.
Proof.
  induction a as [|x a IH]; [done|].
  change (String x a +:+ "") with (String x (a +:+ "")). by rewrite IH.
Qed.

Lemma bytes_of_app l k : bytes_of (l ++ k) = bytes_of l +:+ bytes_of k.
Proof.
  induction l as [|b l IH]; [done|].
  change (bytes_of ((b :: l) ++ k)) with (b +:+ bytes_of (l ++ k)).
  change (bytes_of (b :: l)) with (b +:+ bytes_of l).
  by rewrite IH, string_append_assoc.
Qed.

Lemma forward_chunks_spec chunks :
  forall uploadedBytes,
    (forward_chunks chunks uploadedBytes).1 = chunks
    /\ length (forward_chunks chunks uploadedBytes).2 = length chunks
    /\ forall k, k < length chunks ->
         (forward_chunks chunks uploadedBytes).2 !! k
         = Some (uploadedBytes + String.length (bytes_of (take (S k) chunks))).
Proof.
  induction chunks as [|chunk rest IH]; intros n.
  { repeat split. intros k Hk. cbn in Hk. lia. }
  destruct (IH (n + String.length chunk)) as (Hy & Hl & Hr).
  cbn [forward_chunks].
  destruct (forward_chunks rest (n + String.length chunk)) as [yielded reported].
  cbn [fst snd] in *. split; [by rewrite Hy|]. split; [cbn; by rewrite Hl|].
  intros [|k] Hk.
  - change (take 1 (chunk :: rest)) with [chunk].
    change (bytes_of [chunk]) with (chunk +:+ ""). by rewrite string_append_nil_r.
  - cbn [length] in Hk. change ((n + String.length chunk :: reported) !! S k)
      with (reported !! k). rewrite Hr by lia. f_equal.
    change (take (S (S k)) (chunk :: rest)) with (chunk :: take (S k) rest).
    change (bytes_of (chunk :: take (S k) rest)) with (chunk +:+ bytes_of (take (S k) rest)).
    rewrite string_length_append. lia.
Qed.

(** The request body of [uploadZipArchive] is the three form fields
    followed by the bytes of the file, unchanged and in order, and the
    closing boundary; [onProgress] is called once for every chunk of the
    file, with the number of file bytes yielded so far, so that the last
    call reports the size of the file. *)
Theorem upload_body_and_progress (now : Z) (filename : string) (chunks : list string) :
  let generated := createMultipartBodyGenerator now filename chunks true in
  bytes_of generated.1
  = reqtypePartHeader now +:+ reqtypePartValue +:+ timePartHeader now +:+ timePartValue
    +:+ filePartHeader now filename
    +:+ bytes_of chunks +:+ filePartFooter +:+ finalBoundary now
  /\ length generated.2 = length chunks
  /\ (forall k, k < length chunks ->
        generated.2 !! k = Some (String.length (bytes_of (take (S k) chunks))))
  /\ last generated.2
     = match chunks with
       | [] => None
       | _ :: _ => Some (String.length (bytes_of chunks))
       end.
Proof.
  unfold createMultipartBodyGenerator.
  destruct (forward_chunks_spec chunks 0) as (Hy & Hl & Hr).
  destruct (forward_chunks chunks 0) as [yielded reported]. cbn [fst snd] in *.
  subst yielded. split; [|split; [done|split]].
  - change ([reqtypePartHeader now; reqtypePartValue; timePartHeader now; timePartValue;
             filePartHeader now filename] ++ chunks ++ [filePartFooter; finalBoundary now])
      with (reqtypePartHeader now :: reqtypePartValue :: timePartHeader now :: timePartValue
            :: filePartHeader now filename :: (chunks ++ [filePartFooter; finalBoundary now])).
    cbn [bytes_of foldr]. fold (bytes_of (chunks ++ [filePartFooter; finalBoundary now])).
    rewrite bytes_of_app. cbn [bytes_of foldr]. by rewrite string_append_nil_r.
  - intros k Hk. by rewrite Hr.
  - rewrite last_lookup, Hl.
    destruct chunks as [|c rest].
    + by destruct reported.
    + cbn [length Nat.pred]. rewrite Hr by (cbn; lia). cbn [plus].
      rewrite (take_ge (c :: rest)) by (cbn; lia). done.
Qed.

Example upload_of_two_chunks :
  (createMultipartBodyGenerator 1700000000000 "myfile.zip" ["ab"; "cde"] true).2 = [2; 5].
Proof. reflexivity. Qed.

(** ** Instances of the further properties *)

Lemma moveRows_moves_witness :
  let s := sys_of with_trash ∅ [] in
  let p := fun r : list Value => sql_holds (fun c => bool_decide (c = Eq)) (cell r 0) (VText "a") in
  no_faults s = true
  /\ "items" <> "trash"
  /\ lookup_table "items" (image s) = Some (items_table [item_a; item_b])
  /\ lookup_table "trash" (image s) = Some (items_table [])
  /\ (columns (items_table [item_a; item_b])).*2 = (columns (items_table [])).*2
  /\ fits_column (items_table [item_a; item_b]) "id" (VText "a") = true
  /\ where_filter (items_table [item_a; item_b]) "id" (operator_text None) (VText "a") = Some p
  /\ exists s' src',
       moveRows "items" "trash" "id" (VText "a") None None s
       = (Ret (resp_changes 200 true 1), s')
       /\ lookup_table "trash" (image s') = Some (items_table [item_a])
       /\ lookup_table "items" (image s') = Some src'
       /\ columns src' = columns (items_table [item_a; item_b])
       /\ records src' ++ [item_a] ≡ₚ [item_a; item_b].
Proof.
  intros s p.
  assert (H1 : no_faults s = true) by reflexivity.
  assert (H2 : "items" <> "trash") by discriminate.
  assert (H3 : lookup_table "items" (image s) = Some (items_table [item_a; item_b]))
    by reflexivity.
  assert (H4 : lookup_table "trash" (image s) = Some (items_table [])) by reflexivity.
  assert (H5 : (columns (items_table [item_a; item_b])).*2 = (columns (items_table [])).*2)
    by reflexivity.
  assert (H6 : where_filter (items_table [item_a; item_b]) "id" (operator_text None)
                 (VText "a") = Some p) by reflexivity.
  assert (H7 : fits_column (items_table [item_a; item_b]) "id" (VText "a") = true)
    by reflexivity.
  repeat (split; [assumption|]).
  exact (moveRows_moves "items" "trash" "id" (VText "a") None None s _ _ p
           H1 H2 H3 H4 H5 H7 H6).
Defined.

Lemma moveRows_failed_insert_witness :
  let s := sys_of two_tables ∅ [] in
  let st := SInsertSelect "archive" "items" "id" (operator_text None) (VText "a") None in
  (next_fault s = true \/ exec st (image s) = None)
  /\ exists s',
       moveRows "items" "archive" "id" (VText "a") None None s
       = (Ret (resp_changes 500 false 0), s')
       /\ image s' = image s
       /\ log s' = [EvError "moveRows"; EvExec st false] ++ log s.
Proof.
  intros s st.
  assert (H : next_fault s = true \/ exec st (image s) = None) by (right; reflexivity).
  split; [exact H|].
  exact (moveRows_failed_insert "items" "archive" "id" (VText "a") None None s H).
Defined.

Lemma reorderFields_keeps_rows_witness :
  let s := env legacy_state in
  let tb := {| columns := [("size", INTEGER); ("junk", TEXT); ("link", TEXT); ("id", TEXT)];
               records := [[VInt 10; VText "j"; VText "http://x"; VText "a"]] |} in
  no_faults s = true
  /\ NoDup (image s).*1
  /\ lookup_table "items" (image s) = Some tb
  /\ well_formed tb
  /\ Forall (fun n => bare_name n = true) (column_names tb)
  /\ NoDup (name <$> key_first)
  /\ Forall (fun e => name e ∈ column_names tb) key_first
  /\ ~ (name <$> key_first) `prefix_of` column_names tb
  /\ lookup_table ("temp_" +:+ pretty (hd 0%N (rands s))) (image s) = None
  /\ exists s' tb',
       reorderFields demo_db "items" key_first s = (Ret (resp 200 true), s')
       /\ image s' = remove_table "items" (image s) ++ [("items", tb')]
       /\ column_names tb' = ["id"; "size"; "junk"; "link"]
       /\ row_object tb' <$> records tb' = row_object tb <$> records tb.
Proof.
  intros s tb.
  assert (H1 : no_faults s = true) by reflexivity.
  assert (H2 : NoDup (image s).*1) by compute_done.
  assert (H3 : lookup_table "items" (image s) = Some tb) by reflexivity.
  assert (H4 : well_formed tb).
  { split; [compute_done|]. repeat constructor. }
  assert (Hb : Forall (fun n => bare_name n = true) (column_names tb)) by by_running.
  assert (H5 : NoDup (name <$> key_first)) by compute_done.
  assert (H6 : Forall (fun e => name e ∈ column_names tb) key_first) by compute_done.
  assert (H7 : ~ (name <$> key_first) `prefix_of` column_names tb).
  { intros [k Hk]. discriminate Hk. }
  assert (H8 : lookup_table ("temp_" +:+ pretty (hd 0%N (rands s))) (image s) = None)
    by (vm_compute; reflexivity).
  repeat (split; [assumption|]).
  destruct (reorderFields_keeps_rows demo_db "items" key_first s tb H1 H2 H3 H4 Hb H5 H6 H7 H8)
    as (s' & tb' & E & I & C & _ & R).
  exists s', tb'. repeat (split; [assumption|]). exact R.
Defined.

Lemma rename_guards_witness :
  let s := sys_of two_tables ∅ [] in
  no_faults s = true
  /\ reads_only (renameTable "items" "archive") s (fun r => r = resp 409 false)
  /\ reads_only (renameTable "stale" "archive") s (fun r => r = resp 404 false)
  /\ reads_only (renameField "items" "size" "id") s (fun r => r = resp 409 false)
  /\ reads_only (renameField "items" "link" "url") s (fun r => r = resp 404 false).
Proof.
  intros s.
  assert (H : no_faults s = true) by reflexivity.
  split; [exact H|].
  destruct (rename_guards s H) as [Htable Hfield].
  split; [apply (Htable "items" "archive"); right; by eexists|].
  split; [apply (Htable "stale" "archive"); by left|].
  split.
  - apply (Hfield "items" "size" "id"). right. compute_done.
  - apply (Hfield "items" "link" "url"). left. compute_done.
Defined.

Lemma fromObject_of_toObject_witness :
  let this := create accounts [VText "u1"; VText "secret"] in
  let that := create secrets [VText "u1"; VText "secret"] in
  well_named (schema accounts) /\ NoDup (name <$> schema accounts)
  /\ plain (schema accounts) /\ instance_of accounts this
  /\ well_named (schema secrets) /\ NoDup (name <$> schema secrets)
  /\ plain (schema secrets) /\ instance_of secrets that
  /\ prop (fromObject accounts (toObject accounts this false)) "token" = VUndef
  /\ prop (fromObject accounts (toObject accounts this true)) "token" = VText "secret"
  /\ prop (fromObject secrets (toObject secrets that false)) "toString"
     = VObject (inherited "toString").
Proof.
  intros this that.
  assert (H1 : well_named (schema accounts)) by by_running.
  assert (H2 : NoDup (name <$> schema accounts)) by by_running.
  assert (H3 : plain (schema accounts)) by by_running.
  assert (H4 : instance_of accounts this) by by_running.
  assert (H5 : well_named (schema secrets)) by by_running.
  assert (H6 : NoDup (name <$> schema secrets)) by by_running.
  assert (H7 : plain (schema secrets)) by by_running.
  assert (H8 : instance_of secrets that) by by_running.
  repeat (split; [assumption|]). split; [|split].
  - exact (fromObject_of_toObject accounts this false H1 H2 H3 H4 token_column
             ltac:(right; left)).
  - etrans; [exact (fromObject_of_toObject accounts this true H1 H2 H3 H4 token_column
                      ltac:(right; left))|].
    by_running.
  - exact (fromObject_of_toObject secrets that false H5 H6 H7 H8 hidden_column
             ltac:(right; left)).
Defined.

Lemma find_and_all_hide_failures_witness :
  let s := sys_of two_tables ∅ [true] in
  (next_fault s = true \/ lookup_table (tableName items) (image s) = None)
  /\ truthy (primaryKey items) = Some "id"
  /\ (find items (VText "a") s).1 = Ret None
  /\ (all items s).1 = Ret [].
Proof.
  intros s.
  assert (H1 : next_fault s = true \/ lookup_table (tableName items) (image s) = None)
    by (left; reflexivity).
  assert (H2 : truthy (primaryKey items) = Some "id") by reflexivity.
  repeat (split; [assumption|]).
  destruct (find_and_all_hide_failures items s H1) as (Hfind & Hall & _).
  split; [exact (proj1 (Hfind "id" (VText "a") H2))|exact Hall].
Defined.


Lemma addFields_adds_every_missing_column_witness :
  let s := sys_of two_tables ∅ [false; true] in
  let fields := items_schema ++ [rating_column; token_column] in
  Forall (fun f => truthy (old f) = None) fields
  /\ next_fault s = false
  /\ exists r s' evs,
       addFields "items" fields false s = (Ret r, s')
       /\ log s' = evs ++ log s
       /\ List.filter is_add_column (writes evs)
          = [SAddColumn "items" "rating" INTEGER; SAddColumn "items" "token" TEXT].
Proof.
  intros s fields.
  assert (H1 : Forall (fun f => truthy (old f) = None) fields) by (repeat constructor).
  assert (H2 : next_fault s = false) by reflexivity.
  repeat (split; [assumption|]).
  exact (addFields_adds_every_missing_column "items" fields false s H1 H2).
Defined.

Lemma delete_then_find_witness :
  let s := sys_of two_tables ∅ [] in
  truthy (primaryKey items) = Some "id"
  /\ no_faults s = true
  /\ lookup_table "items" (image s) = Some (items_table [item_a])
  /\ "id" ∈ column_names (items_table [item_a])
  /\ fits_column (items_table [item_a]) "id" (VText "a") = true
  /\ exists s1 tb1 s2,
       delete_static items (VText "a") s = (Ret (resp_changes 200 true 1), s1)
       /\ lookup_table "items" (image s1) = Some tb1
       /\ find items (VText "a") s1 = (Ret None, s2).
Proof.
  intros s.
  assert (H1 : truthy (primaryKey items) = Some "id") by reflexivity.
  assert (H2 : no_faults s = true) by reflexivity.
  assert (H3 : lookup_table (tableName items) (image s) = Some (items_table [item_a]))
    by reflexivity.
  assert (H4 : "id" ∈ column_names (items_table [item_a])) by compute_done.
  assert (H4' : fits_column (items_table [item_a]) "id" (VText "a") = true) by reflexivity.
  repeat (split; [assumption|]).
  destruct (delete_then_find items "id" (VText "a") s _ H1 H2 H3 H4 H4')
    as (s1 & tb1 & s2 & E & Ht & _ & _ & F).
  exists s1, tb1, s2. split; [exact E|]. split; [exact Ht|exact F].
Defined.


Lemma open_drops_undeclared_tables_witness :
  let st := constructed (sys_of with_strays ∅ []) in
  delete_unused demo_db = true
  /\ no_faults (env st) = true
  /\ NoDup (image (env st)).*1
  /\ forallb (fun d => match lookup_table d.1 (image (env st)) with
                       | Some tb => table_conformant demo_db d.2 tb
                       | None => false
                       end) (tables demo_db) = true
  /\ exists st',
       open demo_db st = (Ret (resp 200 true), st')
       /\ image (env st')
          = [ ("items", items_table [item_a]);
              ("toString", {| columns := [("k", TEXT)]; records := [] |}) ].
Proof.
  intros st.
  assert (H1 : delete_unused demo_db = true) by reflexivity.
  assert (H2 : no_faults (env st) = true) by reflexivity.
  assert (H3 : NoDup (image (env st)).*1) by compute_done.
  assert (H4 : forallb (fun d => match lookup_table d.1 (image (env st)) with
                                 | Some tb => table_conformant demo_db d.2 tb
                                 | None => false
                                 end) (tables demo_db) = true) by (vm_compute; reflexivity).
  repeat (split; [assumption|]).
  destruct (open_drops_undeclared_tables demo_db st H1 H2 H3 H4) as (st' & E & I & _).
  exists st'. split; [exact E|]. rewrite I. vm_compute. reflexivity.
Defined.

Lemma prepareItem_outcome_witness :
  no_faults (storage idle_server) = true
  /\ lookup_table "items" (image (storage idle_server)) = Some (items_table [])
  /\ columns (items_table []) = columns (created_table items_schema)
  /\ exists b sv',
       prepareItem (fun _ => None) fetched "123" (Some 1700000000%Z) false idle_server
       = (Ret b, sv')
       /\ BUSY sv' = false.
Proof.
  assert (H1 : no_faults (storage idle_server) = true) by reflexivity.
  assert (H2 : lookup_table "items" (image (storage idle_server)) = Some (items_table []))
    by reflexivity.
  assert (H3 : columns (items_table []) = columns (created_table items_schema))
    by reflexivity.
  repeat (split; [assumption|]).
  destruct (prepareItem_outcome (fun _ => None) fetched "123" (Some 1700000000%Z) false
              idle_server _ H1 H2 H3) as (b & sv' & E & HB & _).
  exists b, sv'. split; [exact E|exact HB].
Defined.
